(** * stress-sysinval: the invalid-syscall fuzzer of stress-ng

    A shallow embedding of [stress-sysinval.c]: the argument-value tables,
    the (syscall, args) hash, the de-duplicating hash table, the recursive
    permutation engine, the forked worker, the supervising parent, and the
    mappings [stress_sysinval] makes and gives back.

    Conventions.
    - [unsigned long], [uint64_t] and [size_t] words are [Z] values in
      [0, 2^64) (LP64 Linux); every operation that can leave the range is
      wrapped with [ulong].  [int64_t counter] wraps in two's complement.
    - The raw [syscall(2)], [calloc], the [stress_mwc*] generators, the
      framework's [keep_stressing*] predicates, [setitimer] and the delivery
      of fatal signals are not part of the file: they are answered by an
      [environment] of oracles indexed by a logical clock that advances on
      every query, so any sequence of answers can be realised.
    - A raw syscall is assumed not to write to the worker's own bookkeeping
      (the witness page, the hash table, the value tables). *)

From stdpp Require Import gmap list strings.
From Stdlib Require Import ZArith Lia.

Local Open Scope Z_scope.

(** ** Machine words *)

Definition ULONG_BITS : Z := 64.
Definition ULONG_MOD : Z := 2 ^ ULONG_BITS.

(** Truncation to an [unsigned long]. *)
Definition ulong (z : Z) : Z := z mod ULONG_MOD.

(** [int64_t] wrap-around (two's complement). *)
Definition int64 (z : Z) : Z := (z + 2 ^ 63) mod 2 ^ 64 - 2 ^ 63.

(** [uint32_t] truncation. *)
Definition uint32 (z : Z) : Z := z mod 2 ^ 32.

(** [int] truncation (the type of [ret = syscall(...)]). *)
Definition int32 (z : Z) : Z := (z + 2 ^ 31) mod 2 ^ 32 - 2 ^ 31.

Definition INT_MAX : Z := 2 ^ 31 - 1.
Definition INT_MIN : Z := - 2 ^ 31.
Definition AT_FDCWD : Z := -100.

(** ** Constants of the source *)

Definition SYSCALL_HASH_TABLE_SIZE : Z := 10007.
Definition SYSCALL_FAIL : Z := 0.
Definition SYSCALL_CRASH : Z := 1.
Definition SYSCALL_ERRNO_ZERO : Z := 2.
Definition MAX_CRASHES : Z := 10.

Definition ARG_NONE : Z := 0x00000000.
Definition ARG_PTR : Z := 0x00000001.
Definition ARG_INT : Z := 0x00000002.
Definition ARG_UINT : Z := 0x00000004.
Definition ARG_SOCKFD : Z := 0x00000010.
Definition ARG_STRUCT_SOCKADDR : Z := 0x00000020.
Definition ARG_SOCKLEN_T : Z := 0x00000040.
Definition ARG_FLAG : Z := 0x00000080.
Definition ARG_BRK_ADDR : Z := 0x00000100.
Definition ARG_MODE : Z := 0x00000200.
Definition ARG_LEN : Z := 0x00000400.
Definition ARG_SECONDS : Z := 0x00001000.
Definition ARG_BPF_ATTR : Z := 0x00002000.
Definition ARG_EMPTY_FILENAME : Z := 0x00004000.
Definition ARG_DEVZERO_FILENAME : Z := 0x00008000.
Definition ARG_CLOCKID_T : Z := 0x00010000.
Definition ARG_FUNC_PTR : Z := 0x00020000.
Definition ARG_FD : Z := 0x00040000.
Definition ARG_TIMEOUT : Z := 0x00080000.
Definition ARG_DIRFD : Z := 0x00100000.
Definition ARG_DEVNULL_FILENAME : Z := 0x00200000.
Definition ARG_RND : Z := 0x00400000.
Definition ARG_PID : Z := 0x00800000.
Definition ARG_NON_NULL_PTR : Z := 0x01000000.
Definition ARG_NON_ZERO_LEN : Z := 0x02000000.
Definition ARG_GID : Z := 0x04000000.
Definition ARG_UID : Z := 0x08000000.
Definition ARG_FUTEX_PTR : Z := 0x10000000.

(** [#define ARG_MASK(x, mask) (((x) & (mask)) == (mask))] *)
Definition ARG_MASK (x mask : Z) : bool := Z.land x mask =? mask.

(** [#define SHR_UL(v, shift) ((unsigned long)(((unsigned long long)v) << shift))] *)
Definition SHR_UL (v shift : Z) : Z := ulong (Z.shiftl (ulong v) shift).

(** ** The hash *)

(** The [ROR] macro: rotate an [unsigned long] right by one bit. *)
Definition ROR (val : Z) : Z :=
  let tmp := val in
  let bits := ULONG_BITS - 1 in
  let bit0 := ulong (Z.shiftl (Z.land tmp 1) bits) in
  let tmp := Z.shiftr tmp 1 in
  let tmp := Z.lor tmp bit0 in
  tmp.

(** [args[i]] of a six-word argument array. *)
Definition arg_word (args : list Z) (i : nat) : Z := nth i args 0.

(** [stress_syscall_hash], statement by statement. *)
Definition stress_syscall_hash (syscall : Z) (args : list Z) : Z :=
  let hash := syscall in
  let hash := ROR hash in
  let hash := ROR hash in
  let hash := Z.lxor hash (arg_word args 0) in
  let hash := ROR hash in
  let hash := ROR hash in
  let hash := Z.lxor hash (arg_word args 1) in
  let hash := ROR hash in
  let hash := ROR hash in
  let hash := Z.lxor hash (arg_word args 2) in
  let hash := ROR hash in
  let hash := ROR hash in
  let hash := Z.lxor hash (arg_word args 3) in
  let hash := ROR hash in
  let hash := ROR hash in
  let hash := Z.lxor hash (arg_word args 4) in
  let hash := ROR hash in
  let hash := ROR hash in
  let hash := Z.lxor hash (arg_word args 5) in
  hash mod SYSCALL_HASH_TABLE_SIZE.

(** A value of type [unsigned long]. *)
Definition is_word (v : Z) : Prop := 0 <= v < ULONG_MOD.

(** The right rotation of a machine word by [n] positions, stated on the
    value of the word and without the macro: the [n] low bits [v mod 2^n]
    become the top bits, the other bits [v / 2^n] move down by [n]. *)
Definition rotate_right (n v : Z) : Z :=
  v / 2 ^ n + (v mod 2 ^ n) * 2 ^ (ULONG_BITS - n).

(** The fold the specification describes: start from the syscall number,
    and for each argument word in order rotate the machine word right
    twice and xor the argument word in; reduce modulo the bucket count at
    the end.  It is written with [rotate_right], not with [ROR]. *)
Definition hash_fold_step (h a : Z) : Z :=
  Z.lxor (rotate_right 1 (rotate_right 1 h)) a.

Definition hash_reference_fold (syscall : Z) (args : list Z) : Z :=
  fold_left hash_fold_step args syscall mod SYSCALL_HASH_TABLE_SIZE.

(** ** Descriptors and value tables *)

(** [syscall_arg_t]: one entry of the [syscall_args] table. *)
Record syscall_arg_t := {
  sa_syscall : Z;          (* system call number *)
  sa_name : string;        (* text name of system call *)
  sa_num_args : Z;         (* number of arguments *)
  sa_args : list Z         (* semantic info about each argument, 6 words *)
}.

(** [syscall_arg_values_t]: a mask and the invalid values that go with it. *)
Record syscall_arg_values_t := {
  av_mask : Z;
  av_num_values : nat;
  av_values : list Z
}.

(** [#define ARG_VALUE(x, v) { (x), SIZEOF_ARRAY(v), (unsigned long * )v }] *)
Definition ARG_VALUE (x : Z) (v : list Z) : syscall_arg_values_t :=
  {| av_mask := x; av_num_values := length v; av_values := v |}.

(** What the build fixes and the file cannot see: the addresses of the
    string literals and of [func_exit], and the words read through the
    [unsigned long *] view of the 32-bit arrays [pids], [gids], [uids]. *)
Record platform := {
  addr_empty_string : Z;
  addr_dev_zero : Z;
  addr_dev_null : Z;
  addr_func_exit : Z;
  pids_word : nat -> Z;
  gids_word : nat -> Z;
  uids_word : nat -> Z
}.

(** The file-scope variables written after program start: the two arena
    pointers and the five value arrays patched by [stress_sysinval]. *)
Record globals := {
  small_ptr : Z;
  page_ptr : Z;
  sockfds : list Z;
  sockaddrs : list Z;
  ptrs : list Z;
  futex_ptrs : list Z;
  non_null_ptrs : list Z
}.

Definition none_values : list Z := [0].
Definition mode_values : list Z :=
  [ulong (-1); ulong INT_MAX; ulong INT_MIN; ulong (Z.lnot 0); ulong (Z.shiftl 1 20)].
Definition fds : list Z := [ulong (-1); ulong INT_MAX; ulong INT_MIN; ulong (Z.lnot 0)].
Definition dirfds : list Z := [ulong (-1); ulong AT_FDCWD; ulong INT_MIN; ulong (Z.lnot 0)].
Definition clockids : list Z :=
  [ulong (-1); ulong INT_MAX; ulong INT_MIN; ulong (Z.lnot 0); SHR_UL 0xfe23 18].
Definition brk_addrs : list Z :=
  [0; ulong (-1); ulong INT_MAX; ulong INT_MIN; ulong (Z.lnot 0); 4096].
Definition empty_filenames (P : platform) : list Z := [ulong (addr_empty_string P); 0].
Definition zero_filenames (P : platform) : list Z := [ulong (addr_dev_zero P)].
Definition null_filenames (P : platform) : list Z := [ulong (addr_dev_null P)].
Definition flags : list Z := [ulong (-1); ulong (-2); ulong INT_MIN; SHR_UL 0xffff 20].
Definition lengths : list Z :=
  [ulong (-1); ulong (-2); ulong INT_MIN; ulong INT_MAX; ulong (Z.lnot 0);
   ulong (- SHR_UL 1 31)].
Definition ints : list Z :=
  [0; ulong (-1); ulong (-2); ulong INT_MIN; ulong INT_MAX; SHR_UL 0xff 30;
   SHR_UL 1 30; ulong (- SHR_UL 0xff 30); ulong (- SHR_UL 1 30)].
Definition uints : list Z :=
  [ulong INT_MAX; SHR_UL 0xff 30; ulong (- SHR_UL 0xff 30); ulong (Z.lnot 0)].
Definition func_ptrs (P : platform) : list Z := [ulong (addr_func_exit P)].
Definition socklens : list Z := [0; ulong (-1); ulong INT_MAX; ulong INT_MIN; 8192].
Definition timeouts : list Z := [0].
Definition pids (P : platform) : list Z := map (pids_word P) (seq 0 4).
Definition gids (P : platform) : list Z := map (gids_word P) (seq 0 2).
Definition uids (P : platform) : list Z := map (uids_word P) (seq 0 2).

(** The initialisers of the arrays that are patched later. *)
Definition initial_globals : globals := {|
  small_ptr := 0;
  page_ptr := 0;
  sockfds := [0; 0; ulong (-1); ulong INT_MAX; ulong INT_MIN; ulong (Z.lnot 0)];
  sockaddrs := [0; 0; 0; ulong (-1); ulong INT_MAX; ulong INT_MIN];
  ptrs := [0; 0; 0; ulong (-1); ulong INT_MAX; ulong INT_MIN; ulong (Z.lnot 4096)];
  futex_ptrs := [0; 0];
  non_null_ptrs := [0; 0; ulong (-1); ulong INT_MAX; ulong INT_MIN; ulong (Z.lnot 4096)]
|}.

(** [arg_values]: mapping of invalid arg types to invalid arg values, in
    declaration order. *)
Definition arg_values (P : platform) (g : globals) : list syscall_arg_values_t :=
  [ ARG_VALUE ARG_MODE mode_values;
    ARG_VALUE ARG_SOCKFD (sockfds g);
    ARG_VALUE ARG_FD fds;
    ARG_VALUE ARG_DIRFD dirfds;
    ARG_VALUE ARG_CLOCKID_T clockids;
    ARG_VALUE ARG_PID (pids P);
    ARG_VALUE (Z.lor ARG_PTR ARG_STRUCT_SOCKADDR) (sockaddrs g);
    ARG_VALUE ARG_BRK_ADDR brk_addrs;
    ARG_VALUE ARG_EMPTY_FILENAME (empty_filenames P);
    ARG_VALUE ARG_DEVZERO_FILENAME (zero_filenames P);
    ARG_VALUE ARG_DEVNULL_FILENAME (null_filenames P);
    ARG_VALUE ARG_FLAG flags;
    ARG_VALUE ARG_SOCKLEN_T socklens;
    ARG_VALUE ARG_TIMEOUT timeouts;
    ARG_VALUE ARG_LEN lengths;
    ARG_VALUE ARG_GID (gids P);
    ARG_VALUE ARG_UID (uids P);
    ARG_VALUE ARG_INT ints;
    ARG_VALUE ARG_UINT uints;
    ARG_VALUE ARG_FUNC_PTR (func_ptrs P);
    ARG_VALUE ARG_NON_NULL_PTR (non_null_ptrs g);
    ARG_VALUE ARG_FUTEX_PTR (futex_ptrs g);
    ARG_VALUE ARG_PTR (ptrs g) ].

(** The scan of [syscall_permute]'s [default:] branch: the first entry whose
    mask is contained in [arg]; [None] when the loop runs off the array
    (the source then leaves [num_values] at 0). *)
Fixpoint find_arg_values (arg : Z) (tbl : list syscall_arg_values_t)
  : option syscall_arg_values_t :=
  match tbl with
  | [] => None
  | e :: rest => if ARG_MASK arg (av_mask e) then Some e else find_arg_values arg rest
  end.

(** ** Startup: the arena and the patching of the pointer tables *)

Definition MAP_FAILED : Z := ulong (-1).

(** [arr[i] = v] on a C array: in range in every use below. *)
Definition store (arr : list Z) (i : nat) (v : Z) : list Z := <[i := v]> arr.

(** The part of [stress_sysinval] that runs before the supervisor starts.
    [sock] is the result of [socket()], [m_ctx], [m_small], [m_page] the
    results of the three [mmap] calls.  [None] is [EXIT_NO_RESOURCE]. *)
Definition stress_sysinval_setup (page_size sock m_ctx m_small m_page : Z)
    (g : globals) : option globals :=
  let sockfds' := store (sockfds g) 0 (ulong sock) in
  if m_ctx =? MAP_FAILED then None
  else if m_small =? MAP_FAILED then None
  else if m_page =? MAP_FAILED then None
  else
    let last_byte := ulong (m_small + page_size - 1) in
    Some {|
      small_ptr := m_small;
      page_ptr := m_page;
      sockfds := sockfds';
      sockaddrs := store (store (sockaddrs g) 0 last_byte) 1 (ulong m_page);
      ptrs := store (store (ptrs g) 0 last_byte) 1 (ulong m_page);
      futex_ptrs := store (store (futex_ptrs g) 0 last_byte) 1 (ulong m_page);
      non_null_ptrs := store (store (non_null_ptrs g) 0 last_byte) 1 (ulong m_page)
    |}.

(** The categories the specification lists as pointers: SOCKADDR-pointer,
    GENERIC-pointer, NON-NULL-pointer, FUTEX-pointer and FUNC-pointer. *)
Definition pointer_category (mask : Z) : bool :=
  negb (Z.land mask
          (Z.lor ARG_PTR (Z.lor ARG_NON_NULL_PTR (Z.lor ARG_FUTEX_PTR ARG_FUNC_PTR))) =? 0).

(** The four tables [stress_sysinval] writes to. *)
Definition data_pointer_mask (mask : Z) : bool :=
  (mask =? Z.lor ARG_PTR ARG_STRUCT_SOCKADDR) || (mask =? ARG_PTR)
  || (mask =? ARG_NON_NULL_PTR) || (mask =? ARG_FUTEX_PTR).

(** ** What [stress_sysinval] maps and unmaps *)

(** [(sizeof( *current_context) + page_size) & ~(page_size - 1)], computed in
    [size_t]. *)
Definition current_context_size (sizeof_context page_size : Z) : Z :=
  Z.land (ulong (sizeof_context + page_size))
    (ulong (Z.lnot (ulong (page_size - 1)))).

(** The calls of [stress_sysinval] that take or give back a resource.
    [ResMmap addr size] is an [mmap] of [size] bytes that returned [addr],
    [ResMmapFailed] one that returned [MAP_FAILED]; [ResChild] is the run of
    [stress_oomable_child]. *)
Inductive resource_event :=
| ResSocket (fd : Z)
| ResMmap (addr size : Z)
| ResMmapFailed (size : Z)
| ResMprotect (addr size : Z)
| ResMunmap (addr size : Z)
| ResChild
| ResClose (fd : Z)
| ResHashTableFree.

(** What [stress_sysinval] returns: [EXIT_NO_RESOURCE], or the value of
    [stress_oomable_child]. *)
Inductive sysinval_status :=
| NoResource
| ChildStatus (ret : Z).

(** [stress_sysinval] as the list of these calls, in program order.
    [have_mprotect] is [defined(HAVE_MPROTECT)], [sock] the result of
    [socket()], [m_ctx], [m_small], [m_page] the results of the three [mmap]
    calls, [ret] what [stress_oomable_child] returns. *)
Definition stress_sysinval_resources (have_mprotect : bool)
    (sizeof_context page_size sock m_ctx m_small m_page ret : Z)
  : list resource_event * sysinval_status :=
  let context_size := current_context_size sizeof_context page_size in
  let small_ptr_size := ulong (Z.shiftl page_size 1) in
  let log := [ResSocket sock] in
  if m_ctx =? MAP_FAILED then
    (log ++ [ResMmapFailed context_size], NoResource)
  else
    let log := log ++ [ResMmap m_ctx context_size] in
    if m_small =? MAP_FAILED then
      (log ++ [ResMmapFailed small_ptr_size; ResMunmap m_ctx page_size], NoResource)
    else
      let log := log ++ [ResMmap m_small small_ptr_size] in
      let '(log, small_ptr_size) :=
        if have_mprotect then
          (log ++ [ResMprotect (m_small + page_size) page_size], small_ptr_size)
        else
          (log ++ [ResMunmap (m_small + page_size) page_size],
           ulong (small_ptr_size - page_size)) in
      if m_page =? MAP_FAILED then
        (log ++ [ResMmapFailed page_size; ResMunmap m_small small_ptr_size;
                 ResMunmap m_ctx page_size], NoResource)
      else
        let log := log ++ [ResMmap m_page page_size; ResChild] in
        let log := log ++ [ResMunmap m_page page_size;
                           ResMunmap m_small small_ptr_size;
                           ResMunmap m_ctx context_size] in
        let log := if sock >=? 0 then log ++ [ResClose sock] else log in
        (log ++ [ResHashTableFree], ChildStatus ret).

(** ** The shared witness page *)

(** [syscall_current_context_t], without the filler. *)
Record syscall_current_context_t := {
  ctx_hash : Z;
  ctx_syscall : Z;
  ctx_type : Z;
  ctx_name : string;
  ctx_idx : nat;
  ctx_counter : Z;
  ctx_skip_crashed : Z;
  ctx_skip_errno_zero : Z;
  ctx_crash_count : list Z;
  ctx_args : list Z
}.

Definition set_hash (c : syscall_current_context_t) (v : Z) :=
  {| ctx_hash := v; ctx_syscall := ctx_syscall c; ctx_type := ctx_type c;
     ctx_name := ctx_name c; ctx_idx := ctx_idx c; ctx_counter := ctx_counter c;
     ctx_skip_crashed := ctx_skip_crashed c;
     ctx_skip_errno_zero := ctx_skip_errno_zero c;
     ctx_crash_count := ctx_crash_count c; ctx_args := ctx_args c |}.

Definition set_type (c : syscall_current_context_t) (v : Z) :=
  {| ctx_hash := ctx_hash c; ctx_syscall := ctx_syscall c; ctx_type := v;
     ctx_name := ctx_name c; ctx_idx := ctx_idx c; ctx_counter := ctx_counter c;
     ctx_skip_crashed := ctx_skip_crashed c;
     ctx_skip_errno_zero := ctx_skip_errno_zero c;
     ctx_crash_count := ctx_crash_count c; ctx_args := ctx_args c |}.

Definition set_counter (c : syscall_current_context_t) (v : Z) :=
  {| ctx_hash := ctx_hash c; ctx_syscall := ctx_syscall c; ctx_type := ctx_type c;
     ctx_name := ctx_name c; ctx_idx := ctx_idx c; ctx_counter := v;
     ctx_skip_crashed := ctx_skip_crashed c;
     ctx_skip_errno_zero := ctx_skip_errno_zero c;
     ctx_crash_count := ctx_crash_count c; ctx_args := ctx_args c |}.

Definition set_skip_crashed (c : syscall_current_context_t) (v : Z) :=
  {| ctx_hash := ctx_hash c; ctx_syscall := ctx_syscall c; ctx_type := ctx_type c;
     ctx_name := ctx_name c; ctx_idx := ctx_idx c; ctx_counter := ctx_counter c;
     ctx_skip_crashed := v;
     ctx_skip_errno_zero := ctx_skip_errno_zero c;
     ctx_crash_count := ctx_crash_count c; ctx_args := ctx_args c |}.

Definition set_skip_errno_zero (c : syscall_current_context_t) (v : Z) :=
  {| ctx_hash := ctx_hash c; ctx_syscall := ctx_syscall c; ctx_type := ctx_type c;
     ctx_name := ctx_name c; ctx_idx := ctx_idx c; ctx_counter := ctx_counter c;
     ctx_skip_crashed := ctx_skip_crashed c;
     ctx_skip_errno_zero := v;
     ctx_crash_count := ctx_crash_count c; ctx_args := ctx_args c |}.

Definition set_crash_count (c : syscall_current_context_t) (v : list Z) :=
  {| ctx_hash := ctx_hash c; ctx_syscall := ctx_syscall c; ctx_type := ctx_type c;
     ctx_name := ctx_name c; ctx_idx := ctx_idx c; ctx_counter := ctx_counter c;
     ctx_skip_crashed := ctx_skip_crashed c;
     ctx_skip_errno_zero := ctx_skip_errno_zero c;
     ctx_crash_count := v; ctx_args := ctx_args c |}.

Definition set_args (c : syscall_current_context_t) (v : list Z) :=
  {| ctx_hash := ctx_hash c; ctx_syscall := ctx_syscall c; ctx_type := ctx_type c;
     ctx_name := ctx_name c; ctx_idx := ctx_idx c; ctx_counter := ctx_counter c;
     ctx_skip_crashed := ctx_skip_crashed c;
     ctx_skip_errno_zero := ctx_skip_errno_zero c;
     ctx_crash_count := ctx_crash_count c; ctx_args := v |}.

(** The three stores that publish a descriptor:
    [->syscall = ...; ->idx = ...; ->name = ...]. *)
Definition set_descriptor (c : syscall_current_context_t)
    (num : Z) (idx : nat) (nm : string) :=
  {| ctx_hash := ctx_hash c; ctx_syscall := num; ctx_type := ctx_type c;
     ctx_name := nm; ctx_idx := idx; ctx_counter := ctx_counter c;
     ctx_skip_crashed := ctx_skip_crashed c;
     ctx_skip_errno_zero := ctx_skip_errno_zero c;
     ctx_crash_count := ctx_crash_count c; ctx_args := ctx_args c |}.

(** The page as [mmap(MAP_ANONYMOUS)] hands it out: all zero, for a table of
    [n] descriptors. *)
Definition zero_context (n : nat) : syscall_current_context_t :=
  {| ctx_hash := 0; ctx_syscall := 0; ctx_type := 0; ctx_name := "";
     ctx_idx := 0; ctx_counter := 0; ctx_skip_crashed := 0;
     ctx_skip_errno_zero := 0; ctx_crash_count := replicate n 0;
     ctx_args := replicate 6 0 |}.

(** ** The hash table *)

(** [syscall_arg_hash_t]; the [next] link is the tail of the bucket's list. *)
Record syscall_arg_hash_t := {
  h_hash : Z;
  h_syscall : Z;
  h_args : list Z;
  h_type : Z
}.

(** [hash_table[i]]: a bucket that was never written is [NULL]. *)
Definition bucket (tbl : gmap Z (list syscall_arg_hash_t)) (i : Z)
  : list syscall_arg_hash_t := default [] (tbl !! i).

(** [hash_table_add]; [alloc_ok = false] is the [calloc] failure after which
    the function returns silently. *)
Definition hash_table_add (alloc_ok : bool) (hash syscall_num : Z) (args : list Z)
    (type : Z) (tbl : gmap Z (list syscall_arg_hash_t))
  : gmap Z (list syscall_arg_hash_t) :=
  if alloc_ok then
    let h := {| h_hash := hash; h_syscall := syscall_num; h_args := args;
                h_type := type mod 256 |} in
    <[hash := h :: bucket tbl hash]> tbl
  else tbl.

(** [hash_table_free]: every chain is freed and every bucket reset. *)
Definition hash_table_free (tbl : gmap Z (list syscall_arg_hash_t))
  : gmap Z (list syscall_arg_hash_t) := ∅.

(** The [while (h)] walk at a leaf: the first node of the chain whose six
    argument words compare equal under [memcmp]. *)
Fixpoint chain_lookup (h : list syscall_arg_hash_t) (args : list Z)
  : option syscall_arg_hash_t :=
  match h with
  | [] => None
  | e :: next =>
      if bool_decide (h_args e = args) then Some e else chain_lookup next args
  end.

(** The [switch (h->type)] that counts a skipped call. *)
Definition count_skip (h : syscall_arg_hash_t) (c : syscall_current_context_t)
  : syscall_current_context_t :=
  if h_type h =? SYSCALL_CRASH then
    set_skip_crashed c (ulong (ctx_skip_crashed c + 1))
  else if h_type h =? SYSCALL_ERRNO_ZERO then
    set_skip_errno_zero c (ulong (ctx_skip_errno_zero c + 1))
  else c.

(** ** The environment of a worker *)

(** What a raw syscall does to the worker: it returns a [long], or the
    worker is terminated while the call is in flight (a fatal signal, the
    100 ms alarm, a kill). *)
Inductive syscall_result :=
| Returned (ret : Z)
| Killed.

(** Oracles, each indexed by the logical clock at the time of the query. *)
Record environment := {
  env_setup_ok : bool;                        (* capabilities dropped, handlers installed *)
  env_syscall : nat -> Z -> list Z -> syscall_result;
  env_calloc : nat -> bool;
  env_mwc32 : nat -> Z;
  env_mwc64 : nat -> Z;
  env_keep_stressing_flag : nat -> bool;
  env_keep_stressing : nat -> bool;
  env_setitimer : nat -> Z;
  env_signal : nat -> bool                    (* a fatal signal arrives between calls *)
}.

(** Ghost log of what a worker did.  [EvSyscall sa num args before during r]
    is one raw [syscall(num, args[0], ..., args[5])] made for descriptor
    [sa]: [before] is the witness page when the leaf was entered, [during]
    the page while the call is in flight, [r] what the call did.  [EvSkip]
    is a leaf that returned on a hash-table match, [EvBadMask] the [pr_dbg]
    of an argument without values, [EvSetitimer] the arming of the timer,
    [EvPass] the start of a pass over the descriptors in the given order. *)
Inductive event :=
| EvSyscall (sa : syscall_arg_t) (num : Z) (args : list Z)
            (before during : syscall_current_context_t) (r : syscall_result)
| EvPass (reorder : list nat)
| EvSkip (sa : syscall_arg_t) (args : list Z) (h : syscall_arg_hash_t)
| EvBadMask (arg_num : nat) (arg : Z)
| EvSetitimer (idx : nat) (ret : Z).

(** A process: the shared page, its private copy of the hash table, and the
    ghost clock and log. *)
Record world := {
  w_ctx : syscall_current_context_t;
  w_table : gmap Z (list syscall_arg_hash_t);
  w_clock : nat;
  w_trace : list event
}.

Definition with_ctx (w : world) (c : syscall_current_context_t) : world :=
  {| w_ctx := c; w_table := w_table w; w_clock := w_clock w; w_trace := w_trace w |}.

Definition with_table (w : world) (t : gmap Z (list syscall_arg_hash_t)) : world :=
  {| w_ctx := w_ctx w; w_table := t; w_clock := w_clock w; w_trace := w_trace w |}.

Definition tick (w : world) : world :=
  {| w_ctx := w_ctx w; w_table := w_table w; w_clock := S (w_clock w);
     w_trace := w_trace w |}.

Definition emit (w : world) (e : event) : world :=
  {| w_ctx := w_ctx w; w_table := w_table w; w_clock := w_clock w;
     w_trace := w_trace w ++ [e] |}.

(** [current_context->args[i] = v]. *)
Definition set_arg (w : world) (i : nat) (v : Z) : world :=
  with_ctx w (set_args (w_ctx w) (store (ctx_args (w_ctx w)) i v)).

(** A computation either goes on in a new world or ends the process. *)
Inductive outcome :=
| Alive (w : world)
| Dead (w : world).

Definition outcome_world (o : outcome) : world :=
  match o with
  | Alive w => w
  | Dead w => w
  end.

Definition and_then (o : outcome) (k : world -> outcome) : outcome :=
  match o with
  | Alive w => k w
  | Dead w => Dead w
  end.

Notation "o >>> k" := (and_then o k) (at level 60, right associativity).

(** [for (i = 0; i < num_values; i++) body(values[i])]. *)
Fixpoint for_each (body : Z -> world -> outcome) (vals : list Z) (w : world)
  : outcome :=
  match vals with
  | [] => Alive w
  | v :: rest => body v w >>> for_each body rest
  end.

(** [values[0], ..., values[num_values - 1]]: what the loop over one argument
    position reads. *)
Definition candidate_values (values : list Z) (num_values : nat) : list Z :=
  map (arg_word values) (seq 0 num_values).

Section Engine.

Variable P : platform.
Variable g : globals.
Variable env : environment.

(** The body of [if (arg_num >= syscall_arg->num_args)]. *)
Definition syscall_leaf (sa : syscall_arg_t) (w : world) : outcome :=
  let c := w_ctx w in
  let syscall_num := sa_syscall sa in
  let hash := stress_syscall_hash syscall_num (ctx_args c) in
  match chain_lookup (bucket (w_table w) hash) (ctx_args c) with
  | Some h =>
      Alive (emit (with_ctx w (count_skip h c)) (EvSkip sa (ctx_args c) h))
  | None =>
      let c1 := set_counter c (int64 (ctx_counter c + 1)) in
      let c2 := set_hash c1 hash in
      let c3 := set_type c2 SYSCALL_CRASH in
      let r := env_syscall env (w_clock w) syscall_num (ctx_args c3) in
      let w1 := emit (tick (with_ctx w c3))
                  (EvSyscall sa syscall_num (ctx_args c3) c c3 r) in
      match r with
      | Killed => Dead w1
      | Returned ret =>
          let w2 :=
            if int32 ret =? 0 then
              tick (with_table w1
                      (hash_table_add (env_calloc env (w_clock w1)) hash
                         syscall_num (ctx_args c3) SYSCALL_ERRNO_ZERO
                         (w_table w1)))
            else w1 in
          Alive (with_ctx w2 (set_type (w_ctx w2) SYSCALL_FAIL))
      end
  end.

(** The [switch (arg)]: the candidate values for one argument position,
    with [num_values] as the source leaves it, and the world after the
    generator calls of the [ARG_RND] case. *)
Definition select_values (arg : Z) (w : world) : list Z * nat * world :=
  if arg =? ARG_NONE then (none_values, 1%nat, w)
  else if arg =? ARG_RND then
    let r0 := ulong (env_mwc64 env (w_clock w)) in
    let w := tick w in
    let r1 := SHR_UL (uint32 (env_mwc32 env (w_clock w))) 20 in
    let w := tick w in
    ([r0; r1; ulong (small_ptr g); ulong (page_ptr g)], 4%nat, w)
  else
    match find_arg_values arg (arg_values P g) with
    | Some e => (av_values e, av_num_values e, w)
    | None => ([], 0%nat, w)
    end.

(** [syscall_permute], by recursion on the number of positions left,
    [rem = num_args - arg_num]: the leaf is the case [arg_num >= num_args]. *)
Fixpoint permute_from (rem : nat) (arg_num : nat) (sa : syscall_arg_t)
    (w : world) : outcome :=
  match rem with
  | O => syscall_leaf sa w
  | S rem' =>
      let arg := arg_word (sa_args sa) arg_num in
      let '(values, num_values, w) := select_values arg w in
      match num_values with
      | O => Alive (set_arg (emit w (EvBadMask arg_num arg)) arg_num 0)
      | S _ =>
          for_each
            (fun v w =>
               permute_from rem' (S arg_num) sa (set_arg w arg_num v)
               >>> (fun w => Alive (set_arg w arg_num 0)))
            (candidate_values values num_values) w
      end
  end.

Definition syscall_permute (arg_num : nat) (sa : syscall_arg_t) (w : world)
  : outcome :=
  permute_from (Z.to_nat (sa_num_args sa - Z.of_nat arg_num)) arg_num sa w.

End Engine.

(** ** The worker (the child side of [fork]) *)

Definition set_clock (w : world) (t : nat) : world :=
  {| w_ctx := w_ctx w; w_table := w_table w; w_clock := t; w_trace := w_trace w |}.

(** [tmp = reorder[i]; reorder[i] = reorder[j]; reorder[j] = tmp;] *)
Definition swap (reorder : list nat) (i j : nat) : list nat :=
  let tmp := nth i reorder 0%nat in
  let reorder := <[i := nth j reorder 0%nat]> reorder in
  <[j := tmp]> reorder.

(** How far a worker got: [Finished] is a process that has terminated
    ([_exit], or death in a syscall or by a signal), with the world it left. *)
Inductive worker_outcome :=
| Finished (w : world)
| Running (w : world).

Definition final_world (o : worker_outcome) : world :=
  match o with
  | Finished w => w
  | Running w => w
  end.

(** A freshly forked child: the parent's page and a copy of its table. *)
Definition forked (c : syscall_current_context_t)
    (tbl : gmap Z (list syscall_arg_hash_t)) : world :=
  {| w_ctx := c; w_table := tbl; w_clock := 0; w_trace := [] |}.

(** The head of the loop over descriptors: [memset] of the argument words,
    then the stores of the syscall number, the table index and the name. *)
Definition publish (w : world) (idx : nat) (sa : syscall_arg_t) : world :=
  let c := set_args (w_ctx w) (replicate 6 0) in
  with_ctx w (set_descriptor c (sa_syscall sa) idx (sa_name sa)).

Section Worker.

Variable P : platform.
Variable g : globals.
Variable env : environment.
Variable syscall_args : list syscall_arg_t.

(** [SIZEOF_ARRAY(syscall_args)], also the size of [reorder]. *)
Definition N : nat := length syscall_args.

(** One iteration of the inner shuffle loop; the state is the array and
    the clock of the generator. *)
Definition shuffle_step (sz : nat) (st : list nat * nat) (i : nat)
  : list nat * nat :=
  let '(reorder, t) := st in
  if Nat.eqb sz 0 then (swap reorder i 0, t)
  else
    let j := Z.to_nat (uint32 (env_mwc32 env t) mod Z.of_nat sz) in
    (swap reorder i j, S t).

(** [for (i = 0; i < SIZEOF_ARRAY(reorder); i++)] *)
Definition shuffle_round (sz : nat) (st : list nat * nat) : list nat * nat :=
  fold_left (shuffle_step sz) (seq 0 sz) st.

(** [for (n = 0; n < 5; n++)] *)
Definition shuffle (sz : nat) (st : list nat * nat) : list nat * nat :=
  fold_left (fun st (_ : nat) => shuffle_round sz st) (seq 0 5) st.

(** The body of the loop over descriptors, for [j = reorder[i]].  The
    handlers installed at the start make every fatal signal (the 100 ms
    alarm among them) an [_exit(1)] wherever it lands; besides the raw call
    itself ([Killed]) the model lets one land at one point between calls,
    right after the descriptor has been published.  [reorder] only holds
    indices below [N], so the [None] case is never taken. *)
Definition visit (j : nat) (w : world) : outcome :=
  match syscall_args !! j with
  | None => Alive w
  | Some sa =>
      let idx := j in
      let w := publish w idx sa in
      let sig := env_signal env (w_clock w) in
      let w := tick w in
      if sig then Dead w
      else if MAX_CRASHES <=? nth idx (ctx_crash_count (w_ctx w)) 0 then Alive w
      else
        let ret := env_setitimer env (w_clock w) in
        let w := emit (tick w) (EvSetitimer idx ret) in
        if ret <? 0 then Alive w
        else syscall_permute P g env 0 sa w
  end.

(** [for (i = 0; keep_stressing() && (i < SIZEOF_ARRAY(syscall_args)); i++)],
    over the values of [i] still to come. *)
Fixpoint pass_loop (todo : list nat) (reorder : list nat) (w : world) : outcome :=
  let ks := env_keep_stressing env (w_clock w) in
  let w := tick w in
  if ks then
    match todo with
    | [] => Alive w
    | i :: rest => visit (nth i reorder 0%nat) w >>> pass_loop rest reorder
    end
  else Alive w.

(** [while (keep_stressing_flag()) { shuffle; pass; hash_table_free(); }]
    followed by [_exit(EXIT_SUCCESS)].  [fuel] bounds the number of passes:
    [Running] is a worker that is still in the loop when the fuel is spent. *)
Fixpoint worker_loop (fuel : nat) (reorder : list nat) (w : world)
  : worker_outcome :=
  match fuel with
  | O => Running w
  | S fuel' =>
      let flag := env_keep_stressing_flag env (w_clock w) in
      let w := tick w in
      if flag then
        let '(reorder, t) := shuffle N (reorder, w_clock w) in
        let w := emit (set_clock w t) (EvPass reorder) in
        match pass_loop (seq 0 N) reorder w with
        | Dead w => Finished w
        | Alive w =>
            worker_loop fuel' reorder (with_table w (hash_table_free (w_table w)))
        end
      else Finished w
  end.

(** The child branch of [stress_do_syscall], from the installation of the
    handlers on; a failed setup is one of the early [_exit]s. *)
Definition worker (fuel : nat) (w : world) : worker_outcome :=
  if env_setup_ok env then worker_loop fuel (seq 0 N) w else Finished w.

End Worker.

(** ** The supervisor (the parent side of [fork]) *)

Definition EINTR : Z := 4.
Definition SIGKILL : Z := 9.

(** What one call of [stress_do_syscall] meets on the parent side, and the
    environment and pass budget of the child it forks. *)
Record supervisor_env := {
  sup_keep_stressing_flag : bool;
  sup_drop_capabilities : Z;
  sup_fork : Z;
  sup_waitpid : Z;
  sup_errno : Z;
  sup_calloc : bool;
  sup_child : environment;
  sup_child_fuel : nat
}.

Inductive sup_event :=
| SupWorker (trace : list event)
| SupWaitpid (pid : Z)
| SupLogWaitpid (errno : Z)
| SupKill (pid : Z) (sig : Z).

Record supervisor := {
  s_ctx : syscall_current_context_t;
  s_table : gmap Z (list syscall_arg_hash_t);
  s_log : list sup_event
}.

Inductive sup_outcome :=
| Continue (s : supervisor)     (* the call returned *)
| Exited (s : supervisor)       (* [_exit] in the parent: [fork] failed *)
| Pending (s : supervisor).     (* blocked in [waitpid]: the child still runs *)

Definition sup_state (o : sup_outcome) : supervisor :=
  match o with
  | Continue s => s
  | Exited s => s
  | Pending s => s
  end.

(** The wait step of the parent branch, as the list of what it does. *)
Definition wait_for_child (pid ret errno : Z) : list sup_event :=
  SupWaitpid pid ::
  (if ret <? 0 then
     (if negb (errno =? EINTR) then [SupLogWaitpid errno] else [])
     ++ [SupKill pid SIGKILL; SupWaitpid pid]
   else []).

(** [if (current_context->type == SYSCALL_CRASH) { ... }] after the wait. *)
Definition record_crash (alloc_ok : bool) (n : nat)
    (c : syscall_current_context_t) (tbl : gmap Z (list syscall_arg_hash_t))
  : syscall_current_context_t * gmap Z (list syscall_arg_hash_t) :=
  if ctx_type c =? SYSCALL_CRASH then
    let idx := ctx_idx c in
    let tbl := hash_table_add alloc_ok (ctx_hash c) (ctx_syscall c) (ctx_args c)
                 SYSCALL_CRASH tbl in
    let c :=
      if Nat.ltb idx n then
        set_crash_count c
          (store (ctx_crash_count c) idx (ulong (nth idx (ctx_crash_count c) 0 + 1)))
      else c in
    (c, tbl)
  else (c, tbl).

Section Supervisor.

Variable P : platform.
Variable g : globals.
Variable syscall_args : list syscall_arg_t.

(** [stress_do_syscall]. *)
Definition stress_do_syscall (se : supervisor_env) (s : supervisor) : sup_outcome :=
  if negb (sup_keep_stressing_flag se) then Continue s
  else if sup_drop_capabilities se <? 0 then Continue s
  else
    let pid := sup_fork se in
    if pid <? 0 then Exited s
    else
      let child := forked (s_ctx s) (s_table s) in
      match worker P g (sup_child se) syscall_args (sup_child_fuel se) child with
      | Running w =>
          Pending {| s_ctx := w_ctx w; s_table := s_table s;
                     s_log := s_log s ++ [SupWorker (w_trace w)] |}
      | Finished w =>
          let log := s_log s ++ [SupWorker (w_trace w)]
                     ++ wait_for_child pid (sup_waitpid se) (sup_errno se) in
          let '(c, tbl) :=
            record_crash (sup_calloc se) (length syscall_args) (w_ctx w) (s_table s) in
          Continue {| s_ctx := c; s_table := tbl; s_log := log |}
      end.

(** [stress_sysinval_child]: the [do ... while (keep_stressing())] loop,
    one script entry per iteration that was started. *)
Fixpoint stress_sysinval_child (script : list supervisor_env) (s : supervisor)
  : sup_outcome :=
  match script with
  | [] => Continue s
  | se :: rest =>
      match stress_do_syscall se s with
      | Continue s' => stress_sysinval_child rest s'
      | o => o
      end
  end.

(** The supervisor as [stress_sysinval] starts it: a zeroed page and an
    empty table. *)
Definition initial_supervisor : supervisor :=
  {| s_ctx := zero_context (length syscall_args); s_table := ∅; s_log := [] |}.

End Supervisor.

(** ** Reading a log *)

(** The results of the raw calls [syscall(num, args...)] in a worker's log,
    in the order they were made. *)
Definition invocations_of (num : Z) (args : list Z) (trace : list event)
  : list syscall_result :=
  flat_map
    (fun e =>
       match e with
       | EvSyscall _ n a _ _ r =>
           if (n =? num) && bool_decide (a = args) then [r] else []
       | _ => []
       end) trace.

Definition is_syscall (e : event) : bool :=
  match e with
  | EvSyscall _ _ _ _ _ _ => true
  | _ => false
  end.

(** The leaves that returned on a hash-table match: the syscall number of
    the descriptor, the argument words, and the node that matched. *)
Definition skips_of (trace : list event) : list (Z * list Z * syscall_arg_hash_t) :=
  flat_map
    (fun e =>
       match e with
       | EvSkip sa a h => [(sa_syscall sa, a, h)]
       | _ => []
       end) trace.

(** The logs of the workers a supervisor has run, oldest first. *)
Definition worker_traces (log : list sup_event) : list (list event) :=
  flat_map
    (fun e =>
       match e with
       | SupWorker t => [t]
       | _ => []
       end) log.

(** The event is a raw syscall or a timer arming made while descriptor [i]
    was the published one. *)
Definition touches_descriptor (i : nat) (e : event) : Prop :=
  match e with
  | EvSyscall _ _ _ _ during _ => ctx_idx during = i
  | EvSetitimer idx _ => idx = i
  | _ => False
  end.

(** ** A concrete build: x86-64, three real descriptors, one disabled one *)

(** The words of [pids], [gids] and [uids] that lie inside the arrays are
    those of a little-endian build with 32-bit [pid_t], [gid_t] and [uid_t].
    The words the [unsigned long *] view reads past the end of these arrays
    (two of [pids], one each of [gids] and [uids]) are whatever the linker
    placed there; this instance has 0 in their place, and no run below
    selects a value of these three tables. *)
Definition x86_64 : platform := {|
  addr_empty_string := 0x555555580004;
  addr_dev_zero := 0x555555580005;
  addr_dev_null := 0x55555558000f;
  addr_func_exit := 0x555555561230;
  pids_word := fun i => nth i [0xFFFFFFFF80000000; 0xFFFFFFFF7FFFFFFF] 0;
  gids_word := fun i => nth i [0x7FFFFFFFFFFFFFFF] 0;
  uids_word := fun i => nth i [0x7FFFFFFFFFFFFFFF] 0
|}.

(** [{ SYS(time), 1, { ARG_PTR, 0, 0, 0, 0, 0 } }] *)
Definition sys_time : syscall_arg_t :=
  {| sa_syscall := 201; sa_name := "time"; sa_num_args := 1;
     sa_args := [ARG_PTR; 0; 0; 0; 0; 0] |}.

(** [{ SYS(uname), 1, { ARG_PTR, 0, 0, 0, 0, 0 } }] *)
Definition sys_uname : syscall_arg_t :=
  {| sa_syscall := 63; sa_name := "uname"; sa_num_args := 1;
     sa_args := [ARG_PTR; 0; 0; 0; 0; 0] |}.

(** [{ SYS(umask), 1, { ARG_UINT, 0, 0, 0, 0, 0 } }] *)
Definition sys_umask : syscall_arg_t :=
  {| sa_syscall := 95; sa_name := "umask"; sa_num_args := 1;
     sa_args := [ARG_UINT; 0; 0; 0; 0; 0] |}.

(** [{ SYS(alarm), 1, { ARG_SECONDS, 0, 0, 0, 0, 0 } }], the entry the source
    keeps under [#if defined(__NR_alarm) && 0]: no value table has the
    [ARG_SECONDS] bit. *)
Definition sys_alarm : syscall_arg_t :=
  {| sa_syscall := 37; sa_name := "alarm"; sa_num_args := 1;
     sa_args := [ARG_SECONDS; 0; 0; 0; 0; 0] |}.

(** A descriptor whose only argument is tagged [ARG_NONE]. *)
Definition sys_alarm_none : syscall_arg_t :=
  {| sa_syscall := 37; sa_name := "alarm"; sa_num_args := 1;
     sa_args := [ARG_NONE; 0; 0; 0; 0; 0] |}.

Definition demo_page_size : Z := 4096.
Definition demo_small_ptr : Z := 0x7f3a5e500000.
Definition demo_page_ptr : Z := 0x7f3a5e59c000.

(** The globals after a successful start on that machine. *)
Definition demo_globals : globals :=
  default initial_globals
    (stress_sysinval_setup demo_page_size 3 0x7f3a5e400000 demo_small_ptr
       demo_page_ptr initial_globals).

(** A worker environment in which nothing fails but the calls themselves:
    [calls] decides every raw syscall, [sig] whether a fatal signal lands
    right after a descriptor is published, and the framework asks to stop
    after [stop] queries. *)
Definition demo_env (calls : Z -> list Z -> syscall_result) (sig : bool)
    (stop : nat) : environment := {|
  env_setup_ok := true;
  env_syscall := fun _ => calls;
  env_calloc := fun _ => true;
  env_mwc32 := fun _ => 0;
  env_mwc64 := fun _ => 0;
  env_keep_stressing_flag := fun t => Nat.ltb t stop;
  env_keep_stressing := fun t => Nat.ltb t stop;
  env_setitimer := fun _ => 0;
  env_signal := fun _ => sig
|}.

(** A supervisor iteration in which [fork] and [waitpid] succeed. *)
Definition demo_iteration (child : environment) (fuel : nat) : supervisor_env := {|
  sup_keep_stressing_flag := true;
  sup_drop_capabilities := 0;
  sup_fork := 1000;
  sup_waitpid := 1000;
  sup_errno := 0;
  sup_calloc := true;
  sup_child := child;
  sup_child_fuel := fuel
|}.

(** [uname(page_ptr)] takes the worker down, every other call fails with -1. *)
Definition uname_guard_page_kills (num : Z) (a : list Z) : syscall_result :=
  if (num =? 63) && bool_decide (a = [demo_page_ptr; 0; 0; 0; 0; 0])
  then Killed else Returned (-1).

Definition every_call_kills (num : Z) (a : list Z) : syscall_result := Killed.

Definition every_call_returns_zero (num : Z) (a : list Z) : syscall_result :=
  Returned 0.

Definition every_call_fails (num : Z) (a : list Z) : syscall_result :=
  Returned (-1).

(** Three workers over [time] and [uname]: the first dies in
    [uname(page_ptr)], the second is hit by a signal right after it has
    published its first descriptor, the third runs one whole pass. *)
Definition stale_witness_run : sup_outcome :=
  stress_sysinval_child x86_64 demo_globals [sys_time; sys_uname]
    [ demo_iteration (demo_env uname_guard_page_kills false 1000) 5;
      demo_iteration (demo_env uname_guard_page_kills true 1000) 5;
      demo_iteration (demo_env uname_guard_page_kills false 1000) 1 ]
    (initial_supervisor [sys_time; sys_uname]).

(** Eleven workers over [time] alone, every call fatal, the framework asking
    each worker to stop after 100 queries. *)
Definition eleven_workers_run : sup_outcome :=
  stress_sysinval_child x86_64 demo_globals [sys_time]
    (replicate 11 (demo_iteration (demo_env every_call_kills false 100) 200))
    (initial_supervisor [sys_time]).

(** One worker over [umask] alone, every call returning 0, three passes. *)
Definition three_pass_worker : worker_outcome :=
  worker x86_64 demo_globals (demo_env every_call_returns_zero false 1000)
    [sys_umask] 3 (forked (zero_context 1) ∅).

(** A parent that has recorded the crash of [time(page_ptr)], and the worker
    it forks next, in which no call is fatal any more. *)
Definition one_crash_recorded : gmap Z (list syscall_arg_hash_t) :=
  hash_table_add true
    (stress_syscall_hash 201 [demo_page_ptr; 0; 0; 0; 0; 0]) 201
    [demo_page_ptr; 0; 0; 0; 0; 0] SYSCALL_CRASH ∅.

Definition worker_after_crash : worker_outcome :=
  worker x86_64 demo_globals (demo_env every_call_fails false 1000)
    [sys_time] 3 (forked (zero_context 1) one_crash_recorded).

(** One worker over [time] and [uname], no call fatal, one pass. *)
Definition two_descriptor_worker : worker_outcome :=
  worker x86_64 demo_globals (demo_env every_call_fails false 1000)
    [sys_time; sys_uname] 1 (forked (zero_context 2) ∅).

(** The first worker of [stale_witness_run] on its own: it dies in
    [uname(page_ptr)]. *)
Definition worker_dying_in_uname : worker_outcome :=
  worker x86_64 demo_globals (demo_env uname_guard_page_kills false 1000)
    [sys_time; sys_uname] 5 (forked (zero_context 2) ∅).

(** A leaf of [time] reached with all argument words zero while the bucket
    of [time(0, ...)] holds a node recorded for [uname]. *)
Definition foreign_node : syscall_arg_hash_t :=
  {| h_hash := 1491; h_syscall := 63; h_args := [0; 0; 0; 0; 0; 0];
     h_type := SYSCALL_CRASH |}.

Definition leaf_with_foreign_node : world :=
  publish (forked (zero_context 2) {[ 1491 := [foreign_node] ]}) 0 sys_time.

(** The same leaf with an empty table. *)
Definition leaf_with_empty_table : world :=
  publish (forked (zero_context 2) ∅) 0 sys_time.

(** ** Predicates on runs *)

(** [IA] holds if the computation goes on, [ID] if the process has ended. *)
Definition holds (IA ID : world -> Prop) (o : outcome) : Prop :=
  match o with
  | Alive w => IA w
  | Dead w => ID w
  end.

Definition worker_holds (IA ID : world -> Prop) (o : worker_outcome) : Prop :=
  match o with
  | Finished w => IA w \/ ID w
  | Running w => IA w
  end.

(** A pass starts with an order that is a permutation of [0 .. n - 1]. *)
Definition pass_order_ok (n : nat) (e : event) : Prop :=
  match e with
  | EvPass reorder => reorder ≡ₚ seq 0 n
  | _ => True
  end.

(** The page [during] a raw call describes that call: the descriptor at its
    [idx] is the one the call is made for, its syscall number, argument words
    and bucket hash are those of the call, its counter is the one found at the
    leaf plus one, and its type is [SYSCALL_CRASH]. *)
Definition witness_ok (syscall_args : list syscall_arg_t) (e : event) : Prop :=
  match e with
  | EvSyscall sa num args before during r =>
      syscall_args !! ctx_idx during = Some sa
      /\ ctx_syscall during = num
      /\ num = sa_syscall sa
      /\ ctx_args during = args
      /\ ctx_hash during = stress_syscall_hash num args
      /\ ctx_counter during = int64 (ctx_counter before + 1)
      /\ ctx_type during = SYSCALL_CRASH
  | _ => True
  end.

(** The event is not a raw call that ended the worker. *)
Definition returned (e : event) : Prop :=
  match e with
  | EvSyscall _ _ _ _ _ Killed => False
  | _ => True
  end.

Definition witness_alive (syscall_args : list syscall_arg_t) (w : world) : Prop :=
  Forall (witness_ok syscall_args) (w_trace w) /\ Forall returned (w_trace w).

Definition witness_dead (syscall_args : list syscall_arg_t) (w : world) : Prop :=
  Forall (witness_ok syscall_args) (w_trace w)
  /\ forall sa num args before during,
       last (w_trace w) = Some (EvSyscall sa num args before during Killed) ->
       w_ctx w = during.

Definition witness_engine (syscall_args : list syscall_arg_t) (j : nat)
    (sa : syscall_arg_t) (w : world) : Prop :=
  witness_alive syscall_args w
  /\ syscall_args !! j = Some sa
  /\ ctx_idx (w_ctx w) = j
  /\ ctx_syscall (w_ctx w) = sa_syscall sa.

(** Descriptor [i] is capped, nothing in the log touches it, and the tallies
    are the ones the worker was forked with. *)
Definition capped_alive (i : nat) (cc : list Z) (w : world) : Prop :=
  MAX_CRASHES <= nth i cc 0
  /\ ctx_crash_count (w_ctx w) = cc
  /\ Forall (fun e => ~ touches_descriptor i e) (w_trace w).

Definition capped_published (i : nat) (cc : list Z) (j : nat) (sa : syscall_arg_t)
    (w : world) : Prop :=
  capped_alive i cc w /\ ctx_idx (w_ctx w) = j.

Definition capped_engine (i : nat) (cc : list Z) (j : nat) (sa : syscall_arg_t)
    (w : world) : Prop :=
  capped_alive i cc w /\ ctx_idx (w_ctx w) = j /\ j <> i.

(** Bucket [h] holds a node with the argument words [a]. *)
Definition recorded (h : Z) (a : list Z) (tbl : gmap Z (list syscall_arg_hash_t))
  : Prop :=
  exists e, e ∈ bucket tbl h /\ h_args e = a.

(** The tuple is recorded and has not been called since the log was [t0]. *)
Definition suppressed (s : Z) (a : list Z) (t0 : list event) (w : world) : Prop :=
  recorded (stress_syscall_hash s a) a (w_table w)
  /\ exists new, w_trace w = t0 ++ new /\ invocations_of s a new = [].

(** ** More predicates on hashes, logs and tables *)

(** The bytes mapped and not unmapped again by the calls of a log. *)
Definition bytes_left (log : list resource_event) : Z :=
  fold_left
    (fun n e =>
       match e with
       | ResMmap _ size => n + size
       | ResMunmap _ size => n - size
       | _ => n
       end) log 0.

(** The sockets closed by the calls of a log. *)
Definition closed_fds (log : list resource_event) : list Z :=
  flat_map
    (fun e =>
       match e with
       | ResClose fd => [fd]
       | _ => []
       end) log.

(** The hash before the final reduction, with the rotations collected: the
    syscall number ends up rotated by 12 positions, the argument words by
    10, 8, 6, 4, 2 and 0. *)
Definition hash_xor_form (s : Z) (args : list Z) : Z :=
  Z.lxor (rotate_right 12 s)
    (Z.lxor (rotate_right 10 (arg_word args 0))
       (Z.lxor (rotate_right 8 (arg_word args 1))
          (Z.lxor (rotate_right 6 (arg_word args 2))
             (Z.lxor (rotate_right 4 (arg_word args 3))
                (Z.lxor (rotate_right 2 (arg_word args 4)) (arg_word args 5)))))).

(** The raw call was made while the tally of the published descriptor was
    below the cap. *)
Definition below_cap (e : event) : Prop :=
  match e with
  | EvSyscall _ _ _ _ during _ =>
      nth (ctx_idx during) (ctx_crash_count during) 0 < MAX_CRASHES
  | _ => True
  end.

(** The tallies are the ones the worker was forked with, and so far every
    raw call was made below the cap. *)
Definition tallies_kept (cc : list Z) (w : world) : Prop :=
  ctx_crash_count (w_ctx w) = cc /\ Forall below_cap (w_trace w).

Definition tallies_published (cc : list Z) (j : nat) (sa : syscall_arg_t)
    (w : world) : Prop :=
  tallies_kept cc w /\ ctx_idx (w_ctx w) = j.

Definition tallies_engine (cc : list Z) (j : nat) (sa : syscall_arg_t)
    (w : world) : Prop :=
  tallies_kept cc w /\ ctx_idx (w_ctx w) = j /\ nth j cc 0 < MAX_CRASHES.

(** Every tally is a count between 0 and the cap. *)
Definition tallies_bounded (cc : list Z) : Prop :=
  Forall (fun x => 0 <= x <= MAX_CRASHES) cc.

(** A node is the record of the call it names: it sits in the bucket [i]
    of its hash, and that hash is the hash of its syscall number and
    argument words. *)
Definition genuine_node (i : Z) (e : syscall_arg_hash_t) : Prop :=
  h_hash e = i /\ i = stress_syscall_hash (h_syscall e) (h_args e).

Definition table_genuine (tbl : gmap Z (list syscall_arg_hash_t)) : Prop :=
  forall i e, e ∈ bucket tbl i -> genuine_node i e.

Definition world_genuine (w : world) : Prop := table_genuine (w_table w).

(** The leaf returned on a match with a node of the given type. *)
Definition is_skip_on (type : Z) (e : event) : bool :=
  match e with
  | EvSkip _ _ h => h_type h =? type
  | _ => false
  end.

(** How many events of a log satisfy [f]. *)
Definition count_events (f : event -> bool) (trace : list event) : Z :=
  Z.of_nat (length (filter (fun e => f e = true) trace)).

(** The three running totals of the page are those of the page [c0] the
    worker was forked with plus what its log shows: raw calls, leaves
    skipped on a [SYSCALL_CRASH] node, leaves skipped on a
    [SYSCALL_ERRNO_ZERO] node. *)
Definition counters_account (c0 : syscall_current_context_t) (w : world) : Prop :=
  ctx_counter (w_ctx w)
  = int64 (ctx_counter c0 + count_events is_syscall (w_trace w))
  /\ ctx_skip_crashed (w_ctx w)
     = ulong (ctx_skip_crashed c0
              + count_events (is_skip_on SYSCALL_CRASH) (w_trace w))
  /\ ctx_skip_errno_zero (w_ctx w)
     = ulong (ctx_skip_errno_zero c0
              + count_events (is_skip_on SYSCALL_ERRNO_ZERO) (w_trace w)).

(** Every node of the table has the tag [SYSCALL_CRASH] and sits in the
    bucket of its hash. *)
Definition crashes_only (tbl : gmap Z (list syscall_arg_hash_t)) : Prop :=
  forall i e, e ∈ bucket tbl i -> h_type e = SYSCALL_CRASH /\ h_hash e = i.

(** The argument words of the page are zero from position [k] on. *)
Definition args_zero_from (k : nat) (c : syscall_current_context_t) : Prop :=
  forall i, (k <= i)%nat -> nth i (ctx_args c) 0 = 0.

(** The raw call passes zero in every argument word beyond the arity of its
    descriptor. *)
Definition tail_is_zero (e : event) : Prop :=
  match e with
  | EvSyscall sa _ args _ _ _ =>
      forall i, (Z.to_nat (sa_num_args sa) <= i)%nat -> nth i args 0 = 0
  | _ => True
  end.

Definition tails_zero (w : world) : Prop := Forall tail_is_zero (w_trace w).

Definition tails_zero_from (k : nat) (w : world) : Prop :=
  args_zero_from k (w_ctx w) /\ tails_zero w.



(** What one event does to the timer: a [setitimer] that succeeded arms it
    for the descriptor then published, one that failed leaves no timer the
    worker can count on. *)
Definition timer_step (armed : option nat) (e : event) : option nat :=
  match e with
  | EvSetitimer idx ret => if ret <? 0 then None else Some idx
  | _ => armed
  end.

(** The descriptor the timer is armed for after the events of a log. *)
Definition armed_after (trace : list event) : option nat :=
  fold_left timer_step trace None.

(** Every raw call of the log was made for the descriptor the timer was
    armed for by the last [setitimer] before the call. *)
Definition under_timer (trace : list event) : Prop :=
  forall t1 sa num args before during r t2,
    trace = t1 ++ EvSyscall sa num args before during r :: t2 ->
    armed_after t1 = Some (ctx_idx during).

Definition timer_kept (w : world) : Prop := under_timer (w_trace w).

Definition timer_armed (j : nat) (sa : syscall_arg_t) (w : world) : Prop :=
  under_timer (w_trace w)
  /\ armed_after (w_trace w) = Some j
  /\ ctx_idx (w_ctx w) = j.

(** The words the build fixes are [unsigned long] values. *)
Definition platform_words (P : platform) : Prop :=
  forall i, is_word (pids_word P i) /\ is_word (gids_word P i)
            /\ is_word (uids_word P i).

(** The five value arrays that are patched at startup hold [unsigned long]
    values. *)
Definition globals_words (g : globals) : Prop :=
  Forall is_word (sockfds g) /\ Forall is_word (sockaddrs g)
  /\ Forall is_word (ptrs g) /\ Forall is_word (futex_ptrs g)
  /\ Forall is_word (non_null_ptrs g).

(** The six argument words of the raw call are [unsigned long] values. *)
Definition args_are_words (e : event) : Prop :=
  match e with
  | EvSyscall _ _ args _ _ _ => Forall is_word args
  | _ => True
  end.

Definition calls_with_words (w : world) : Prop :=
  Forall args_are_words (w_trace w).

Definition page_with_words (w : world) : Prop :=
  Forall is_word (ctx_args (w_ctx w)) /\ calls_with_words w.

(** * Properties *)

(** ** Machine words and the hash *)

Lemma ulong_range z : 0 <= ulong z < ULONG_MOD.
Proof. unfold ulong. apply Z.mod_pos_bound. reflexivity. Qed.

Lemma ulong_small z : 0 <= z < ULONG_MOD -> ulong z = z.
Proof. intros H. unfold ulong. apply Z.mod_small, H. Qed.

Lemma high_bit_range b : 0 <= b <= 1 -> 0 <= Z.shiftl b 63 < ULONG_MOD.
Proof.
  intros Hb. rewrite Z.shiftl_mul_pow2 by lia.
  unfold ULONG_MOD, ULONG_BITS. lia.
Qed.

Lemma land_one_range v : 0 <= Z.land v 1 <= 1.
Proof.
  replace (Z.land v 1) with (v mod 2 ^ 1)
    by (symmetry; apply (Z.land_ones v 1); lia).
  pose proof (Z.mod_pos_bound v (2 ^ 1) eq_refl). lia.
Qed.

(** [ROR] stays inside the machine word. *)
Lemma ROR_range v : 0 <= v < ULONG_MOD -> 0 <= ROR v < ULONG_MOD.
Proof.
  intros Hv. unfold ROR.
  rewrite ulong_small by (apply high_bit_range, land_one_range).
  pose proof (land_one_range v) as Hbit.
  unfold ULONG_MOD, ULONG_BITS in *. change (64 - 1) with 63.
  set (a := Z.shiftr v 1). set (b := Z.shiftl (Z.land v 1) 63).
  assert (Ha : 0 <= a < 2 ^ 63).
  { subst a. rewrite Z.shiftr_div_pow2 by lia. change (2 ^ 1) with 2.
    split; [apply Z.div_pos; lia | apply Z.div_lt_upper_bound; lia]. }
  assert (Hb : 0 <= b <= 2 ^ 63).
  { subst b. rewrite Z.shiftl_mul_pow2 by lia. nia. }
  pose proof (Z.add_lor_land a b) as Hsum.
  assert (0 <= Z.land a b) by (apply Z.land_nonneg; lia).
  assert (0 <= Z.lor a b) by (apply Z.lor_nonneg; lia).
  lia.
Qed.

(** [ROR] is the rotation by one position to the right: bit [i] of the
    result is bit [i + 1] of the operand, and bit 63 is its bit 0. *)
Lemma ROR_testbit v i :
  0 <= v < ULONG_MOD -> 0 <= i < ULONG_BITS ->
  Z.testbit (ROR v) i = Z.testbit v ((i + 1) mod ULONG_BITS).
Proof.
  intros Hv Hi. unfold ROR, ULONG_BITS in *.
  rewrite ulong_small by (apply high_bit_range, land_one_range).
  rewrite Z.lor_spec, Z.shiftr_spec by lia.
  destruct (Z.eq_dec i 63) as [-> | Hne].
  - change ((63 + 1) mod 64) with 0.
    rewrite Z.shiftl_spec by lia. change (63 - (64 - 1)) with 0.
    rewrite Z.land_spec. change (Z.testbit 1 0) with true.
    rewrite andb_true_r.
    replace (Z.testbit v (63 + 1)) with false; [reflexivity |].
    symmetry. destruct (Z.eq_dec v 0) as [-> | ?]; [apply Z.testbit_0_l |].
    apply Z.bits_above_log2; [lia |].
    apply Z.log2_lt_pow2; unfold ULONG_MOD, ULONG_BITS in Hv; lia.
  - rewrite Z.mod_small by lia.
    rewrite Z.shiftl_spec_low by lia.
    apply orb_false_r.
Qed.

Lemma testbit_word_high v i :
  is_word v -> ULONG_BITS <= i -> Z.testbit v i = false.
Proof.
  unfold is_word, ULONG_MOD, ULONG_BITS. intros Hv Hi.
  destruct (Z.eq_dec v 0) as [-> | Hne]; [apply Z.testbit_0_l |].
  apply Z.bits_above_log2; [lia |].
  assert (Z.log2 v < 64) by (apply Z.log2_lt_pow2; lia). lia.
Qed.

Lemma word_of_bits v :
  0 <= v -> (forall i, ULONG_BITS <= i -> Z.testbit v i = false) -> is_word v.
Proof.
  unfold is_word, ULONG_MOD, ULONG_BITS. intros Hv Hbits. split; [exact Hv |].
  destruct (Z.eq_dec v 0) as [-> | Hne]; [reflexivity |].
  destruct (Z.lt_ge_cases v (2 ^ 64)) as [Hlt | Hge]; [exact Hlt |].
  exfalso. assert (Hlog : 64 <= Z.log2 v).
  { change 64 with (Z.log2 (2 ^ 64)). apply Z.log2_le_mono. exact Hge. }
  pose proof (Z.bit_log2 v ltac:(lia)) as Hbit.
  rewrite (Hbits _ Hlog) in Hbit. discriminate Hbit.
Qed.

(** The xor of two machine words is a machine word. *)
Lemma lxor_word x y : is_word x -> is_word y -> is_word (Z.lxor x y).
Proof.
  intros Hx Hy. apply word_of_bits.
  - apply Z.lxor_nonneg. unfold is_word in *. lia.
  - intros i Hi. rewrite Z.lxor_spec, (testbit_word_high x i Hx Hi),
      (testbit_word_high y i Hy Hi). reflexivity.
Qed.

Lemma ROR_word v : is_word v -> is_word (ROR v).
Proof. apply ROR_range. Qed.

(** On a machine word the macro computes the rotation by one position:
    the shifted word and the carried bit occupy disjoint positions, so
    their [|] is their sum. *)
Lemma ROR_is_rotate_right v : is_word v -> ROR v = rotate_right 1 v.
Proof.
  intros Hv. unfold ROR, rotate_right.
  rewrite ulong_small by (apply high_bit_range, land_one_range).
  unfold is_word, ULONG_MOD, ULONG_BITS in *. change (64 - 1) with 63.
  replace (Z.land v 1) with (v mod 2 ^ 1)
    by (symmetry; apply (Z.land_ones v 1); lia).
  rewrite Z.shiftr_div_pow2, Z.shiftl_mul_pow2 by lia.
  set (a := v / 2 ^ 1). set (b := v mod 2 ^ 1 * 2 ^ 63).
  assert (Ha : 0 <= a < 2 ^ 63).
  { subst a. change (2 ^ 1) with 2.
    split; [apply Z.div_pos; lia | apply Z.div_lt_upper_bound; lia]. }
  assert (Hland : Z.land a b = 0).
  { apply Z.bits_inj'. intros i Hi. rewrite Z.land_spec, Z.bits_0.
    subst b. rewrite Z.mul_pow2_bits by lia.
    destruct (Z.lt_ge_cases i 63) as [Hlt | Hge].
    - rewrite (Z.testbit_neg_r _ (i - 63)) by lia. apply andb_false_r.
    - replace (Z.testbit a i) with false; [reflexivity |].
      symmetry. destruct (Z.eq_dec a 0) as [-> | Hne]; [apply Z.testbit_0_l |].
      apply Z.bits_above_log2; [lia |].
      assert (Z.log2 a < 63) by (apply Z.log2_lt_pow2; lia). lia. }
  pose proof (Z.add_lor_land a b) as Hsum. rewrite Hland in Hsum. lia.
Qed.

(** One round of the code ([ROR]; [ROR]; [^=]) is one step of the
    reference fold, and it keeps the running hash a machine word. *)
Lemma hash_fold_step_code h a :
  is_word h -> is_word a -> hash_fold_step h a = Z.lxor (ROR (ROR h)) a.
Proof.
  intros Hh Ha. unfold hash_fold_step.
  rewrite <- (ROR_is_rotate_right h) by exact Hh.
  rewrite <- (ROR_is_rotate_right (ROR h)) by (apply ROR_word, Hh).
  reflexivity.
Qed.

Lemma hash_round_word h a :
  is_word h -> is_word a -> is_word (Z.lxor (ROR (ROR h)) a).
Proof.
  intros Hh Ha. apply lxor_word; [apply ROR_word, ROR_word, Hh | exact Ha].
Qed.

(** C6. For every syscall number and every six argument words (each an
    [unsigned long]) the hash the code computes equals the reference fold:
    start from the syscall number; for each of the six argument words, in
    order, rotate the machine word right by one position twice and then xor
    with the argument word; finally reduce modulo 10007.  The rotation of
    the reference fold is [rotate_right], stated without the [ROR] macro.
    Consequently the result is a bucket index between 0 and 10006. *)
Theorem stress_syscall_hash_is_reference_fold (s a0 a1 a2 a3 a4 a5 : Z) :
  is_word s -> is_word a0 -> is_word a1 -> is_word a2 ->
  is_word a3 -> is_word a4 -> is_word a5 ->
  stress_syscall_hash s [a0; a1; a2; a3; a4; a5]
  = hash_reference_fold s [a0; a1; a2; a3; a4; a5]
  /\ 0 <= stress_syscall_hash s [a0; a1; a2; a3; a4; a5] <= 10006.
Proof.
  intros Hs H0 H1 H2 H3 H4 H5. split.
  - cbv [hash_reference_fold fold_left].
    rewrite (hash_fold_step_code s a0) by assumption.
    rewrite (hash_fold_step_code _ a1)
      by (first [assumption | repeat apply hash_round_word; assumption]).
    rewrite (hash_fold_step_code _ a2)
      by (first [assumption | repeat apply hash_round_word; assumption]).
    rewrite (hash_fold_step_code _ a3)
      by (first [assumption | repeat apply hash_round_word; assumption]).
    rewrite (hash_fold_step_code _ a4)
      by (first [assumption | repeat apply hash_round_word; assumption]).
    rewrite (hash_fold_step_code _ a5)
      by (first [assumption | repeat apply hash_round_word; assumption]).
    reflexivity.
  - unfold stress_syscall_hash.
    match goal with
    | |- 0 <= ?x mod _ <= _ =>
        pose proof (Z.mod_pos_bound x SYSCALL_HASH_TABLE_SIZE eq_refl) as Hb
    end.
    unfold SYSCALL_HASH_TABLE_SIZE in *. lia.
Qed.

(** The hash of [uname(page_ptr)] with five odd or high words behind it:
    every rotation carries a set low bit to the top of the word. *)
Lemma stress_syscall_hash_is_reference_fold_witness :
  stress_syscall_hash 63
    [demo_page_ptr; 3; 0x8000000000000001; 0xffffffffffffffff; 5; 7]
  = hash_reference_fold 63
      [demo_page_ptr; 3; 0x8000000000000001; 0xffffffffffffffff; 5; 7]
  /\ 0 <= stress_syscall_hash 63
            [demo_page_ptr; 3; 0x8000000000000001; 0xffffffffffffffff; 5; 7]
       <= 10006.
Proof.
  apply stress_syscall_hash_is_reference_fold;
    unfold is_word, ULONG_MOD, ULONG_BITS, demo_page_ptr; lia.
Defined.

(** ** The value tables *)

Lemma find_arg_values_first arg tbl k e :
  tbl !! k = Some e ->
  Z.land arg (av_mask e) = av_mask e ->
  (forall k' e', (k' < k)%nat -> tbl !! k' = Some e' ->
                 Z.land arg (av_mask e') <> av_mask e') ->
  find_arg_values arg tbl = Some e.
Proof.
  revert k. induction tbl as [| x tbl IH]; intros k Hk Hm Hbefore.
  - discriminate.
  - destruct k as [| k]; simpl in *.
    + injection Hk as ->. unfold ARG_MASK.
      rewrite (proj2 (Z.eqb_eq _ _) Hm). reflexivity.
    + unfold ARG_MASK.
      destruct (Z.eqb_spec (Z.land arg (av_mask x)) (av_mask x)) as [Hx | _].
      * exfalso. apply (Hbefore 0%nat x); [lia | reflexivity | exact Hx].
      * apply (IH k); [exact Hk | exact Hm |].
        intros k' e' Hlt He'. apply (Hbefore (S k') e'); [lia | exact He'].
Qed.

Lemma find_arg_values_none arg tbl :
  (forall e, e ∈ tbl -> Z.land arg (av_mask e) <> av_mask e) ->
  find_arg_values arg tbl = None.
Proof.
  induction tbl as [| x tbl IH]; intros Hall; simpl; [reflexivity |].
  unfold ARG_MASK.
  destruct (Z.eqb_spec (Z.land arg (av_mask x)) (av_mask x)) as [Hx | _].
  - exfalso. apply (Hall x); [apply elem_of_cons; left; reflexivity | exact Hx].
  - apply IH. intros e He. apply Hall. apply elem_of_cons. right. exact He.
Qed.

Lemma candidate_values_all (values : list Z) :
  candidate_values values (length values) = values.
Proof.
  unfold candidate_values, arg_word.
  induction values as [| v values IH]; [reflexivity |].
  simpl. f_equal. rewrite <- seq_shift, map_map. exact IH.
Qed.

(** Every entry of [arg_values] is built with [ARG_VALUE]. *)
Lemma arg_values_num_values P g e :
  e ∈ arg_values P g -> av_num_values e = length (av_values e).
Proof.
  unfold arg_values. intros He.
  repeat (apply elem_of_cons in He as [-> | He]; [reflexivity |]).
  apply elem_of_nil in He. destruct He.
Qed.

(** C7, as the code has it.  For an argument tagged [arg] the candidate
    values are: the single value zero for [ARG_NONE]; for [ARG_RND] exactly
    four values, a fresh 64-bit random, a fresh 32-bit random shifted left by
    20, the start address of the small arena mapping (the variable
    [small_ptr]) and the guard-page pointer; for any other tag the values of
    the first entry of [arg_values], in declaration order, whose mask bits are
    all in [arg].  When no entry matches, the engine logs the diagnostic,
    stores zero in that argument word and returns from this position: it does
    not go on to the next position and no syscall is made. *)
Theorem select_values_by_tag (P : platform) (g : globals) (env : environment)
    (w : world) :
  select_values P g env ARG_NONE w = ([0], 1%nat, w)
  /\ select_values P g env ARG_RND w
     = ([ulong (env_mwc64 env (w_clock w));
         SHR_UL (uint32 (env_mwc32 env (S (w_clock w)))) 20;
         ulong (small_ptr g); ulong (page_ptr g)], 4%nat, tick (tick w))
  /\ (forall arg k e,
        arg <> ARG_NONE -> arg <> ARG_RND ->
        arg_values P g !! k = Some e ->
        Z.land arg (av_mask e) = av_mask e ->
        (forall k' e', (k' < k)%nat -> arg_values P g !! k' = Some e' ->
                       Z.land arg (av_mask e') <> av_mask e') ->
        exists n, select_values P g env arg w = (av_values e, n, w)
                  /\ candidate_values (av_values e) n = av_values e)
  /\ (forall arg rem arg_num sa,
        arg <> ARG_NONE -> arg <> ARG_RND ->
        (forall e, e ∈ arg_values P g -> Z.land arg (av_mask e) <> av_mask e) ->
        arg_word (sa_args sa) arg_num = arg ->
        permute_from P g env (S rem) arg_num sa w
        = Alive (set_arg (emit w (EvBadMask arg_num arg)) arg_num 0)).
Proof.
  split; [reflexivity |]. split; [reflexivity |]. split.
  - intros arg k e Hnone Hrnd Hk Hm Hfirst.
    exists (av_num_values e). unfold select_values.
    rewrite (proj2 (Z.eqb_neq _ _) Hnone), (proj2 (Z.eqb_neq _ _) Hrnd).
    rewrite (find_arg_values_first arg _ k e Hk Hm Hfirst).
    split; [reflexivity |].
    rewrite (arg_values_num_values P g e).
    + apply candidate_values_all.
    + apply list_elem_of_lookup. exists k. exact Hk.
  - intros arg rem arg_num sa Hnone Hrnd Hall Harg.
    cbn [permute_from]. rewrite Harg. unfold select_values.
    rewrite (proj2 (Z.eqb_neq _ _) Hnone), (proj2 (Z.eqb_neq _ _) Hrnd).
    rewrite (find_arg_values_none arg _ Hall). reflexivity.
Qed.

(** The four cases of C7 on the concrete build: [ARG_NONE], [ARG_RND],
    [ARG_PTR | ARG_STRUCT_SOCKADDR] (entry 6, before the generic [ARG_PTR]),
    and [ARG_SECONDS], which no entry matches. *)
Lemma select_values_by_tag_witness :
  select_values x86_64 demo_globals (demo_env every_call_fails false 1000)
    ARG_NONE (forked (zero_context 1) ∅)
  = ([0], 1%nat, forked (zero_context 1) ∅)
  /\ fst (fst (select_values x86_64 demo_globals
                 (demo_env every_call_fails false 1000) ARG_RND
                 (forked (zero_context 1) ∅)))
     = [0; 0; demo_small_ptr; demo_page_ptr]
  /\ (exists n,
        select_values x86_64 demo_globals (demo_env every_call_fails false 1000)
          (Z.lor ARG_PTR ARG_STRUCT_SOCKADDR) (forked (zero_context 1) ∅)
        = (sockaddrs demo_globals, n, forked (zero_context 1) ∅)
        /\ candidate_values (sockaddrs demo_globals) n = sockaddrs demo_globals)
  /\ permute_from x86_64 demo_globals (demo_env every_call_fails false 1000)
       1 0 sys_alarm (forked (zero_context 1) ∅)
     = Alive (set_arg (emit (forked (zero_context 1) ∅)
                         (EvBadMask 0 ARG_SECONDS)) 0 0).
Proof.
  destruct (select_values_by_tag x86_64 demo_globals
              (demo_env every_call_fails false 1000) (forked (zero_context 1) ∅))
    as (Hnone & Hrnd & Hfirst & Hbad).
  split; [exact Hnone |]. split; [rewrite Hrnd; reflexivity |]. split.
  - apply (Hfirst (Z.lor ARG_PTR ARG_STRUCT_SOCKADDR) 6%nat
             (ARG_VALUE (Z.lor ARG_PTR ARG_STRUCT_SOCKADDR) (sockaddrs demo_globals))).
    + discriminate.
    + discriminate.
    + reflexivity.
    + reflexivity.
    + intros k' e' Hlt He'.
      do 6 (destruct k' as [| k']; [injection He' as <-; discriminate |]).
      lia.
  - apply (Hbad ARG_SECONDS 0%nat 0%nat sys_alarm).
    + discriminate.
    + discriminate.
    + intros e He. unfold arg_values in He.
      repeat (apply elem_of_cons in He as [-> | He]; [discriminate |]).
      apply elem_of_nil in He. destruct He.
    + reflexivity.
Defined.

(** C7, the claim as stated fails: for the descriptor [alarm] with its
    [ARG_SECONDS] argument no table matches, and the engine returns with
    nothing but the diagnostic in its log, whereas going on with zero as the
    only value would have made the call [alarm(0, 0, 0, 0, 0, 0)], as the same
    descriptor tagged [ARG_NONE] does. *)
Lemma bad_mask_abandons_permutation :
  find_arg_values ARG_SECONDS (arg_values x86_64 demo_globals) = None
  /\ w_trace (outcome_world
                (syscall_permute x86_64 demo_globals
                   (demo_env every_call_fails false 1000) 0 sys_alarm
                   (forked (zero_context 1) ∅)))
     = [EvBadMask 0 ARG_SECONDS]
  /\ invocations_of 37 [0; 0; 0; 0; 0; 0]
       (w_trace (outcome_world
                   (syscall_permute x86_64 demo_globals
                      (demo_env every_call_fails false 1000) 0 sys_alarm
                      (forked (zero_context 1) ∅))))
     = []
  /\ invocations_of 37 [0; 0; 0; 0; 0; 0]
       (w_trace (outcome_world
                   (syscall_permute x86_64 demo_globals
                      (demo_env every_call_fails false 1000) 0 sys_alarm_none
                      (forked (zero_context 1) ∅))))
     = [Returned (-1)].
Proof. repeat split; vm_compute; reflexivity. Qed.

(** ** Startup *)

(** C9, as the code has it.  After a successful start the two arena
    addresses, the last byte of the readable page and the start of the lone
    guard page, are in slots 0 and 1 of the four data-pointer tables
    ([sockaddrs], [ptrs], [non_null_ptrs], [futex_ptrs]); the function-pointer
    table is left as it was, with [func_exit] as its only value. *)
Theorem setup_patches_data_pointer_tables (P : platform)
    (page_size sock m_ctx m_small m_page : Z) (g' : globals) :
  stress_sysinval_setup page_size sock m_ctx m_small m_page initial_globals = Some g' ->
  small_ptr g' = m_small
  /\ page_ptr g' = m_page
  /\ (forall e, e ∈ arg_values P g' -> data_pointer_mask (av_mask e) = true ->
        av_values e !! 0%nat = Some (ulong (m_small + page_size - 1))
        /\ av_values e !! 1%nat = Some (ulong m_page))
  /\ ARG_VALUE ARG_FUNC_PTR [ulong (addr_func_exit P)] ∈ arg_values P g'.
Proof.
  unfold stress_sysinval_setup. intros Hsetup.
  destruct (m_ctx =? MAP_FAILED); [discriminate |].
  destruct (m_small =? MAP_FAILED); [discriminate |].
  destruct (m_page =? MAP_FAILED); [discriminate |].
  injection Hsetup as <-.
  split; [reflexivity |]. split; [reflexivity |]. split.
  - intros e He Hmask. unfold arg_values in He.
    repeat (apply elem_of_cons in He as [-> | He];
            [first [discriminate Hmask | split; reflexivity] |]).
    apply elem_of_nil in He. destruct He.
  - unfold arg_values, func_ptrs.
    do 19 (apply list_elem_of_further). apply list_elem_of_here.
Qed.

(** C9 on the concrete build. *)
Lemma setup_patches_data_pointer_tables_witness :
  stress_sysinval_setup demo_page_size 3 0x7f3a5e400000 demo_small_ptr
    demo_page_ptr initial_globals = Some demo_globals
  /\ small_ptr demo_globals = demo_small_ptr
  /\ page_ptr demo_globals = demo_page_ptr
  /\ (forall e, e ∈ arg_values x86_64 demo_globals ->
        data_pointer_mask (av_mask e) = true ->
        av_values e !! 0%nat = Some (ulong (demo_small_ptr + demo_page_size - 1))
        /\ av_values e !! 1%nat = Some (ulong demo_page_ptr))
  /\ ARG_VALUE ARG_FUNC_PTR [ulong (addr_func_exit x86_64)]
     ∈ arg_values x86_64 demo_globals.
Proof.
  split; [reflexivity |].
  apply (setup_patches_data_pointer_tables x86_64 demo_page_size 3
           0x7f3a5e400000 demo_small_ptr demo_page_ptr demo_globals).
  reflexivity.
Defined.

(** C9, the claim as stated fails: the function-pointer table is a value
    table of a pointer category, and after a successful start it still holds
    the address of [func_exit] in slot 0 and has no slot 1. *)
Lemma func_ptrs_table_not_patched :
  stress_sysinval_setup demo_page_size 3 0x7f3a5e400000 demo_small_ptr
    demo_page_ptr initial_globals = Some demo_globals
  /\ arg_values x86_64 demo_globals !! 19%nat
     = Some (ARG_VALUE ARG_FUNC_PTR (func_ptrs x86_64))
  /\ pointer_category ARG_FUNC_PTR = true
  /\ func_ptrs x86_64 !! 0%nat = Some 0x555555561230
  /\ ulong (demo_small_ptr + demo_page_size - 1) = 0x7f3a5e500fff
  /\ func_ptrs x86_64 !! 1%nat = None.
Proof. repeat split. Qed.

(** ** The wait step of the supervisor *)

(** C8, as the code has it.  When [waitpid] fails, with [EINTR] or with any
    other error, the supervisor sends [SIGKILL] to the child and waits for it
    again; only the logging of the error depends on the error not being
    [EINTR]. *)
Theorem waitpid_failure_always_kills (pid ret errno : Z) :
  ret < 0 ->
  wait_for_child pid ret errno
  = [SupWaitpid pid]
      ++ (if decide (errno = EINTR) then [] else [SupLogWaitpid errno])
      ++ [SupKill pid SIGKILL; SupWaitpid pid]
  /\ SupKill pid SIGKILL ∈ wait_for_child pid ret errno
  /\ (SupLogWaitpid errno ∈ wait_for_child pid ret errno <-> errno <> EINTR).
Proof.
  intros Hret. unfold wait_for_child.
  rewrite (proj2 (Z.ltb_lt _ _) Hret).
  destruct (Z.eqb_spec errno EINTR) as [He | He];
    destruct (decide (errno = EINTR)) as [Hd | Hd]; try contradiction; simpl.
  - split; [reflexivity |]. split.
    + apply list_elem_of_further, list_elem_of_here.
    + split; [| contradiction].
      intros Hin. exfalso.
      repeat (apply elem_of_cons in Hin as [Hin | Hin]; [discriminate Hin |]).
      apply elem_of_nil in Hin. exact Hin.
  - split; [reflexivity |]. split.
    + do 2 apply list_elem_of_further. apply list_elem_of_here.
    + split; [intros _; exact He |].
      intros _. apply list_elem_of_further, list_elem_of_here.
Qed.

(** C8 for [waitpid] returning -1 with [EINTR]. *)
Lemma waitpid_failure_always_kills_witness :
  -1 < 0
  /\ wait_for_child 1000 (-1) EINTR
     = [SupWaitpid 1000] ++ [] ++ [SupKill 1000 SIGKILL; SupWaitpid 1000]
  /\ SupKill 1000 SIGKILL ∈ wait_for_child 1000 (-1) EINTR
  /\ (SupLogWaitpid EINTR ∈ wait_for_child 1000 (-1) EINTR <-> EINTR <> EINTR).
Proof.
  split; [lia |].
  apply (waitpid_failure_always_kills 1000 (-1) EINTR). lia.
Defined.

(** C8, the claim as stated fails: on [EINTR] the supervisor does not simply
    wait again, it kills the child first. *)
Lemma waitpid_eintr_kills_child :
  wait_for_child 1000 (-1) EINTR
  = [SupWaitpid 1000; SupKill 1000 SIGKILL; SupWaitpid 1000].
Proof. reflexivity. Qed.

(** ** The shuffle *)

Lemma swap_length reorder i j : length (swap reorder i j) = length reorder.
Proof. unfold swap. rewrite !length_insert. reflexivity. Qed.

(** Reading the array after the three assignments of a swap. *)
Lemma swap_lookup (reorder : list nat) (i j k : nat) :
  (i < length reorder)%nat -> (j < length reorder)%nat ->
  swap reorder i j !! k
  = reorder !! (if decide (k = j) then i else if decide (k = i) then j else k).
Proof.
  intros Hi Hj. unfold swap.
  destruct (lookup_lt_is_Some_2 reorder i Hi) as [x Hx].
  destruct (lookup_lt_is_Some_2 reorder j Hj) as [y Hy].
  rewrite (nth_lookup_Some _ _ _ _ Hx), (nth_lookup_Some _ _ _ _ Hy).
  destruct (decide (k = j)) as [-> | Hkj].
  - rewrite list_lookup_insert_eq by (rewrite length_insert; exact Hj).
    symmetry. exact Hx.
  - rewrite list_lookup_insert_ne by congruence.
    destruct (decide (k = i)) as [-> | Hki].
    + rewrite list_lookup_insert_eq by exact Hi. symmetry. exact Hy.
    + rewrite list_lookup_insert_ne by congruence. reflexivity.
Qed.

(** A swap of two in-range elements rearranges the array. *)
Lemma swap_permutation (reorder : list nat) (i j : nat) :
  (i < length reorder)%nat -> (j < length reorder)%nat ->
  swap reorder i j ≡ₚ reorder.
Proof.
  intros Hi Hj. apply Permutation_inj. split; [apply swap_length |].
  exists (fun k => if decide (k = j) then i else if decide (k = i) then j else k).
  split.
  - intros a b. repeat case_decide; congruence.
  - intros k. apply swap_lookup; assumption.
Qed.

Section Shuffle.

Variable env : environment.

Lemma shuffle_step_permutation sz reorder t i :
  length reorder = sz -> (i < sz)%nat ->
  fst (shuffle_step env sz (reorder, t) i) ≡ₚ reorder.
Proof.
  intros Hlen Hi. unfold shuffle_step.
  destruct (Nat.eqb_spec sz 0) as [Hz | Hnz]; [lia |].
  simpl. apply swap_permutation; [lia |].
  assert (0 <= uint32 (env_mwc32 env t) mod Z.of_nat sz < Z.of_nat sz)
    by (apply Z.mod_pos_bound; lia).
  lia.
Qed.

Lemma shuffle_steps_permutation sz (todo : list nat) reorder t :
  length reorder = sz -> Forall (fun i => (i < sz)%nat) todo ->
  fst (fold_left (shuffle_step env sz) todo (reorder, t)) ≡ₚ reorder.
Proof.
  revert reorder t. induction todo as [| i todo IH]; intros reorder t Hlen Hall.
  - reflexivity.
  - apply Forall_cons in Hall as [Hi Hall]. cbn [fold_left].
    pose proof (shuffle_step_permutation sz reorder t i Hlen Hi) as Hstep.
    destruct (shuffle_step env sz (reorder, t) i) as [reorder' t'].
    cbn [fst] in Hstep. etrans; [apply IH | exact Hstep]; [| exact Hall].
    rewrite (Permutation_length Hstep). exact Hlen.
Qed.

Lemma shuffle_round_permutation sz reorder t :
  length reorder = sz ->
  fst (shuffle_round env sz (reorder, t)) ≡ₚ reorder.
Proof.
  intros Hlen. apply shuffle_steps_permutation; [exact Hlen |].
  apply Forall_forall. intros i Hi. apply elem_of_seq in Hi. lia.
Qed.

Lemma shuffle_rounds_permutation sz (rounds : list nat) reorder t :
  length reorder = sz ->
  fst (fold_left (fun st (_ : nat) => shuffle_round env sz st) rounds (reorder, t))
  ≡ₚ reorder.
Proof.
  revert reorder t. induction rounds as [| n rounds IH]; intros reorder t Hlen.
  - reflexivity.
  - cbn [fold_left].
    pose proof (shuffle_round_permutation sz reorder t Hlen) as Hround.
    destruct (shuffle_round env sz (reorder, t)) as [reorder' t'].
    cbn [fst] in Hround. etrans; [apply IH | exact Hround].
    rewrite (Permutation_length Hround). exact Hlen.
Qed.

(** The five stacked rounds keep a permutation of the identity. *)
Lemma shuffle_permutation sz reorder t :
  reorder ≡ₚ seq 0 sz ->
  fst (shuffle env sz (reorder, t)) ≡ₚ seq 0 sz.
Proof.
  intros Hperm. unfold shuffle.
  etrans; [apply shuffle_rounds_permutation | exact Hperm].
  rewrite (Permutation_length Hperm). apply length_seq.
Qed.

End Shuffle.

(** ** Invariants of a worker's run *)

Lemma and_then_holds (IA IB ID : world -> Prop) o k :
  holds IA ID o -> (forall w, IA w -> holds IB ID (k w)) -> holds IB ID (o >>> k).
Proof. destruct o as [w | w]; simpl; auto. Qed.

Lemma holds_weaken (IA IB ID : world -> Prop) o :
  holds IA ID o -> (forall w, IA w -> IB w) -> holds IB ID o.
Proof. destruct o as [w | w]; simpl; auto. Qed.

Lemma for_each_holds (IA ID : world -> Prop) body vals w :
  (forall v w, IA w -> holds IA ID (body v w)) ->
  IA w -> holds IA ID (for_each body vals w).
Proof.
  intros Hbody. revert w. induction vals as [| v vals IH]; intros w Hw.
  - exact Hw.
  - simpl. apply (and_then_holds IA); [apply Hbody, Hw | exact IH].
Qed.

(** The proof scheme of every run invariant below.  [IA] is what holds
    between descriptors, [IPub j sa] what holds once descriptor [j] has been
    published, [IEng j sa] what holds inside the permutation engine once the
    timer is armed, [ID] what holds of a process that has ended. *)
Section RunInvariant.

Variable P : platform.
Variable g : globals.
Variable env : environment.
Variable syscall_args : list syscall_arg_t.
Variables IA ID : world -> Prop.
Variables IPub IEng : nat -> syscall_arg_t -> world -> Prop.

Hypothesis IA_clock : forall w t, IA w -> IA (set_clock w t).
Hypothesis IA_pass :
  forall w r, r ≡ₚ seq 0 (N syscall_args) -> IA w -> IA (emit w (EvPass r)).
Hypothesis IA_free :
  forall w, IA w -> IA (with_table w (hash_table_free (w_table w))).
Hypothesis IA_publish :
  forall w j sa, syscall_args !! j = Some sa -> IA w -> IPub j sa (publish w j sa).
Hypothesis IPub_clock : forall j sa w t, IPub j sa w -> IPub j sa (set_clock w t).
Hypothesis IPub_dead : forall j sa w, IPub j sa w -> ID w.
Hypothesis IPub_skip : forall j sa w, IPub j sa w -> IA w.
Hypothesis IPub_arm :
  forall j sa w ret,
    IPub j sa w -> nth j (ctx_crash_count (w_ctx w)) 0 < MAX_CRASHES ->
    IEng j sa (emit w (EvSetitimer j ret)).
Hypothesis IEng_clock : forall j sa w t, IEng j sa w -> IEng j sa (set_clock w t).
Hypothesis IEng_set_arg : forall j sa w i v, IEng j sa w -> IEng j sa (set_arg w i v).
Hypothesis IEng_bad_mask :
  forall j sa w n a, IEng j sa w -> IEng j sa (emit w (EvBadMask n a)).
Hypothesis IEng_leaf :
  forall j sa w, IEng j sa w -> holds (IEng j sa) ID (syscall_leaf env sa w).
Hypothesis IEng_done : forall j sa w, IEng j sa w -> IA w.

Lemma select_values_holds j sa arg w :
  IEng j sa w -> IEng j sa (select_values P g env arg w).2.
Proof.
  intros Hw. unfold select_values.
  destruct (arg =? ARG_NONE); [exact Hw |].
  destruct (arg =? ARG_RND).
  - cbn [snd]. apply (IEng_clock j sa _ (S (S (w_clock w)))) in Hw. exact Hw.
  - destruct (find_arg_values arg (arg_values P g)); exact Hw.
Qed.

Lemma permute_from_holds j sa rem arg_num w :
  IEng j sa w -> holds (IEng j sa) ID (permute_from P g env rem arg_num sa w).
Proof.
  revert arg_num w. induction rem as [| rem IH]; intros arg_num w Hw.
  - apply IEng_leaf, Hw.
  - cbn [permute_from].
    pose proof (select_values_holds j sa (arg_word (sa_args sa) arg_num) w Hw) as Hsel.
    destruct (select_values P g env (arg_word (sa_args sa) arg_num) w)
      as [[values num_values] w1].
    cbn [snd] in Hsel. destruct num_values as [| n].
    + apply IEng_set_arg, IEng_bad_mask, Hsel.
    + apply for_each_holds; [| exact Hsel].
      intros v w2 Hw2.
      apply (and_then_holds (IEng j sa)); [apply IH, IEng_set_arg, Hw2 |].
      intros w3 Hw3. apply IEng_set_arg, Hw3.
Qed.

Lemma visit_holds j w :
  IA w -> holds IA ID (visit P g env syscall_args j w).
Proof.
  intros Hw. unfold visit.
  destruct (syscall_args !! j) as [sa |] eqn:Hsa; [| exact Hw].
  pose proof (IA_publish w j sa Hsa Hw) as Hpub.
  set (w1 := publish w j sa) in *.
  destruct (env_signal env (w_clock w1)).
  - apply (IPub_dead j sa), (IPub_clock j sa _ (S (w_clock w1))), Hpub.
  - change (w_ctx (tick w1)) with (w_ctx w1).
    destruct (Z.leb_spec MAX_CRASHES (nth j (ctx_crash_count (w_ctx w1)) 0))
      as [Hcap | Hfree].
    + apply (IPub_skip j sa), (IPub_clock j sa _ (S (w_clock w1))), Hpub.
    + pose proof (IPub_arm j sa w1 (env_setitimer env (w_clock (tick w1))) Hpub Hfree)
        as Harm.
      apply (IEng_clock j sa _ (S (S (w_clock w1)))) in Harm.
      destruct (env_setitimer env (w_clock (tick w1)) <? 0).
      * apply (IEng_done j sa). exact Harm.
      * unfold syscall_permute.
        apply (holds_weaken (IEng j sa)); [| apply IEng_done].
        apply permute_from_holds. exact Harm.
Qed.

Lemma pass_loop_holds todo reorder w :
  IA w -> holds IA ID (pass_loop P g env syscall_args todo reorder w).
Proof.
  revert w. induction todo as [| i todo IH]; intros w Hw; cbn [pass_loop].
  - destruct (env_keep_stressing env (w_clock w));
      apply (IA_clock w (S (w_clock w))), Hw.
  - destruct (env_keep_stressing env (w_clock w)).
    + apply (and_then_holds IA); [| exact IH].
      apply visit_holds, (IA_clock w (S (w_clock w))), Hw.
    + apply (IA_clock w (S (w_clock w))), Hw.
Qed.

Lemma worker_loop_holds fuel reorder w :
  reorder ≡ₚ seq 0 (N syscall_args) -> IA w ->
  worker_holds IA ID (worker_loop P g env syscall_args fuel reorder w).
Proof.
  revert reorder w. induction fuel as [| fuel IH]; intros reorder w Hperm Hw.
  - exact Hw.
  - cbn [worker_loop].
    destruct (env_keep_stressing_flag env (w_clock w)).
    + pose proof (shuffle_permutation env (N syscall_args) reorder
                    (w_clock (tick w)) Hperm) as Hperm'.
      destruct (shuffle env (N syscall_args) (reorder, w_clock (tick w)))
        as [reorder' t'].
      cbn [fst] in Hperm'.
      assert (Hstart : IA (emit (set_clock (tick w) t') (EvPass reorder'))).
      { apply IA_pass; [exact Hperm' |].
        apply IA_clock, (IA_clock w (S (w_clock w))), Hw. }
      pose proof (pass_loop_holds (seq 0 (N syscall_args)) reorder' _ Hstart) as Hpass.
      destruct (pass_loop P g env syscall_args (seq 0 (N syscall_args)) reorder' _)
        as [w' | w'].
      * apply IH; [exact Hperm' | apply IA_free, Hpass].
      * right. exact Hpass.
    + left. apply (IA_clock w (S (w_clock w))), Hw.
Qed.

(** Whatever the worker does, from a world satisfying [IA] it ends in, or
    is still in, a world satisfying [IA] or [ID]. *)
Lemma worker_invariant fuel w :
  IA w -> worker_holds IA ID (worker P g env syscall_args fuel w).
Proof.
  intros Hw. unfold worker.
  destruct (env_setup_ok env); [| left; exact Hw].
  apply worker_loop_holds; [reflexivity | exact Hw].
Qed.

End RunInvariant.

(** What a leaf does, case by case. *)
Lemma syscall_leaf_cases env sa w :
  (exists h,
      chain_lookup
        (bucket (w_table w) (stress_syscall_hash (sa_syscall sa) (ctx_args (w_ctx w))))
        (ctx_args (w_ctx w)) = Some h
      /\ syscall_leaf env sa w
         = Alive (emit (with_ctx w (count_skip h (w_ctx w)))
                    (EvSkip sa (ctx_args (w_ctx w)) h)))
  \/ (chain_lookup
        (bucket (w_table w) (stress_syscall_hash (sa_syscall sa) (ctx_args (w_ctx w))))
        (ctx_args (w_ctx w)) = None
      /\ exists during w',
          during
          = set_type
              (set_hash (set_counter (w_ctx w) (int64 (ctx_counter (w_ctx w) + 1)))
                 (stress_syscall_hash (sa_syscall sa) (ctx_args (w_ctx w))))
              SYSCALL_CRASH
          /\ w_trace w'
             = w_trace w
               ++ [EvSyscall sa (sa_syscall sa) (ctx_args (w_ctx w)) (w_ctx w) during
                     (env_syscall env (w_clock w) (sa_syscall sa) (ctx_args (w_ctx w)))]
          /\ ((env_syscall env (w_clock w) (sa_syscall sa) (ctx_args (w_ctx w)) = Killed
               /\ syscall_leaf env sa w = Dead w'
               /\ w_ctx w' = during
               /\ w_table w' = w_table w)
              \/ (exists ret,
                    env_syscall env (w_clock w) (sa_syscall sa) (ctx_args (w_ctx w))
                    = Returned ret
                    /\ syscall_leaf env sa w = Alive w'
                    /\ w_ctx w' = set_type during SYSCALL_FAIL
                    /\ w_table w'
                       = if int32 ret =? 0 then
                           hash_table_add (env_calloc env (S (w_clock w)))
                             (stress_syscall_hash (sa_syscall sa) (ctx_args (w_ctx w)))
                             (sa_syscall sa) (ctx_args (w_ctx w)) SYSCALL_ERRNO_ZERO
                             (w_table w)
                         else w_table w))).
Proof.
  unfold syscall_leaf.
  destruct (chain_lookup _ _) as [h |] eqn:Hlook.
  - left. exists h. split; reflexivity.
  - right. split; [reflexivity |].
    destruct (env_syscall env (w_clock w) (sa_syscall sa) (ctx_args (w_ctx w)))
      as [ret |] eqn:Hr.
    + eexists _, _. split; [reflexivity |].
      cbn [ctx_args set_type set_hash set_counter]. rewrite Hr.
      split; cycle 1.
      * right. exists ret. split; [reflexivity |]. split; [reflexivity |].
        destruct (int32 ret =? 0); split; reflexivity.
      * destruct (int32 ret =? 0); reflexivity.
    + eexists _, _. split; [reflexivity |].
      cbn [ctx_args set_type set_hash set_counter]. rewrite Hr.
      split; cycle 1.
      * left. split; [reflexivity |]. split; [reflexivity |]. split; reflexivity.
      * reflexivity.
Qed.

(** ** C10: the descriptor order *)

(** C10. The order array the worker walks is, at the start of every pass and
    after however many stacked shuffles, a permutation of [0 .. N - 1]: it
    has [N] elements, no duplicates, and every descriptor index occurs in it
    exactly once. *)
Theorem reorder_is_always_a_permutation (P : platform) (g : globals)
    (env : environment) (syscall_args : list syscall_arg_t) (fuel : nat)
    (c : syscall_current_context_t) (tbl : gmap Z (list syscall_arg_hash_t))
    (reorder : list nat) :
  EvPass reorder
  ∈ w_trace (final_world (worker P g env syscall_args fuel (forked c tbl))) ->
  reorder ≡ₚ seq 0 (length syscall_args)
  /\ length reorder = length syscall_args
  /\ NoDup reorder
  /\ (forall i, (i < length syscall_args)%nat -> exists k, reorder !! k = Some i)
  /\ (forall i k k', reorder !! k = Some i -> reorder !! k' = Some i -> k = k').
Proof.
  intros Hin.
  assert (Hall : Forall (pass_order_ok (length syscall_args))
                   (w_trace (final_world
                               (worker P g env syscall_args fuel (forked c tbl))))).
  { pose proof (worker_invariant P g env syscall_args
                  (fun w => Forall (pass_order_ok (length syscall_args)) (w_trace w))
                  (fun w => Forall (pass_order_ok (length syscall_args)) (w_trace w))
                  (fun _ _ w => Forall (pass_order_ok (length syscall_args)) (w_trace w))
                  (fun _ _ w => Forall (pass_order_ok (length syscall_args)) (w_trace w)))
      as Hinv.
    assert (Hemit : forall w e, pass_order_ok (length syscall_args) e ->
                      Forall (pass_order_ok (length syscall_args)) (w_trace w) ->
                      Forall (pass_order_ok (length syscall_args)) (w_trace (emit w e))).
    { intros w e He Hw. cbn [emit w_trace]. apply Forall_app. split; [exact Hw |].
      apply Forall_singleton, He. }
    specialize (Hinv ltac:(auto) ltac:(intros; apply Hemit; assumption) ltac:(auto)
                     ltac:(auto) ltac:(auto) ltac:(auto) ltac:(auto)
                     ltac:(intros; apply Hemit; [exact I | assumption])
                     ltac:(auto) ltac:(auto)
                     ltac:(intros; apply Hemit; [exact I | assumption])).
    specialize (Hinv ltac:(
      intros j sa w Hw;
      destruct (syscall_leaf_cases env sa w)
        as [(h & _ & ->) | (_ & during & w' & _ & Htr & [(_ & -> & _) | (ret & _ & -> & _)])];
      cbn [holds]; [apply Hemit; [exact I | exact Hw] | |];
      rewrite Htr; (apply Forall_app; split; [exact Hw | apply Forall_singleton; exact I]))
      ltac:(auto)).
    specialize (Hinv fuel (forked c tbl) (Forall_nil_2 _)).
    destruct (worker P g env syscall_args fuel (forked c tbl)) as [w | w];
      cbn [worker_holds final_world] in *; [destruct Hinv |]; assumption. }
  rewrite Forall_forall in Hall. specialize (Hall _ Hin). cbn in Hall.
  assert (Hnodup : NoDup reorder).
  { rewrite Hall. apply NoDup_seq. }
  split; [exact Hall |]. split; [| split; [exact Hnodup | split]].
  - rewrite (Permutation_length Hall). apply length_seq.
  - intros i Hi. apply list_elem_of_lookup. rewrite Hall. apply elem_of_seq. lia.
  - intros i k k' Hk Hk'. eapply NoDup_lookup; eassumption.
Qed.

(** C10 on a run: the first pass of a worker over [time] and [uname], with a
    generator that always answers 0, walks the order [1; 0]. *)
Lemma reorder_is_always_a_permutation_witness :
  EvPass [1; 0]%nat ∈ w_trace (final_world two_descriptor_worker)
  /\ [1; 0]%nat ≡ₚ seq 0 2
  /\ length [1; 0]%nat = 2%nat
  /\ NoDup [1; 0]%nat
  /\ (forall i, (i < 2)%nat -> exists k, [1; 0]%nat !! k = Some i)
  /\ (forall i k k', [1; 0]%nat !! k = Some i -> [1; 0]%nat !! k' = Some i -> k = k').
Proof.
  unfold two_descriptor_worker.
  assert (Hin : EvPass [1; 0]%nat
                ∈ w_trace (final_world
                             (worker x86_64 demo_globals
                                (demo_env every_call_fails false 1000)
                                [sys_time; sys_uname] 1 (forked (zero_context 2) ∅)))).
  { apply list_elem_of_lookup. exists 0%nat. vm_compute. reflexivity. }
  split; [exact Hin |].
  exact (reorder_is_always_a_permutation x86_64 demo_globals
           (demo_env every_call_fails false 1000) [sys_time; sys_uname] 1
           (zero_context 2) ∅ [1; 0]%nat Hin).
Defined.

(** ** C3: the witness while a call is in flight *)

Lemma count_skip_fields h c :
  ctx_idx (count_skip h c) = ctx_idx c
  /\ ctx_syscall (count_skip h c) = ctx_syscall c
  /\ ctx_crash_count (count_skip h c) = ctx_crash_count c
  /\ ctx_args (count_skip h c) = ctx_args c.
Proof.
  unfold count_skip.
  destruct (h_type h =? SYSCALL_CRASH); [repeat split |].
  destruct (h_type h =? SYSCALL_ERRNO_ZERO); repeat split.
Qed.

Lemma witness_alive_emit syscall_args w e :
  witness_ok syscall_args e -> returned e ->
  witness_alive syscall_args w -> witness_alive syscall_args (emit w e).
Proof.
  intros Hok Hret [Hw Hr]. split; cbn [emit w_trace]; apply Forall_app;
    (split; [assumption | apply Forall_singleton; assumption]).
Qed.

Lemma witness_alive_dead syscall_args w :
  witness_alive syscall_args w -> witness_dead syscall_args w.
Proof.
  intros [Hw Hr]. split; [exact Hw |].
  intros sa num args before during Hlast. exfalso.
  apply last_Some in Hlast as [l' Hl']. rewrite Hl' in Hr.
  rewrite Forall_app, Forall_singleton in Hr. destruct Hr as [_ Hr]. exact Hr.
Qed.

Lemma witness_engine_leaf syscall_args env j sa w :
  witness_engine syscall_args j sa w ->
  holds (witness_engine syscall_args j sa) (witness_dead syscall_args)
    (syscall_leaf env sa w).
Proof.
  intros (Halive & Hsa & Hidx & Hnum).
  destruct (syscall_leaf_cases env sa w)
    as [(h & _ & ->)
       | (_ & during & w' & Hduring & Htr & [(Hr & -> & Hctx & _) | (ret & Hr & -> & Hctx & _)])];
    cbn [holds].
  - destruct (count_skip_fields h (w_ctx w)) as (Hi & Hs & _ & _).
    split; [apply witness_alive_emit; [exact I | exact I | exact Halive] |].
    cbn [emit with_ctx w_ctx]. rewrite Hi, Hs. auto.
  - assert (Hok : witness_ok syscall_args
                    (EvSyscall sa (sa_syscall sa) (ctx_args (w_ctx w)) (w_ctx w) during
                       (env_syscall env (w_clock w) (sa_syscall sa) (ctx_args (w_ctx w))))).
    { subst during. cbn. rewrite Hidx. auto 10. }
    destruct Halive as [Hw _]. split.
    + rewrite Htr. apply Forall_app. split; [exact Hw | apply Forall_singleton, Hok].
    + intros sa' num args before during' Hlast.
      rewrite Htr, last_snoc in Hlast. injection Hlast as _ _ _ _ <- _. exact Hctx.
  - assert (Hok : witness_ok syscall_args
                    (EvSyscall sa (sa_syscall sa) (ctx_args (w_ctx w)) (w_ctx w) during
                       (env_syscall env (w_clock w) (sa_syscall sa) (ctx_args (w_ctx w))))).
    { subst during. cbn. rewrite Hidx. auto 10. }
    destruct Halive as [Hw Hret]. split; [split |].
    + rewrite Htr. apply Forall_app. split; [exact Hw | apply Forall_singleton, Hok].
    + rewrite Htr. apply Forall_app. split; [exact Hret |].
      apply Forall_singleton. rewrite Hr. exact I.
    + rewrite Hctx. subst during. cbn. auto.
Qed.

Lemma worker_witness_invariant P g env syscall_args fuel w :
  witness_alive syscall_args w ->
  worker_holds (witness_alive syscall_args) (witness_dead syscall_args)
    (worker P g env syscall_args fuel w).
Proof.
  apply (worker_invariant P g env syscall_args
           (witness_alive syscall_args) (witness_dead syscall_args)
           (witness_engine syscall_args) (witness_engine syscall_args)).
  - intros w0 t Hw0. exact Hw0.
  - intros w0 r _ Hw0. apply witness_alive_emit; [exact I | exact I | exact Hw0].
  - intros w0 Hw0. exact Hw0.
  - intros w0 j sa Hsa Hw0. split; [exact Hw0 | auto].
  - intros j sa w0 t Hw0. exact Hw0.
  - intros j sa w0 [Hw0 _]. apply witness_alive_dead, Hw0.
  - intros j sa w0 [Hw0 _]. exact Hw0.
  - intros j sa w0 ret (Hw0 & Hrest) _.
    split; [apply witness_alive_emit; [exact I | exact I | exact Hw0] | exact Hrest].
  - intros j sa w0 t Hw0. exact Hw0.
  - intros j sa w0 i v Hw0. exact Hw0.
  - intros j sa w0 n a (Hw0 & Hrest).
    split; [apply witness_alive_emit; [exact I | exact I | exact Hw0] | exact Hrest].
  - intros j sa w0. apply witness_engine_leaf.
  - intros j sa w0 [Hw0 _]. exact Hw0.
Qed.

(** C3. In every run of a worker, the witness page that is in place while a
    raw syscall is in flight already holds the call's bucket hash, the
    incremented counter, the six argument words and type [SYSCALL_CRASH]
    (and the descriptor at its [idx] is the one being called); if the call
    ends the worker, that page is what the worker leaves behind; and the type
    becomes [SYSCALL_FAIL] only in the world after a call that returned. *)
Theorem witness_written_before_syscall (P : platform) (g : globals)
    (env : environment) (syscall_args : list syscall_arg_t) (fuel : nat)
    (c : syscall_current_context_t) (tbl : gmap Z (list syscall_arg_hash_t)) :
  Forall (witness_ok syscall_args)
    (w_trace (final_world (worker P g env syscall_args fuel (forked c tbl))))
  /\ (forall sa num args before during,
        last (w_trace (final_world (worker P g env syscall_args fuel (forked c tbl))))
        = Some (EvSyscall sa num args before during Killed) ->
        w_ctx (final_world (worker P g env syscall_args fuel (forked c tbl))) = during)
  /\ (forall sa w w',
        syscall_leaf env sa w = Alive w' ->
        (exists h, w_trace w' = w_trace w ++ [EvSkip sa (ctx_args (w_ctx w)) h])
        \/ (ctx_type (w_ctx w') = SYSCALL_FAIL
            /\ exists during ret,
                 w_trace w'
                 = w_trace w
                   ++ [EvSyscall sa (sa_syscall sa) (ctx_args (w_ctx w)) (w_ctx w)
                         during (Returned ret)])).
Proof.
  pose proof (worker_witness_invariant P g env syscall_args fuel (forked c tbl)) as Hinv.
  assert (Hdead : witness_dead syscall_args
                    (final_world (worker P g env syscall_args fuel (forked c tbl)))).
  { specialize (Hinv (conj (Forall_nil_2 _) (Forall_nil_2 _))).
    destruct (worker P g env syscall_args fuel (forked c tbl)) as [w | w];
      cbn [worker_holds final_world] in *.
    - destruct Hinv as [Hinv | Hinv]; [apply witness_alive_dead |]; exact Hinv.
    - apply witness_alive_dead, Hinv. }
  destruct Hdead as [Hall Hlast].
  split; [exact Hall |]. split; [exact Hlast |].
  intros sa w w' Hleaf.
  destruct (syscall_leaf_cases env sa w)
    as [(h & _ & Heq)
       | (_ & during & w'' & _ & Htr & [(_ & Heq & _) | (ret & Hr & Heq & Hctx & _)])];
    rewrite Heq in Hleaf.
  - injection Hleaf as <-. left. exists h. reflexivity.
  - discriminate Hleaf.
  - injection Hleaf as <-. right. rewrite Hctx. split; [reflexivity |].
    exists during, ret. rewrite Htr, Hr. reflexivity.
Qed.

(** C3 on a run: the worker that dies in [uname(page_ptr)] leaves the page of
    that call behind, second call of the run, bucket 1491, type
    [SYSCALL_CRASH]. *)
Lemma witness_written_before_syscall_witness :
  exists sa num args before during,
    last (w_trace (final_world worker_dying_in_uname))
    = Some (EvSyscall sa num args before during Killed)
    /\ w_ctx (final_world worker_dying_in_uname) = during
    /\ num = 63
    /\ args = [demo_page_ptr; 0; 0; 0; 0; 0]
    /\ ctx_type during = SYSCALL_CRASH
    /\ ctx_hash during = 1491
    /\ ctx_counter during = 2
    /\ Forall (witness_ok [sys_time; sys_uname])
         (w_trace (final_world worker_dying_in_uname)).
Proof.
  unfold worker_dying_in_uname.
  destruct (witness_written_before_syscall x86_64 demo_globals
              (demo_env uname_guard_page_kills false 1000) [sys_time; sys_uname] 5
              (zero_context 2) ∅) as (Hall & Hlast & _).
  match type of Hall with
  | Forall _ ?t =>
      let v := eval vm_compute in (last t) in
      assert (E : last t = v) by (vm_compute; reflexivity)
  end.
  lazymatch type of E with
  | _ = Some (EvSyscall ?sa ?num ?args ?before ?during Killed) =>
      exists sa, num, args, before, during
  end.
  split; [exact E |].
  split; [apply Hlast in E; exact E |].
  repeat (split; [reflexivity |]). exact Hall.
Defined.

(** ** C5: the crash cap *)

Lemma capped_alive_emit i cc w e :
  ~ touches_descriptor i e -> capped_alive i cc w -> capped_alive i cc (emit w e).
Proof.
  intros He (Hcap & Hcc & Hw). split; [exact Hcap |]. split; [exact Hcc |].
  cbn [emit w_trace]. apply Forall_app. split; [exact Hw | apply Forall_singleton, He].
Qed.

Lemma capped_engine_leaf i cc env j sa w :
  capped_engine i cc j sa w ->
  holds (capped_engine i cc j sa) (capped_alive i cc) (syscall_leaf env sa w).
Proof.
  intros ((Hcap & Hcc & Hw) & Hidx & Hne).
  destruct (syscall_leaf_cases env sa w)
    as [(h & _ & ->)
       | (_ & during & w' & Hduring & Htr & [(_ & -> & Hctx & _) | (ret & _ & -> & Hctx & _)])];
    cbn [holds].
  - destruct (count_skip_fields h (w_ctx w)) as (Hi & _ & Hc & _).
    split; [| cbn [emit with_ctx w_ctx]; rewrite Hi; auto].
    apply capped_alive_emit; [intros [] |].
    split; [exact Hcap |]. split; [cbn [with_ctx w_ctx]; rewrite Hc; exact Hcc | exact Hw].
  - split; [exact Hcap |]. split; [rewrite Hctx; subst during; exact Hcc |].
    rewrite Htr. apply Forall_app. split; [exact Hw |].
    apply Forall_singleton. subst during. cbn. congruence.
  - split; [split; [exact Hcap |]; split |].
    + rewrite Hctx. subst during. exact Hcc.
    + rewrite Htr. apply Forall_app. split; [exact Hw |].
      apply Forall_singleton. subst during. cbn. congruence.
    + rewrite Hctx. subst during. cbn. auto.
Qed.

(** A worker forked while descriptor [i] is capped never arms the timer for
    it nor makes a call for it, and leaves the tallies alone. *)
Lemma worker_skips_capped P g env syscall_args fuel c tbl i :
  MAX_CRASHES <= nth i (ctx_crash_count c) 0 ->
  Forall (fun e => ~ touches_descriptor i e)
    (w_trace (final_world (worker P g env syscall_args fuel (forked c tbl))))
  /\ ctx_crash_count (w_ctx (final_world (worker P g env syscall_args fuel (forked c tbl))))
     = ctx_crash_count c.
Proof.
  intros Hcap.
  pose proof (worker_invariant P g env syscall_args
                (capped_alive i (ctx_crash_count c)) (capped_alive i (ctx_crash_count c))
                (capped_published i (ctx_crash_count c))
                (capped_engine i (ctx_crash_count c))) as Hinv.
  assert (Hfinal : capped_alive i (ctx_crash_count c)
                     (final_world (worker P g env syscall_args fuel (forked c tbl)))).
  { assert (Hw : worker_holds (capped_alive i (ctx_crash_count c))
                   (capped_alive i (ctx_crash_count c))
                   (worker P g env syscall_args fuel (forked c tbl))).
    { apply Hinv.
      - intros w0 t Hw0. exact Hw0.
      - intros w0 r _ Hw0. apply capped_alive_emit; [intros [] | exact Hw0].
      - intros w0 Hw0. exact Hw0.
      - intros w0 j sa _ Hw0. split; [exact Hw0 | reflexivity].
      - intros j sa w0 t Hw0. exact Hw0.
      - intros j sa w0 [Hw0 _]. exact Hw0.
      - intros j sa w0 [Hw0 _]. exact Hw0.
      - intros j sa w0 ret [Hw0 Hidx] Hfree.
        assert (Hne : j <> i).
        { intros ->. destruct Hw0 as (Hc & Hcc & _). rewrite Hcc in Hfree. lia. }
        split; [| split; [exact Hidx | exact Hne]].
        apply capped_alive_emit; [exact Hne | exact Hw0].
      - intros j sa w0 t Hw0. exact Hw0.
      - intros j sa w0 k v Hw0. exact Hw0.
      - intros j sa w0 n a (Hw0 & Hrest).
        split; [apply capped_alive_emit; [intros [] | exact Hw0] | exact Hrest].
      - intros j sa w0. apply capped_engine_leaf.
      - intros j sa w0 [Hw0 _]. exact Hw0.
      - split; [exact Hcap |]. split; [reflexivity | apply Forall_nil_2]. }
    destruct (worker P g env syscall_args fuel (forked c tbl)) as [w | w];
      cbn [worker_holds final_world] in *; [destruct Hw |]; assumption. }
  destruct Hfinal as (_ & Hcc & Hw). split; assumption.
Qed.

(** The supervisor's bump changes one tally, by one. *)
Lemma record_crash_tally alloc_ok n c tbl i :
  nth i (ctx_crash_count (record_crash alloc_ok n c tbl).1) 0
  = nth i (ctx_crash_count c) 0
  \/ nth i (ctx_crash_count (record_crash alloc_ok n c tbl).1) 0
     = ulong (nth i (ctx_crash_count c) 0 + 1).
Proof.
  unfold record_crash.
  destruct (ctx_type c =? SYSCALL_CRASH); [| left; reflexivity].
  destruct (ctx_idx c <? n)%nat; [| left; reflexivity].
  cbn [fst set_crash_count ctx_crash_count]. unfold store.
  destruct (decide (i = ctx_idx c)) as [-> | Hne].
  - destruct (decide (ctx_idx c < length (ctx_crash_count c))%nat) as [Hlt | Hge].
    + right. rewrite nth_lookup, list_lookup_insert_eq by exact Hlt. reflexivity.
    + left. rewrite list_insert_ge by lia. reflexivity.
  - left. rewrite !nth_lookup, list_lookup_insert_ne by congruence. reflexivity.
Qed.

Lemma worker_traces_app l1 l2 :
  worker_traces (l1 ++ l2) = worker_traces l1 ++ worker_traces l2.
Proof. unfold worker_traces. apply flat_map_app. Qed.

Lemma worker_traces_wait pid ret errno :
  worker_traces (wait_for_child pid ret errno) = [].
Proof.
  unfold wait_for_child.
  destruct (ret <? 0); [| reflexivity].
  destruct (negb (errno =? EINTR)); reflexivity.
Qed.

(** One iteration of the supervisor while descriptor [i] is capped. *)
Lemma stress_do_syscall_capped P g syscall_args se s i :
  MAX_CRASHES <= nth i (ctx_crash_count (s_ctx s)) 0 ->
  nth i (ctx_crash_count (s_ctx s)) 0 + 1 < ULONG_MOD ->
  exists new,
    s_log (sup_state (stress_do_syscall P g syscall_args se s)) = s_log s ++ new
    /\ Forall (Forall (fun e => ~ touches_descriptor i e)) (worker_traces new)
    /\ MAX_CRASHES
       <= nth i (ctx_crash_count (s_ctx (sup_state (stress_do_syscall P g syscall_args se s)))) 0
       <= nth i (ctx_crash_count (s_ctx s)) 0 + 1.
Proof.
  intros Hcap Hbound. unfold stress_do_syscall.
  assert (Hsame : exists new, s_log s = s_log s ++ new
            /\ Forall (Forall (fun e => ~ touches_descriptor i e)) (worker_traces new)
            /\ MAX_CRASHES <= nth i (ctx_crash_count (s_ctx s)) 0
               <= nth i (ctx_crash_count (s_ctx s)) 0 + 1).
  { exists []. rewrite app_nil_r. split; [reflexivity |]. split; [constructor | lia]. }
  destruct (negb (sup_keep_stressing_flag se)); [exact Hsame |].
  destruct (sup_drop_capabilities se <? 0); [exact Hsame |].
  destruct (sup_fork se <? 0); [exact Hsame |].
  destruct (worker_skips_capped P g (sup_child se) syscall_args (sup_child_fuel se)
              (s_ctx s) (s_table s) i Hcap) as [Htrace Hcc].
  destruct (worker P g (sup_child se) syscall_args (sup_child_fuel se)
              (forked (s_ctx s) (s_table s))) as [w | w];
    cbn [final_world] in Htrace, Hcc.
  - pose proof (record_crash_tally (sup_calloc se) (length syscall_args) (w_ctx w)
                  (s_table s) i) as Htally.
    destruct (record_crash (sup_calloc se) (length syscall_args) (w_ctx w) (s_table s))
      as [c' tbl'].
    cbn [fst] in Htally. cbn [sup_state s_log s_ctx].
    eexists. split; [reflexivity |]. split.
    + rewrite worker_traces_app, worker_traces_wait, app_nil_r.
      cbn. constructor; [exact Htrace | constructor].
    + rewrite Hcc in Htally. destruct Htally as [-> | ->]; [lia |].
      rewrite ulong_small; unfold MAX_CRASHES in *; lia.
  - cbn [sup_state s_log s_ctx]. eexists. split; [reflexivity |]. split.
    + cbn. constructor; [exact Htrace | constructor].
    + rewrite Hcc. lia.
Qed.

(** C5. Once the tally of descriptor [i] has reached [MAX_CRASHES], no worker
    forked for the rest of the run arms the timer for descriptor [i] or makes
    a raw syscall for it, and the tally stays at or above the cap.  (The run
    is shorter than the 2^64 bumps it would take for the 64-bit tally to
    wrap.) *)
Theorem capped_descriptor_never_invoked (P : platform) (g : globals)
    (syscall_args : list syscall_arg_t) (script : list supervisor_env)
    (s : supervisor) (i : nat) :
  MAX_CRASHES <= nth i (ctx_crash_count (s_ctx s)) 0 ->
  nth i (ctx_crash_count (s_ctx s)) 0 + Z.of_nat (length script) < ULONG_MOD ->
  exists new,
    s_log (sup_state (stress_sysinval_child P g syscall_args script s)) = s_log s ++ new
    /\ Forall (Forall (fun e => ~ touches_descriptor i e)) (worker_traces new)
    /\ MAX_CRASHES
       <= nth i (ctx_crash_count
                   (s_ctx (sup_state (stress_sysinval_child P g syscall_args script s)))) 0.
Proof.
  revert s. induction script as [| se script IH]; intros s Hcap Hbound.
  - exists []. cbn. rewrite app_nil_r. split; [reflexivity |]. split; [constructor | exact Hcap].
  - cbn [length] in Hbound. cbn [stress_sysinval_child].
    destruct (stress_do_syscall_capped P g syscall_args se s i Hcap ltac:(lia))
      as (new & Hlog & Htr & Hcap' & Hle).
    destruct (stress_do_syscall P g syscall_args se s) as [s' | s' | s'];
      cbn [sup_state] in *.
    + destruct (IH s' Hcap' ltac:(lia)) as (new' & Hlog' & Htr' & Hcap'').
      exists (new ++ new'). rewrite Hlog', Hlog, app_assoc. split; [reflexivity |].
      split; [| exact Hcap''].
      rewrite worker_traces_app. apply Forall_app. split; assumption.
    + exists new. split; [exact Hlog |]. split; assumption.
    + exists new. split; [exact Hlog |]. split; assumption.
Qed.

(** C5 on a run: after [eleven_workers_run] the tally of [time] is 11, and a
    twelfth worker makes no call for it. *)
Lemma capped_descriptor_never_invoked_witness :
  MAX_CRASHES <= nth 0 (ctx_crash_count (s_ctx (sup_state eleven_workers_run))) 0
  /\ exists new,
       s_log (sup_state
                (stress_sysinval_child x86_64 demo_globals [sys_time]
                   [demo_iteration (demo_env every_call_fails false 100) 200]
                   (sup_state eleven_workers_run)))
       = s_log (sup_state eleven_workers_run) ++ new
       /\ Forall (Forall (fun e => ~ touches_descriptor 0 e)) (worker_traces new)
       /\ MAX_CRASHES
          <= nth 0 (ctx_crash_count
                      (s_ctx (sup_state
                                (stress_sysinval_child x86_64 demo_globals [sys_time]
                                   [demo_iteration (demo_env every_call_fails false 100) 200]
                                   (sup_state eleven_workers_run))))) 0.
Proof.
  assert (E : nth 0 (ctx_crash_count (s_ctx (sup_state eleven_workers_run))) 0 = 11)
    by (vm_compute; reflexivity).
  split; [rewrite E; unfold MAX_CRASHES; lia |].
  apply (capped_descriptor_never_invoked x86_64 demo_globals [sys_time]
           [demo_iteration (demo_env every_call_fails false 100) 200]
           (sup_state eleven_workers_run) 0).
  - rewrite E. unfold MAX_CRASHES. lia.
  - rewrite E. vm_compute. reflexivity.
Defined.

(** ** C2: what the table suppresses, and for how long *)

Lemma chain_lookup_Some chain a h :
  chain_lookup chain a = Some h -> h ∈ chain /\ h_args h = a.
Proof.
  induction chain as [| e chain IH]; cbn [chain_lookup]; [discriminate |].
  case_bool_decide as He.
  - intros [= <-]. split; [apply list_elem_of_here | exact He].
  - intros Hl. destruct (IH Hl) as [Hin Ha].
    split; [apply list_elem_of_further, Hin | exact Ha].
Qed.

Lemma chain_lookup_None chain a :
  chain_lookup chain a = None -> forall e, e ∈ chain -> h_args e <> a.
Proof.
  induction chain as [| e chain IH]; cbn [chain_lookup]; intros Hl e' Hin.
  - apply elem_of_nil in Hin. destruct Hin.
  - case_bool_decide as He; [discriminate |].
    apply elem_of_cons in Hin as [-> | Hin]; [exact He | apply IH; assumption].
Qed.

Lemma chain_lookup_is_Some chain a e :
  e ∈ chain -> h_args e = a -> exists h, chain_lookup chain a = Some h.
Proof.
  intros Hin Ha. destruct (chain_lookup chain a) as [h |] eqn:Hl; [eauto |].
  exfalso. exact (chain_lookup_None chain a Hl e Hin Ha).
Qed.

Lemma bucket_add alloc_ok h' s a t tbl h :
  bucket (hash_table_add alloc_ok h' s a t tbl) h
  = if alloc_ok && bool_decide (h' = h)
    then {| h_hash := h'; h_syscall := s; h_args := a; h_type := t mod 256 |}
         :: bucket tbl h
    else bucket tbl h.
Proof.
  unfold hash_table_add. destruct alloc_ok; [| reflexivity].
  cbn [andb]. unfold bucket at 1. case_bool_decide as Hh.
  - subst h'. rewrite lookup_insert_eq. reflexivity.
  - rewrite lookup_insert_ne by exact Hh. reflexivity.
Qed.

Lemma recorded_add alloc_ok h' s' a' t tbl h a :
  recorded h a tbl -> recorded h a (hash_table_add alloc_ok h' s' a' t tbl).
Proof.
  intros (e & Hin & Ha). exists e. split; [| exact Ha].
  rewrite bucket_add. destruct (alloc_ok && bool_decide (h' = h));
    [apply list_elem_of_further |]; exact Hin.
Qed.

Lemma invocations_of_app s a t1 t2 :
  invocations_of s a (t1 ++ t2) = invocations_of s a t1 ++ invocations_of s a t2.
Proof. unfold invocations_of. apply flat_map_app. Qed.

Lemma suppressed_emit s a t0 w e :
  is_syscall e = false -> suppressed s a t0 w -> suppressed s a t0 (emit w e).
Proof.
  intros He (Hrec & new & Htr & Hinv). split; [exact Hrec |].
  exists (new ++ [e]). cbn [emit w_trace]. rewrite Htr, app_assoc.
  split; [reflexivity |]. rewrite invocations_of_app, Hinv.
  destruct e; try discriminate He; reflexivity.
Qed.

Lemma suppressed_leaf s a t0 env sa w :
  suppressed s a t0 w ->
  holds (suppressed s a t0) (suppressed s a t0) (syscall_leaf env sa w).
Proof.
  intros Hw.
  destruct (syscall_leaf_cases env sa w)
    as [(h & _ & ->)
       | (Hnone & during & w' & Hduring & Htr & Hcases)];
    cbn [holds].
  - apply (suppressed_emit s a t0 (with_ctx w (count_skip h (w_ctx w)))); [reflexivity |].
    exact Hw.
  - destruct Hw as (Hrec & new & Hold & Hinv).
    assert (Hnew : invocations_of s a
                     [EvSyscall sa (sa_syscall sa) (ctx_args (w_ctx w)) (w_ctx w) during
                        (env_syscall env (w_clock w) (sa_syscall sa) (ctx_args (w_ctx w)))]
                   = []).
    { cbn. destruct (Z.eqb_spec (sa_syscall sa) s) as [Hs | Hs]; [| reflexivity].
      case_bool_decide as Ha; [| reflexivity].
      exfalso. destruct Hrec as (e & Hin & He).
      rewrite Hs, Ha in Hnone.
      exact (chain_lookup_None _ _ Hnone e Hin He). }
    assert (Htrace : exists new', w_trace w' = t0 ++ new' /\ invocations_of s a new' = []).
    { eexists. rewrite Htr, Hold, <- app_assoc. split; [reflexivity |].
      rewrite invocations_of_app, Hinv, Hnew. reflexivity. }
    destruct Hcases as [(_ & -> & _ & Htbl) | (ret & _ & -> & _ & Htbl)]; cbn [holds];
      (split; [| exact Htrace]); rewrite Htbl; [exact Hrec |].
    destruct (int32 ret =? 0); [apply recorded_add |]; exact Hrec.
Qed.

(** Within one pass a recorded tuple is not called. *)
Lemma pass_keeps_suppressed P g env syscall_args s a t0 todo reorder w :
  suppressed s a t0 w ->
  holds (suppressed s a t0) (suppressed s a t0)
    (pass_loop P g env syscall_args todo reorder w).
Proof.
  apply (pass_loop_holds P g env syscall_args
           (suppressed s a t0) (suppressed s a t0)
           (fun _ _ => suppressed s a t0) (fun _ _ => suppressed s a t0)).
  - intros w0 t Hw0. exact Hw0.
  - intros w0 j sa' _ Hw0. exact Hw0.
  - intros j sa' w0 t Hw0. exact Hw0.
  - intros j sa' w0 Hw0. exact Hw0.
  - intros j sa' w0 Hw0. exact Hw0.
  - intros j sa' w0 ret Hw0 _. apply suppressed_emit; [reflexivity | exact Hw0].
  - intros j sa' w0 t Hw0. exact Hw0.
  - intros j sa' w0 i v Hw0. exact Hw0.
  - intros j sa' w0 n a' Hw0. apply suppressed_emit; [reflexivity | exact Hw0].
  - intros j sa' w0. apply suppressed_leaf.
  - intros j sa' w0 Hw0. exact Hw0.
Qed.

(** X12.  Recording and forgetting in the worker.  (1) The clear between
    passes empties every bucket, whatever the tag of its nodes.  (2) Within
    one pass over the catalogue, a tuple that has a node with its argument
    words in its bucket is not called, and stays recorded.  (3) A call that
    returns 0 is recorded with the tag [SYSCALL_ERRNO_ZERO] when the node can
    be allocated.  (4) The supervisor records the witness of a crashed worker
    with the tag [SYSCALL_CRASH] when the node can be allocated. *)
Theorem no_duplicate_within_a_pass (P : platform) (g : globals) (env : environment)
    (syscall_args : list syscall_arg_t) :
  (forall tbl h, bucket (hash_table_free tbl) h = [])
  /\ (forall s a todo reorder w,
        recorded (stress_syscall_hash s a) a (w_table w) ->
        exists new,
          w_trace (outcome_world (pass_loop P g env syscall_args todo reorder w))
          = w_trace w ++ new
          /\ invocations_of s a new = []
          /\ recorded (stress_syscall_hash s a) a
               (w_table (outcome_world (pass_loop P g env syscall_args todo reorder w))))
  /\ (forall sa w ret,
        chain_lookup
          (bucket (w_table w) (stress_syscall_hash (sa_syscall sa) (ctx_args (w_ctx w))))
          (ctx_args (w_ctx w)) = None ->
        env_syscall env (w_clock w) (sa_syscall sa) (ctx_args (w_ctx w)) = Returned ret ->
        int32 ret = 0 ->
        env_calloc env (S (w_clock w)) = true ->
        exists w',
          syscall_leaf env sa w = Alive w'
          /\ bucket (w_table w') (stress_syscall_hash (sa_syscall sa) (ctx_args (w_ctx w)))
             = {| h_hash := stress_syscall_hash (sa_syscall sa) (ctx_args (w_ctx w));
                  h_syscall := sa_syscall sa;
                  h_args := ctx_args (w_ctx w);
                  h_type := SYSCALL_ERRNO_ZERO |}
               :: bucket (w_table w)
                    (stress_syscall_hash (sa_syscall sa) (ctx_args (w_ctx w))))
  /\ (forall n c tbl,
        ctx_type c = SYSCALL_CRASH ->
        bucket (record_crash true n c tbl).2 (ctx_hash c)
        = {| h_hash := ctx_hash c; h_syscall := ctx_syscall c; h_args := ctx_args c;
             h_type := SYSCALL_CRASH |} :: bucket tbl (ctx_hash c)).
Proof.
  split; [| split; [| split]].
  - intros tbl h. unfold bucket, hash_table_free. rewrite lookup_empty. reflexivity.
  - intros s a todo reorder w Hrec.
    pose proof (pass_keeps_suppressed P g env syscall_args s a (w_trace w) todo reorder w)
      as Hpass.
    assert (Hstart : suppressed s a (w_trace w) w).
    { split; [exact Hrec |]. exists []. rewrite app_nil_r. split; reflexivity. }
    specialize (Hpass Hstart).
    destruct (pass_loop P g env syscall_args todo reorder w) as [w' | w'];
      cbn [holds outcome_world] in *;
      destruct Hpass as (Hrec' & new & Htr & Hinv); exists new; auto.
  - intros sa w ret Hnone Hr Hzero Halloc.
    destruct (syscall_leaf_cases env sa w)
      as [(h & Hsome & _)
         | (_ & during & w' & _ & _ & [(Hk & _) | (ret' & Hr' & Hleaf & _ & Htbl)])].
    + rewrite Hnone in Hsome. discriminate Hsome.
    + rewrite Hr in Hk. discriminate Hk.
    + rewrite Hr in Hr'. injection Hr' as <-.
      exists w'. split; [exact Hleaf |].
      rewrite Htbl, Hzero, Halloc. cbn [Z.eqb]. rewrite bucket_add.
      cbn [andb]. rewrite bool_decide_eq_true_2 by reflexivity. reflexivity.
  - intros n c tbl Htype. unfold record_crash. rewrite Htype, Z.eqb_refl. cbn [snd].
    rewrite bucket_add. cbn [andb]. rewrite bool_decide_eq_true_2 by reflexivity.
    reflexivity.
Qed.

(** On a run: a worker forked with the crash of [time(page_ptr)] on record
    does not make that call in a pass over [time]; the clear empties the
    bucket. *)
Lemma no_duplicate_within_a_pass_witness :
  bucket (hash_table_free one_crash_recorded)
    (stress_syscall_hash 201 [demo_page_ptr; 0; 0; 0; 0; 0]) = []
  /\ recorded (stress_syscall_hash 201 [demo_page_ptr; 0; 0; 0; 0; 0])
       [demo_page_ptr; 0; 0; 0; 0; 0] one_crash_recorded
  /\ exists new,
       w_trace (outcome_world
                  (pass_loop x86_64 demo_globals (demo_env every_call_fails false 1000)
                     [sys_time] [0%nat] [0%nat]
                     (forked (zero_context 1) one_crash_recorded)))
       = [] ++ new
       /\ invocations_of 201 [demo_page_ptr; 0; 0; 0; 0; 0] new = []
       /\ recorded (stress_syscall_hash 201 [demo_page_ptr; 0; 0; 0; 0; 0])
            [demo_page_ptr; 0; 0; 0; 0; 0]
            (w_table (outcome_world
                        (pass_loop x86_64 demo_globals
                           (demo_env every_call_fails false 1000)
                           [sys_time] [0%nat] [0%nat]
                           (forked (zero_context 1) one_crash_recorded)))).
Proof.
  destruct (no_duplicate_within_a_pass x86_64 demo_globals
              (demo_env every_call_fails false 1000) [sys_time])
    as (Hfree & Hpass & _ & _).
  assert (Hrec : recorded (stress_syscall_hash 201 [demo_page_ptr; 0; 0; 0; 0; 0])
                   [demo_page_ptr; 0; 0; 0; 0; 0] one_crash_recorded).
  { exists {| h_hash := 8489; h_syscall := 201;
              h_args := [demo_page_ptr; 0; 0; 0; 0; 0]; h_type := SYSCALL_CRASH |}.
    split; [vm_compute; apply list_elem_of_here | reflexivity]. }
  split; [apply Hfree |]. split; [exact Hrec |].
  apply (Hpass 201 [demo_page_ptr; 0; 0; 0; 0; 0] [0%nat] [0%nat]
           (forked (zero_context 1) one_crash_recorded)).
  exact Hrec.
Defined.

(** C2.  The code on two workers that run three passes each.  With [umask]
    returning 0 on every call, the worker calls [umask(INT_MAX, 0, ...)]
    three times, twice after the first zero return was recorded.  A worker
    forked with the crash of [time(page_ptr)] on record (the node with tag
    [SYSCALL_CRASH] in bucket 8489) skips that call in its first pass and
    makes it in its second and in its third: the [hash_table_free] at the end
    of each pass empties the bucket, the inherited [SYSCALL_CRASH] node
    included.  So a recorded tuple is called more than once more, and the
    crash records do not last for the life of the worker, as the comments on
    [hash_table] and on [syscall_permute] say they do. *)
Lemma clear_between_passes_forgets_everything :
  invocations_of 95 [ulong INT_MAX; 0; 0; 0; 0; 0]
    (w_trace (final_world three_pass_worker))
  = [Returned 0; Returned 0; Returned 0]
  /\ bucket one_crash_recorded (stress_syscall_hash 201 [demo_page_ptr; 0; 0; 0; 0; 0])
     = [{| h_hash := 8489; h_syscall := 201;
           h_args := [demo_page_ptr; 0; 0; 0; 0; 0]; h_type := SYSCALL_CRASH |}]
  /\ skips_of (w_trace (final_world worker_after_crash))
     = [(201, [demo_page_ptr; 0; 0; 0; 0; 0],
         {| h_hash := 8489; h_syscall := 201;
            h_args := [demo_page_ptr; 0; 0; 0; 0; 0]; h_type := SYSCALL_CRASH |})]
  /\ invocations_of 201 [demo_page_ptr; 0; 0; 0; 0; 0]
       (w_trace (final_world worker_after_crash))
     = [Returned (-1); Returned (-1)]
  /\ bucket (hash_table_free one_crash_recorded)
       (stress_syscall_hash 201 [demo_page_ptr; 0; 0; 0; 0; 0]) = [].
Proof. repeat split; vm_compute; reflexivity. Qed.

(** ** C1: what counts as a match *)

(** X11.  The walk at a leaf.  The chain of the call's bucket is walked and
    a node is a match as soon as its six argument words equal the current
    ones; the syscall number stored in the node is not looked at.  If some
    node of the bucket has the current argument words, the leaf returns on
    such a node without making the call; if none has, the call is made. *)
Theorem lookup_matches_on_args_only (env : environment) (sa : syscall_arg_t)
    (w : world) :
  ((exists e,
       e ∈ bucket (w_table w) (stress_syscall_hash (sa_syscall sa) (ctx_args (w_ctx w)))
       /\ h_args e = ctx_args (w_ctx w)) ->
   exists h,
     h ∈ bucket (w_table w) (stress_syscall_hash (sa_syscall sa) (ctx_args (w_ctx w)))
     /\ h_args h = ctx_args (w_ctx w)
     /\ syscall_leaf env sa w
        = Alive (emit (with_ctx w (count_skip h (w_ctx w)))
                   (EvSkip sa (ctx_args (w_ctx w)) h)))
  /\ ((forall e,
         e ∈ bucket (w_table w) (stress_syscall_hash (sa_syscall sa) (ctx_args (w_ctx w))) ->
         h_args e <> ctx_args (w_ctx w)) ->
      exists during,
        w_trace (outcome_world (syscall_leaf env sa w))
        = w_trace w
          ++ [EvSyscall sa (sa_syscall sa) (ctx_args (w_ctx w)) (w_ctx w) during
                (env_syscall env (w_clock w) (sa_syscall sa) (ctx_args (w_ctx w)))]).
Proof.
  destruct (syscall_leaf_cases env sa w)
    as [(h & Hsome & Hleaf)
       | (Hnone & during & w' & _ & Htr & Hcases)].
  - destruct (chain_lookup_Some _ _ _ Hsome) as [Hin Ha]. split.
    + intros _. exists h. auto.
    + intros Hall. exfalso. exact (Hall h Hin Ha).
  - split.
    + intros (e & Hin & Ha). exfalso. exact (chain_lookup_None _ _ Hnone e Hin Ha).
    + intros _. exists during.
      destruct Hcases as [(_ & -> & _) | (ret & _ & -> & _)]; exact Htr.
Qed.

(** On two leaves of [time(0, ...)]: with a node recorded for [uname] in the
    bucket the leaf returns on it; with an empty table the call is made. *)
Lemma lookup_matches_on_args_only_witness :
  (exists h,
      h ∈ bucket (w_table leaf_with_foreign_node) 1491
      /\ h_args h = [0; 0; 0; 0; 0; 0]
      /\ syscall_leaf (demo_env every_call_fails false 1000) sys_time
           leaf_with_foreign_node
         = Alive (emit (with_ctx leaf_with_foreign_node
                          (count_skip h (w_ctx leaf_with_foreign_node)))
                    (EvSkip sys_time [0; 0; 0; 0; 0; 0] h)))
  /\ (exists during,
        w_trace (outcome_world
                   (syscall_leaf (demo_env every_call_fails false 1000) sys_time
                      leaf_with_empty_table))
        = [] ++ [EvSyscall sys_time 201 [0; 0; 0; 0; 0; 0]
                   (w_ctx leaf_with_empty_table) during (Returned (-1))]).
Proof.
  split.
  - apply (proj1 (lookup_matches_on_args_only (demo_env every_call_fails false 1000)
                    sys_time leaf_with_foreign_node)).
    exists foreign_node. split; [vm_compute; apply list_elem_of_here | reflexivity].
  - apply (proj2 (lookup_matches_on_args_only (demo_env every_call_fails false 1000)
                    sys_time leaf_with_empty_table)).
    intros e He. vm_compute in He. apply elem_of_nil in He. destruct He.
Defined.

(** C1.  The code on the run [stale_witness_run].  The first worker dies in
    [uname(page_ptr)], whose bucket is 1491.  The second is killed by a signal
    right after publishing [uname], before any call: the page still has the
    type [SYSCALL_CRASH] and the hash 1491 that the first worker left, the
    supervisor does not reset them, and so it records a node for a call that
    was never made (bucket 1491, syscall 63, all argument words zero).  The
    third worker reaches the leaf [time(0, 0, 0, 0, 0, 0)], whose bucket is
    1491 too, and returns on that node, recorded for syscall 63: an entry for
    another syscall with the same six argument words is taken as a match, and
    [time(0, ...)] is counted as a crasher and never called.  The workers
    made 2, 0 and 12 raw calls; the supervisor's bucket 1491 ends with two
    nodes, the second worker's among them. *)
Lemma lookup_ignores_syscall_number :
  stress_syscall_hash 201 [0; 0; 0; 0; 0; 0] = 1491
  /\ map skips_of (worker_traces (s_log (sup_state stale_witness_run)))
     = [ [];
         [];
         [ (63, [demo_page_ptr; 0; 0; 0; 0; 0],
            {| h_hash := 1491; h_syscall := 63;
               h_args := [demo_page_ptr; 0; 0; 0; 0; 0]; h_type := SYSCALL_CRASH |});
           (201, [0; 0; 0; 0; 0; 0],
            {| h_hash := 1491; h_syscall := 63;
               h_args := [0; 0; 0; 0; 0; 0]; h_type := SYSCALL_CRASH |}) ] ]
  /\ map (invocations_of 201 [0; 0; 0; 0; 0; 0])
       (worker_traces (s_log (sup_state stale_witness_run)))
     = [ []; []; [] ]
  /\ chain_lookup [foreign_node] [0; 0; 0; 0; 0; 0] = Some foreign_node
  /\ h_syscall foreign_node <> sa_syscall sys_time
  /\ map (fun t => length (filter (fun e => is_syscall e = true) t))
       (worker_traces (s_log (sup_state stale_witness_run)))
     = [2; 0; 12]%nat
  /\ bucket (s_table (sup_state stale_witness_run)) 1491
     = [ foreign_node;
         {| h_hash := 1491; h_syscall := 63;
            h_args := [demo_page_ptr; 0; 0; 0; 0; 0]; h_type := SYSCALL_CRASH |} ].
Proof.
  split; [vm_compute; reflexivity |]. split; [vm_compute; reflexivity |].
  split; [vm_compute; reflexivity |]. split; [vm_compute; reflexivity |].
  split; [discriminate |]. split; vm_compute; reflexivity.
Qed.

(** ** C4: the tally of crashes *)

(** X13.  The bump of the supervisor.  When the witness left by a worker has
    type [SYSCALL_CRASH] and its [idx] is inside the descriptor table, the
    supervisor adds one to [crash_count[idx]], modulo 2^64 and without any
    cap, and leaves the other tallies alone. *)
Theorem crash_count_bump_is_uncapped (alloc_ok : bool) (n : nat)
    (c : syscall_current_context_t) (tbl : gmap Z (list syscall_arg_hash_t)) :
  ctx_type c = SYSCALL_CRASH ->
  (ctx_idx c < n)%nat ->
  (ctx_idx c < length (ctx_crash_count c))%nat ->
  nth (ctx_idx c) (ctx_crash_count (record_crash alloc_ok n c tbl).1) 0
  = ulong (nth (ctx_idx c) (ctx_crash_count c) 0 + 1)
  /\ forall k, k <> ctx_idx c ->
       nth k (ctx_crash_count (record_crash alloc_ok n c tbl).1) 0
       = nth k (ctx_crash_count c) 0.
Proof.
  intros Htype Hidx Hlen. unfold record_crash.
  rewrite Htype, Z.eqb_refl, (proj2 (Nat.ltb_lt _ _) Hidx).
  cbn [fst set_crash_count ctx_crash_count]. unfold store. split.
  - rewrite nth_lookup, list_lookup_insert_eq by exact Hlen. reflexivity.
  - intros k Hk. rewrite !nth_lookup, list_lookup_insert_ne by congruence. reflexivity.
Qed.

(** On the page left by [eleven_workers_run]: type [SYSCALL_CRASH], tally 11,
    and one more bump stores 12. *)
Lemma crash_count_bump_is_uncapped_witness :
  ctx_type (s_ctx (sup_state eleven_workers_run)) = SYSCALL_CRASH
  /\ nth 0 (ctx_crash_count (s_ctx (sup_state eleven_workers_run))) 0 = 11
  /\ nth (ctx_idx (s_ctx (sup_state eleven_workers_run)))
       (ctx_crash_count
          (record_crash true 1 (s_ctx (sup_state eleven_workers_run)) ∅).1) 0
     = ulong (nth (ctx_idx (s_ctx (sup_state eleven_workers_run)))
                (ctx_crash_count (s_ctx (sup_state eleven_workers_run))) 0 + 1)
  /\ ulong (nth (ctx_idx (s_ctx (sup_state eleven_workers_run)))
              (ctx_crash_count (s_ctx (sup_state eleven_workers_run))) 0 + 1) = 12.
Proof.
  split; [vm_compute; reflexivity |]. split; [vm_compute; reflexivity |].
  split; [| vm_compute; reflexivity].
  refine (proj1 (crash_count_bump_is_uncapped true 1
                   (s_ctx (sup_state eleven_workers_run)) ∅ _ _ _)).
  - vm_compute. reflexivity.
  - vm_compute. lia.
  - vm_compute. lia.
Defined.

(** C4.  The code on the run [eleven_workers_run]: eleven workers over [time]
    alone, every call fatal.  Ten of them die in a call; the eleventh finds
    the descriptor capped, makes no call and exits when asked to stop.  The
    witness it leaves still has the type [SYSCALL_CRASH] of the tenth, which
    the supervisor never resets, so the supervisor bumps the tally once more:
    [crash_count[0]] is 11, above [MAX_CRASHES]. *)
Lemma crash_count_exceeds_max_crashes :
  ctx_crash_count (s_ctx (sup_state eleven_workers_run)) = [11]
  /\ ~ (nth 0 (ctx_crash_count (s_ctx (sup_state eleven_workers_run))) 0 <= MAX_CRASHES)
  /\ map (fun t => length (filter (fun e => is_syscall e = true) t))
       (worker_traces (s_log (sup_state eleven_workers_run)))
     = [1; 1; 1; 1; 1; 1; 1; 1; 1; 1; 0]%nat.
Proof.
  split; [vm_compute; reflexivity |]. split; [| vm_compute; reflexivity].
  assert (E : nth 0 (ctx_crash_count (s_ctx (sup_state eleven_workers_run))) 0 = 11)
    by (vm_compute; reflexivity).
  rewrite E. unfold MAX_CRASHES. lia.
Qed.

(** * Further properties of the code *)

(** ** The rotation and the hash *)

Lemma rotate_right_lor n v :
  is_word v -> 0 <= n <= ULONG_BITS ->
  rotate_right n v
  = Z.lor (Z.shiftr v n) (Z.shiftl (v mod 2 ^ n) (ULONG_BITS - n)).
Proof.
  intros Hv Hn. unfold rotate_right.
  rewrite Z.shiftr_div_pow2, Z.shiftl_mul_pow2 by lia.
  set (a := v / 2 ^ n). set (b := v mod 2 ^ n * 2 ^ (ULONG_BITS - n)).
  assert (Hland : Z.land a b = 0).
  { apply Z.bits_inj'. intros i Hi. rewrite Z.land_spec, Z.bits_0.
    subst a b. rewrite Z.div_pow2_bits, Z.mul_pow2_bits by lia.
    destruct (Z.lt_ge_cases i (ULONG_BITS - n)) as [Hlt | Hge].
    - rewrite (Z.testbit_neg_r _ (i - (ULONG_BITS - n))) by lia.
      apply andb_false_r.
    - rewrite (testbit_word_high v (i + n)) by (first [exact Hv | lia]).
      reflexivity. }
  pose proof (Z.add_lor_land a b) as Hsum. rewrite Hland in Hsum. lia.
Qed.

(** [rotate_right n] moves bit [(i + n) mod 64] of the word to position [i]. *)
Lemma rotate_right_testbit n v i :
  is_word v -> 0 <= n <= ULONG_BITS -> 0 <= i < ULONG_BITS ->
  Z.testbit (rotate_right n v) i = Z.testbit v ((i + n) mod ULONG_BITS).
Proof.
  intros Hv Hn Hi. rewrite rotate_right_lor by assumption.
  rewrite Z.lor_spec, Z.shiftr_spec, Z.shiftl_spec by lia.
  unfold ULONG_BITS in *.
  destruct (Z.lt_ge_cases (i + n) 64) as [Hlt | Hge].
  - rewrite (Z.testbit_neg_r _ (i - (64 - n))) by lia.
    rewrite Z.mod_small by lia. apply orb_false_r.
  - rewrite (testbit_word_high v (i + n)) by (first [exact Hv | unfold ULONG_BITS; lia]).
    rewrite Z.mod_pow2_bits_low by lia. cbn [orb]. f_equal.
    replace (i + n) with (i - (64 - n) + 1 * 64) by lia.
    rewrite Z.mod_add by lia. symmetry. apply Z.mod_small. lia.
Qed.

Lemma rotate_right_word n v :
  is_word v -> 0 <= n <= ULONG_BITS -> is_word (rotate_right n v).
Proof.
  intros Hv Hn. rewrite rotate_right_lor by assumption. apply word_of_bits.
  - apply Z.lor_nonneg. split.
    + apply Z.shiftr_nonneg. unfold is_word in Hv. lia.
    + apply Z.shiftl_nonneg. apply Z.mod_pos_bound. apply Z.pow_pos_nonneg; lia.
  - intros i Hi. rewrite Z.lor_spec, Z.shiftr_spec, Z.shiftl_spec
      by (unfold ULONG_BITS in *; lia).
    rewrite (testbit_word_high v (i + n)) by (first [exact Hv | lia]).
    rewrite Z.mod_pow2_bits_high by (unfold ULONG_BITS in *; lia). reflexivity.
Qed.

Lemma word_bits_inj x y :
  is_word x -> is_word y ->
  (forall i, 0 <= i < ULONG_BITS -> Z.testbit x i = Z.testbit y i) -> x = y.
Proof.
  intros Hx Hy Hbits. apply Z.bits_inj'. intros i Hi.
  destruct (Z.lt_ge_cases i ULONG_BITS) as [Hlt | Hge].
  - apply Hbits. lia.
  - rewrite (testbit_word_high x i Hx Hge), (testbit_word_high y i Hy Hge).
    reflexivity.
Qed.

(** Rotations add up. *)
Lemma rotate_right_add n m v :
  is_word v -> 0 <= n -> 0 <= m -> n + m <= ULONG_BITS ->
  rotate_right n (rotate_right m v) = rotate_right (n + m) v.
Proof.
  intros Hv Hn Hm Hnm.
  apply word_bits_inj.
  - apply rotate_right_word; [apply rotate_right_word; [exact Hv | lia] | lia].
  - apply rotate_right_word; [exact Hv | lia].
  - intros i Hi.
    rewrite rotate_right_testbit
      by (first [apply rotate_right_word; [exact Hv | lia] | lia]).
    rewrite rotate_right_testbit
      by (first [exact Hv | apply Z.mod_pos_bound; reflexivity | lia]).
    rewrite rotate_right_testbit by (first [exact Hv | lia]).
    f_equal. rewrite Zplus_mod_idemp_l. f_equal. lia.
Qed.

(** A rotation of an xor is the xor of the rotations. *)
Lemma rotate_right_lxor n x y :
  is_word x -> is_word y -> 0 <= n <= ULONG_BITS ->
  rotate_right n (Z.lxor x y) = Z.lxor (rotate_right n x) (rotate_right n y).
Proof.
  intros Hx Hy Hn. apply word_bits_inj.
  - apply rotate_right_word; [apply lxor_word; assumption | exact Hn].
  - apply lxor_word; apply rotate_right_word; assumption.
  - intros i Hi.
    rewrite Z.lxor_spec.
    rewrite !rotate_right_testbit
      by (first [assumption | apply lxor_word; assumption]).
    apply Z.lxor_spec.
Qed.

Lemma arg_word_word args i : Forall is_word args -> is_word (arg_word args i).
Proof.
  intros Hall. unfold arg_word. rewrite nth_lookup.
  destruct (args !! i) as [a |] eqn:Ha; cbn [default].
  - exact (Forall_lookup_1 _ _ _ _ Hall Ha).
  - unfold is_word, ULONG_MOD, ULONG_BITS. lia.
Qed.

(** Two [ROR]s are the rotation by two positions. *)
Lemma ROR_twice v : is_word v -> ROR (ROR v) = rotate_right 2 v.
Proof.
  intros Hv.
  rewrite (ROR_is_rotate_right (ROR v)) by (apply ROR_word, Hv).
  rewrite (ROR_is_rotate_right v) by exact Hv.
  apply (rotate_right_add 1 1 v); unfold ULONG_BITS; first [exact Hv | lia].
Qed.

Ltac word_goal :=
  repeat first
    [ assumption
    | apply arg_word_word
    | apply lxor_word
    | apply ROR_word
    | apply rotate_right_word
    | (unfold ULONG_BITS in *; lia) ].

Lemma round_collects n x k a :
  is_word x -> is_word k -> is_word a -> 0 <= n -> n + 2 <= ULONG_BITS ->
  Z.lxor (ROR (ROR (Z.lxor (rotate_right n x) k))) a
  = Z.lxor (rotate_right (n + 2) x) (Z.lxor (rotate_right 2 k) a).
Proof.
  intros Hx Hk Ha Hn Hn2.
  rewrite ROR_twice by word_goal.
  rewrite rotate_right_lxor by word_goal.
  rewrite rotate_right_add by word_goal.
  rewrite (Z.add_comm 2 n). apply Z.lxor_assoc.
Qed.

(** The six rounds collapse: by linearity of the rotation over xor, and
    because rotations add up. *)
Lemma hash_rounds_collapse s args :
  is_word s -> Forall is_word args ->
  stress_syscall_hash s args = hash_xor_form s args mod SYSCALL_HASH_TABLE_SIZE.
Proof.
  intros Hs Hargs. unfold stress_syscall_hash, hash_xor_form. f_equal.
  set (a0 := arg_word args 0). set (a1 := arg_word args 1).
  set (a2 := arg_word args 2). set (a3 := arg_word args 3).
  set (a4 := arg_word args 4). set (a5 := arg_word args 5).
  assert (H0 : is_word a0) by apply arg_word_word, Hargs.
  assert (H1 : is_word a1) by apply arg_word_word, Hargs.
  assert (H2 : is_word a2) by apply arg_word_word, Hargs.
  assert (H3 : is_word a3) by apply arg_word_word, Hargs.
  assert (H4 : is_word a4) by apply arg_word_word, Hargs.
  assert (H5 : is_word a5) by apply arg_word_word, Hargs.
  assert (Hz : is_word 0) by (unfold is_word, ULONG_MOD, ULONG_BITS; lia).
  rewrite (ROR_twice s) by exact Hs.
  cut (forall k, is_word k ->
         Z.lxor (ROR (ROR (Z.lxor (ROR (ROR (Z.lxor (ROR (ROR (Z.lxor (ROR (ROR
            (Z.lxor (ROR (ROR (Z.lxor (rotate_right 2 s) k))) a1))) a2))) a3))) a4))) a5
         = Z.lxor (rotate_right 12 s)
             (Z.lxor (rotate_right 2 (Z.lxor (rotate_right 2 (Z.lxor (rotate_right 2
                (Z.lxor (rotate_right 2 (Z.lxor (rotate_right 2 k) a1)) a2)) a3)) a4)) a5)).
  { intros Hcut. rewrite (Hcut a0 H0).
    rewrite !rotate_right_lxor by word_goal.
    rewrite !rotate_right_add by word_goal.
    cbn [Z.add Pos.add Pos.succ].
    rewrite <- !Z.lxor_assoc. reflexivity. }
  intros k Hk.
  rewrite (round_collects 2 s k a1) by word_goal.
  rewrite (round_collects (2 + 2) s _ a2) by word_goal.
  rewrite (round_collects (2 + 2 + 2) s _ a3) by word_goal.
  rewrite (round_collects (2 + 2 + 2 + 2) s _ a4) by word_goal.
  rewrite (round_collects (2 + 2 + 2 + 2 + 2) s _ a5) by word_goal.
  reflexivity.
Qed.

(** A syscall number below 4096 sits in the top twelve bits after the six
    rounds. *)
Lemma rotate_right_12_small s :
  0 <= s < 4096 -> rotate_right 12 s = s * 2 ^ 52.
Proof.
  intros Hs. unfold rotate_right, ULONG_BITS.
  rewrite Z.div_small, Z.mod_small by (change (2 ^ 12) with 4096; lia).
  reflexivity.
Qed.

(** The xor of [s * 2^52] into a word changes its top twelve bits only. *)
Lemma lxor_top_bits s k :
  0 <= s -> 0 <= k ->
  Z.lxor (s * 2 ^ 52) k = Z.lxor s (k / 2 ^ 52) * 2 ^ 52 + k mod 2 ^ 52.
Proof.
  intros Hs Hk.
  rewrite (Z.div_mod (Z.lxor (s * 2 ^ 52) k) (2 ^ 52)) by discriminate.
  rewrite (Z.mul_comm (2 ^ 52)). f_equal; [f_equal |].
  - rewrite <- !Z.shiftr_div_pow2 by lia. rewrite Z.shiftr_lxor. f_equal.
    rewrite Z.shiftr_div_pow2 by lia. apply Z.div_mul. discriminate.
  - apply Z.bits_inj'. intros i Hi.
    destruct (Z.lt_ge_cases i 52) as [Hlt | Hge].
    + rewrite !Z.mod_pow2_bits_low by lia.
      rewrite Z.lxor_spec, Z.mul_pow2_bits by lia.
      rewrite (Z.testbit_neg_r s (i - 52)) by lia. reflexivity.
    + rewrite !Z.mod_pow2_bits_high by lia. reflexivity.
Qed.

Lemma hash_xor_form_word s args :
  is_word s -> Forall is_word args -> is_word (hash_xor_form s args).
Proof. intros Hs Hargs. unfold hash_xor_form. word_goal. Qed.

(** With the same six argument words, two syscall numbers below 4096 that
    hash to the same bucket are equal: the numbers differ in the top twelve
    bits of the word only, by less than 4096 times 2^52, and 10007 is prime
    to 2^52. *)
Lemma hash_separates_syscall_numbers (s1 s2 : Z) (args : list Z) :
  0 <= s1 < 4096 -> 0 <= s2 < 4096 -> Forall is_word args ->
  stress_syscall_hash s1 args = stress_syscall_hash s2 args -> s1 = s2.
Proof.
  intros Hs1 Hs2 Hargs Heq.
  assert (Hw1 : is_word s1) by (unfold is_word, ULONG_MOD, ULONG_BITS; lia).
  assert (Hw2 : is_word s2) by (unfold is_word, ULONG_MOD, ULONG_BITS; lia).
  rewrite !hash_rounds_collapse in Heq by assumption.
  pose proof (hash_xor_form_word s1 args Hw1 Hargs) as Hx1.
  pose proof (hash_xor_form_word s2 args Hw2 Hargs) as Hx2.
  unfold hash_xor_form in *.
  set (k := Z.lxor (rotate_right 10 (arg_word args 0)) _) in *.
  assert (Hk : is_word k) by (subst k; word_goal).
  rewrite !rotate_right_12_small in * by assumption.
  rewrite !lxor_top_bits in * by (unfold is_word in *; lia).
  set (q1 := Z.lxor s1 (k / 2 ^ 52)) in *.
  set (q2 := Z.lxor s2 (k / 2 ^ 52)) in *.
  set (r := k mod 2 ^ 52) in *.
  assert (Hr : 0 <= r < 2 ^ 52) by (apply Z.mod_pos_bound; reflexivity).
  assert (Hq1 : 0 <= q1) by (apply Z.lxor_nonneg; split; intros _;
                             [apply Z.div_pos; unfold is_word in *; lia | lia]).
  assert (Hq2 : 0 <= q2) by (apply Z.lxor_nonneg; split; intros _;
                             [apply Z.div_pos; unfold is_word in *; lia | lia]).
  unfold is_word, ULONG_MOD, ULONG_BITS in Hx1, Hx2.
  assert (Hb1 : q1 < 4096) by nia.
  assert (Hb2 : q2 < 4096) by nia.
  assert (Hq : q1 = q2).
  { assert (Hdiv : (SYSCALL_HASH_TABLE_SIZE | 2 ^ 52 * (q1 - q2))).
    { exists ((q1 * 2 ^ 52 + r) / SYSCALL_HASH_TABLE_SIZE
              - (q2 * 2 ^ 52 + r) / SYSCALL_HASH_TABLE_SIZE).
      pose proof (Z.div_mod (q1 * 2 ^ 52 + r) SYSCALL_HASH_TABLE_SIZE ltac:(discriminate)).
      pose proof (Z.div_mod (q2 * 2 ^ 52 + r) SYSCALL_HASH_TABLE_SIZE ltac:(discriminate)).
      lia. }
    apply Z.gauss in Hdiv; [| reflexivity].
    destruct Hdiv as [c Hc]. unfold SYSCALL_HASH_TABLE_SIZE in Hc. lia. }
  subst q1 q2.
  rewrite <- (Z.lxor_0_r s1), <- (Z.lxor_0_r s2).
  rewrite <- (Z.lxor_nilpotent (k / 2 ^ 52)), <- !Z.lxor_assoc, Hq.
  reflexivity.
Qed.

(** [n] applications of the macro are the rotation by [n] positions. *)
Lemma ROR_iter n v :
  is_word v -> (n <= 64)%nat -> Nat.iter n ROR v = rotate_right (Z.of_nat n) v.
Proof.
  intros Hv. induction n as [| n IH]; intros Hn.
  - unfold rotate_right. cbn [Nat.iter Z.of_nat nat_rect].
    rewrite Z.pow_0_r, Z.div_1_r, Z.mod_1_r. lia.
  - rewrite Nat.iter_succ, IH by lia.
    rewrite ROR_is_rotate_right by (apply rotate_right_word; unfold ULONG_BITS; lia || exact Hv).
    rewrite rotate_right_add by (first [exact Hv | unfold ULONG_BITS; lia]).
    f_equal. lia.
Qed.

(** X1.  [ROR] loses nothing of a machine word: 64 applications give the
    word back, and two words with the same image under [ROR] are equal. *)
Theorem ROR_sixty_four_times (x y : Z) :
  is_word x -> is_word y ->
  Nat.iter 64 ROR x = x /\ (ROR x = ROR y -> x = y).
Proof.
  intros Hx Hy.
  assert (Hperiod : forall v, is_word v -> Nat.iter 64 ROR v = v).
  { intros v Hv. rewrite ROR_iter by (first [exact Hv | lia]).
    unfold rotate_right, ULONG_BITS. change (Z.of_nat 64) with 64.
    unfold is_word, ULONG_MOD, ULONG_BITS in Hv.
    rewrite Z.div_small, Z.mod_small by exact Hv.
    change (2 ^ (64 - 64)) with 1. lia. }
  split; [apply Hperiod, Hx |].
  intros Heq. rewrite <- (Hperiod x Hx), <- (Hperiod y Hy).
  rewrite !(Nat.iter_succ_r 63). rewrite Heq. reflexivity.
Qed.

Lemma ROR_sixty_four_times_witness :
  Nat.iter 64 ROR 0x8000000000000001 = 0x8000000000000001
  /\ (ROR 0x8000000000000001 = ROR 3 -> 0x8000000000000001 = 3).
Proof.
  apply ROR_sixty_four_times; unfold is_word, ULONG_MOD, ULONG_BITS; lia.
Defined.

(** X2.  For machine words the hash is the xor of seven rotated words,
    reduced modulo 10007: the syscall number rotated right by 12 positions
    and the argument words rotated by 10, 8, 6, 4, 2 and 0; the xor is a
    machine word again, and a syscall number below 4096 contributes
    [s * 2^52], its twelve bits at the top of the word. *)
Theorem stress_syscall_hash_xor_form (s : Z) (args : list Z) :
  is_word s -> Forall is_word args ->
  stress_syscall_hash s args = hash_xor_form s args mod SYSCALL_HASH_TABLE_SIZE
  /\ is_word (hash_xor_form s args)
  /\ (s < 4096 -> rotate_right 12 s = s * 2 ^ 52).
Proof.
  intros Hs Hargs. split; [apply hash_rounds_collapse; assumption |].
  split; [apply hash_xor_form_word; assumption |].
  intros Hlt. apply rotate_right_12_small. unfold is_word in Hs. lia.
Qed.

Lemma stress_syscall_hash_xor_form_witness :
  stress_syscall_hash 201 [demo_page_ptr; 3; 0; 0; 0; 1]
  = hash_xor_form 201 [demo_page_ptr; 3; 0; 0; 0; 1] mod SYSCALL_HASH_TABLE_SIZE
  /\ is_word (hash_xor_form 201 [demo_page_ptr; 3; 0; 0; 0; 1])
  /\ (201 < 4096 -> rotate_right 12 201 = 201 * 2 ^ 52).
Proof.
  apply stress_syscall_hash_xor_form.
  - unfold is_word, ULONG_MOD, ULONG_BITS. lia.
  - repeat constructor; unfold is_word, ULONG_MOD, ULONG_BITS, demo_page_ptr; lia.
Defined.

(** X3.  A match on a record of a call that was made belongs to the same
    syscall.  If the walk at the leaf of [syscall(s, args)] returns the node
    [e], the node sits in the bucket of its own hash, that hash is the hash
    of the call the node records, and both syscall numbers are below 4096,
    then the node was recorded for syscall [s]. *)
Theorem genuine_match_has_the_callers_number (s : Z) (args : list Z)
    (tbl : gmap Z (list syscall_arg_hash_t)) (e : syscall_arg_hash_t) :
  0 <= s < 4096 ->
  0 <= h_syscall e < 4096 ->
  Forall is_word args ->
  chain_lookup (bucket tbl (stress_syscall_hash s args)) args = Some e ->
  h_hash e = stress_syscall_hash s args ->
  h_hash e = stress_syscall_hash (h_syscall e) (h_args e) ->
  h_syscall e = s.
Proof.
  intros Hs He Hargs Hlook Hbucket Hgenuine.
  destruct (chain_lookup_Some _ _ _ Hlook) as [_ Ha].
  rewrite Ha, Hbucket in Hgenuine.
  symmetry. exact (hash_separates_syscall_numbers s (h_syscall e) args Hs He Hargs Hgenuine).
Qed.

Lemma genuine_match_has_the_callers_number_witness :
  h_syscall {| h_hash := 8489; h_syscall := 201;
               h_args := [demo_page_ptr; 0; 0; 0; 0; 0]; h_type := SYSCALL_CRASH |}
  = 201.
Proof.
  apply (genuine_match_has_the_callers_number 201 [demo_page_ptr; 0; 0; 0; 0; 0]
           one_crash_recorded).
  - lia.
  - cbn. lia.
  - repeat constructor; unfold is_word, ULONG_MOD, ULONG_BITS, demo_page_ptr; lia.
  - vm_compute. reflexivity.
  - vm_compute. reflexivity.
  - vm_compute. reflexivity.
Defined.

(** ** The tallies and the calls in flight *)


Lemma tallies_kept_emit cc w e :
  below_cap e -> tallies_kept cc w -> tallies_kept cc (emit w e).
Proof.
  intros He [Hcc Hw]. split; [exact Hcc |].
  cbn [emit w_trace]. apply Forall_app. split; [exact Hw | apply Forall_singleton, He].
Qed.

Lemma tallies_engine_leaf cc env j sa w :
  tallies_engine cc j sa w ->
  holds (tallies_engine cc j sa) (tallies_kept cc) (syscall_leaf env sa w).
Proof.
  intros ([Hcc Hw] & Hidx & Hfree).
  destruct (syscall_leaf_cases env sa w)
    as [(h & _ & ->)
       | (_ & during & w' & Hduring & Htr & [(_ & -> & Hctx & _) | (ret & _ & -> & Hctx & _)])];
    cbn [holds].
  - destruct (count_skip_fields h (w_ctx w)) as (Hi & _ & Hc & _).
    split; [| split; [cbn [emit with_ctx w_ctx]; rewrite Hi; exact Hidx | exact Hfree]].
    apply tallies_kept_emit; [exact I |].
    split; [cbn [with_ctx w_ctx]; rewrite Hc; exact Hcc | exact Hw].
  - split.
    + rewrite Hctx, Hduring. exact Hcc.
    + rewrite Htr. apply Forall_app. split; [exact Hw |]. apply Forall_singleton.
      subst during. cbn. rewrite Hidx, Hcc. exact Hfree.
  - split; [split |].
    + rewrite Hctx, Hduring. exact Hcc.
    + rewrite Htr. apply Forall_app. split; [exact Hw |]. apply Forall_singleton.
      subst during. cbn. rewrite Hidx, Hcc. exact Hfree.
    + rewrite Hctx, Hduring. cbn. auto.
Qed.

Lemma worker_keeps_tallies P g env syscall_args fuel c tbl :
  tallies_kept (ctx_crash_count c)
    (final_world (worker P g env syscall_args fuel (forked c tbl))).
Proof.
  pose proof (worker_invariant P g env syscall_args
                (tallies_kept (ctx_crash_count c)) (tallies_kept (ctx_crash_count c))
                (tallies_published (ctx_crash_count c))
                (tallies_engine (ctx_crash_count c))) as Hinv.
  assert (Hw : worker_holds (tallies_kept (ctx_crash_count c))
                 (tallies_kept (ctx_crash_count c))
                 (worker P g env syscall_args fuel (forked c tbl))).
  { apply Hinv.
    - intros w0 t Hw0. exact Hw0.
    - intros w0 r _ Hw0. apply tallies_kept_emit; [exact I | exact Hw0].
    - intros w0 Hw0. exact Hw0.
    - intros w0 j sa _ Hw0. split; [exact Hw0 | reflexivity].
    - intros j sa w0 t Hw0. exact Hw0.
    - intros j sa w0 [Hw0 _]. exact Hw0.
    - intros j sa w0 [Hw0 _]. exact Hw0.
    - intros j sa w0 ret [Hw0 Hidx] Hfree.
      split; [apply tallies_kept_emit; [exact I | exact Hw0] |].
      split; [exact Hidx |]. destruct Hw0 as [Hcc _]. rewrite <- Hcc. exact Hfree.
    - intros j sa w0 t Hw0. exact Hw0.
    - intros j sa w0 k v Hw0. exact Hw0.
    - intros j sa w0 n a (Hw0 & Hrest).
      split; [apply tallies_kept_emit; [exact I | exact Hw0] | exact Hrest].
    - intros j sa w0. apply tallies_engine_leaf.
    - intros j sa w0 [Hw0 _]. exact Hw0.
    - split; [reflexivity | apply Forall_nil_2]. }
  destruct (worker P g env syscall_args fuel (forked c tbl)) as [w | w];
    cbn [worker_holds final_world] in *; [destruct Hw |]; assumption.
Qed.

(** What a worker that died in a raw call leaves behind. *)
Lemma worker_died_in_call P g env syscall_args fuel c tbl sa num args before during :
  last (w_trace (final_world (worker P g env syscall_args fuel (forked c tbl))))
  = Some (EvSyscall sa num args before during Killed) ->
  w_ctx (final_world (worker P g env syscall_args fuel (forked c tbl))) = during
  /\ witness_ok syscall_args (EvSyscall sa num args before during Killed).
Proof.
  intros Hlast.
  pose proof (worker_witness_invariant P g env syscall_args fuel (forked c tbl)
                (conj (Forall_nil_2 _) (Forall_nil_2 _))) as Hinv.
  assert (Hdead : witness_dead syscall_args
                    (final_world (worker P g env syscall_args fuel (forked c tbl)))).
  { destruct (worker P g env syscall_args fuel (forked c tbl)) as [w | w];
      cbn [worker_holds final_world] in *.
    - destruct Hinv as [Hinv | Hinv]; [apply witness_alive_dead |]; exact Hinv.
    - apply witness_alive_dead, Hinv. }
  destruct Hdead as [Hall Hctx]. split; [exact (Hctx _ _ _ _ _ Hlast) |].
  apply last_Some in Hlast as [l' Hl']. rewrite Hl' in Hall.
  rewrite Forall_app, Forall_singleton in Hall. apply Hall.
Qed.

(** X4.  The worker never writes the tallies, every raw call is made while
    the tally of its descriptor is below [MAX_CRASHES], and so the bump that
    follows the death of a worker in a raw call keeps every tally at or
    below [MAX_CRASHES]. *)
Theorem call_in_flight_is_below_the_cap (P : platform) (g : globals)
    (env : environment) (syscall_args : list syscall_arg_t) (fuel : nat)
    (c : syscall_current_context_t) (tbl : gmap Z (list syscall_arg_hash_t)) :
  ctx_crash_count (w_ctx (final_world (worker P g env syscall_args fuel (forked c tbl))))
  = ctx_crash_count c
  /\ Forall below_cap
       (w_trace (final_world (worker P g env syscall_args fuel (forked c tbl))))
  /\ (forall sa num args before during alloc_ok tbl',
        last (w_trace (final_world (worker P g env syscall_args fuel (forked c tbl))))
        = Some (EvSyscall sa num args before during Killed) ->
        tallies_bounded (ctx_crash_count c) ->
        tallies_bounded
          (ctx_crash_count
             (record_crash alloc_ok (length syscall_args)
                (w_ctx (final_world (worker P g env syscall_args fuel (forked c tbl))))
                tbl').1)).
Proof.
  destruct (worker_keeps_tallies P g env syscall_args fuel c tbl) as [Hcc Hall].
  split; [exact Hcc |]. split; [exact Hall |].
  intros sa num args before during alloc_ok tbl' Hlast Hbound.
  destruct (worker_died_in_call P g env syscall_args fuel c tbl _ _ _ _ _ Hlast)
    as [Hctx Hok].
  assert (Hbelow : below_cap (EvSyscall sa num args before during Killed)).
  { apply last_Some in Hlast as [l' Hl']. rewrite Hl' in Hall.
    rewrite Forall_app, Forall_singleton in Hall. apply Hall. }
  cbn [below_cap] in Hbelow. rewrite Hctx in *. rewrite Hcc in Hbelow.
  unfold record_crash.
  destruct (ctx_type during =? SYSCALL_CRASH); [| cbn [fst]; rewrite Hcc; exact Hbound].
  destruct (ctx_idx during <? length syscall_args)%nat;
    [| cbn [fst]; rewrite Hcc; exact Hbound].
  cbn [fst set_crash_count ctx_crash_count]. rewrite Hcc. unfold store.
  apply Forall_insert; [exact Hbound |].
  assert (Hlow : 0 <= nth (ctx_idx during) (ctx_crash_count c) 0).
  { rewrite nth_lookup.
    destruct (ctx_crash_count c !! ctx_idx during) as [x |] eqn:Hx; simpl; [| lia].
    unfold tallies_bounded in Hbound.
    pose proof (Forall_lookup_1 _ _ _ _ Hbound Hx) as Hr. cbn beta in Hr. lia. }
  rewrite ulong_small; unfold MAX_CRASHES, ULONG_MOD, ULONG_BITS in *; lia.
Qed.

(** The worker that dies in [uname(page_ptr)]: both tallies are 0 when it is
    forked, and the bump for [uname] leaves them at 0 and 1. *)
Lemma call_in_flight_is_below_the_cap_witness :
  Forall below_cap (w_trace (final_world worker_dying_in_uname))
  /\ tallies_bounded
       (ctx_crash_count
          (record_crash true (length [sys_time; sys_uname])
             (w_ctx (final_world worker_dying_in_uname)) ∅).1).
Proof.
  unfold worker_dying_in_uname.
  destruct (call_in_flight_is_below_the_cap x86_64 demo_globals
              (demo_env uname_guard_page_kills false 1000) [sys_time; sys_uname] 5
              (zero_context 2) ∅) as (_ & Hall & Hbump).
  split; [exact Hall |].
  match type of Hall with
  | Forall _ ?t =>
      let v := eval vm_compute in (last t) in
      assert (E : last t = v) by (vm_compute; reflexivity)
  end.
  lazymatch type of E with
  | _ = Some (EvSyscall ?sa ?num ?args ?before ?during Killed) =>
      apply (Hbump sa num args before during true ∅ E)
  end.
  repeat constructor; unfold MAX_CRASHES; lia.
Defined.

(** ** Records of calls *)

Lemma table_genuine_add alloc_ok s a t tbl :
  table_genuine tbl ->
  table_genuine (hash_table_add alloc_ok (stress_syscall_hash s a) s a t tbl).
Proof.
  intros Htbl i e. rewrite bucket_add.
  destruct (alloc_ok && bool_decide (stress_syscall_hash s a = i)) eqn:Hc;
    [| apply Htbl].
  apply andb_true_iff in Hc as [_ Hi]. apply bool_decide_eq_true in Hi.
  intros [-> | Hin]%elem_of_cons; [| apply Htbl, Hin].
  split; [exact Hi | symmetry; exact Hi].
Qed.

Lemma table_genuine_empty : table_genuine ∅.
Proof.
  intros i e Hin. unfold bucket in Hin. rewrite lookup_empty in Hin.
  apply elem_of_nil in Hin. destruct Hin.
Qed.

Lemma world_genuine_leaf env sa w :
  world_genuine w -> holds world_genuine world_genuine (syscall_leaf env sa w).
Proof.
  intros Hw.
  destruct (syscall_leaf_cases env sa w)
    as [(h & _ & ->)
       | (_ & during & w' & _ & _ & [(_ & -> & _ & Htbl) | (ret & _ & -> & _ & Htbl)])];
    cbn [holds]; unfold world_genuine.
  - exact Hw.
  - rewrite Htbl. exact Hw.
  - rewrite Htbl. destruct (int32 ret =? 0); [| exact Hw].
    apply table_genuine_add, Hw.
Qed.

Lemma worker_keeps_table_genuine P g env syscall_args fuel c tbl :
  table_genuine tbl ->
  world_genuine (final_world (worker P g env syscall_args fuel (forked c tbl))).
Proof.
  intros Htbl.
  assert (Hw : worker_holds world_genuine world_genuine
                 (worker P g env syscall_args fuel (forked c tbl))).
  { apply (worker_invariant P g env syscall_args world_genuine world_genuine
             (fun _ _ => world_genuine) (fun _ _ => world_genuine)).
    - intros w0 t Hw0. exact Hw0.
    - intros w0 r _ Hw0. exact Hw0.
    - intros w0 _. apply table_genuine_empty.
    - intros w0 j sa _ Hw0. exact Hw0.
    - intros j sa w0 t Hw0. exact Hw0.
    - intros j sa w0 Hw0. exact Hw0.
    - intros j sa w0 Hw0. exact Hw0.
    - intros j sa w0 ret Hw0 _. exact Hw0.
    - intros j sa w0 t Hw0. exact Hw0.
    - intros j sa w0 k v Hw0. exact Hw0.
    - intros j sa w0 n a Hw0. exact Hw0.
    - intros j sa w0. apply world_genuine_leaf.
    - intros j sa w0 Hw0. exact Hw0.
    - exact Htbl. }
  destruct (worker P g env syscall_args fuel (forked c tbl)) as [w | w];
    cbn [worker_holds final_world] in *; [destruct Hw |]; assumption.
Qed.

(** X5.  The records of calls that were made are genuine.  From a table in
    which every node sits in the bucket of its hash and that hash is the hash
    of the syscall number and argument words the node holds, a worker ends
    with such a table; and when the worker died in a raw call, the node the
    supervisor then records is such a node too. *)
Theorem records_of_calls_are_genuine (P : platform) (g : globals)
    (env : environment) (syscall_args : list syscall_arg_t) (fuel : nat)
    (c : syscall_current_context_t) (tbl : gmap Z (list syscall_arg_hash_t)) :
  table_genuine tbl ->
  table_genuine
    (w_table (final_world (worker P g env syscall_args fuel (forked c tbl))))
  /\ (forall sa num args before during alloc_ok,
        last (w_trace (final_world (worker P g env syscall_args fuel (forked c tbl))))
        = Some (EvSyscall sa num args before during Killed) ->
        table_genuine
          (record_crash alloc_ok (length syscall_args)
             (w_ctx (final_world (worker P g env syscall_args fuel (forked c tbl))))
             tbl).2).
Proof.
  intros Htbl. split; [apply worker_keeps_table_genuine, Htbl |].
  intros sa num args before during alloc_ok Hlast.
  destruct (worker_died_in_call P g env syscall_args fuel c tbl _ _ _ _ _ Hlast)
    as [Hctx Hok].
  rewrite Hctx. cbn [witness_ok] in Hok.
  destruct Hok as (_ & Hnum & _ & Hargs & Hhash & _ & Htype).
  unfold record_crash. rewrite Htype, Z.eqb_refl. cbn [snd].
  rewrite Hhash, Hnum, Hargs. apply table_genuine_add, Htbl.
Qed.

(** The worker that dies in [uname(page_ptr)] leaves a record the supervisor
    can trust; the table of [stale_witness_run], where the supervisor recorded
    the page of a worker that made no call, holds in bucket 1491 a node for
    [uname] with all argument words zero, whose hash is not 1491. *)
Lemma records_of_calls_are_genuine_witness :
  table_genuine
    (record_crash true (length [sys_time; sys_uname])
       (w_ctx (final_world worker_dying_in_uname)) ∅).2
  /\ bucket (s_table (sup_state stale_witness_run)) 1491
     = [ {| h_hash := 1491; h_syscall := 63; h_args := [0; 0; 0; 0; 0; 0];
            h_type := SYSCALL_CRASH |};
         {| h_hash := 1491; h_syscall := 63;
            h_args := [demo_page_ptr; 0; 0; 0; 0; 0]; h_type := SYSCALL_CRASH |} ]
  /\ stress_syscall_hash 63 [0; 0; 0; 0; 0; 0] <> 1491.
Proof.
  split; [| split; [vm_compute; reflexivity | vm_compute; discriminate]].
  unfold worker_dying_in_uname.
  destruct (records_of_calls_are_genuine x86_64 demo_globals
              (demo_env uname_guard_page_kills false 1000) [sys_time; sys_uname] 5
              (zero_context 2) ∅ table_genuine_empty) as [Hfinal Hrec].
  match type of Hfinal with
  | table_genuine (w_table ?w) =>
      let v := eval vm_compute in (last (w_trace w)) in
      assert (E : last (w_trace w) = v) by (vm_compute; reflexivity)
  end.
  lazymatch type of E with
  | _ = Some (EvSyscall ?sa ?num ?args ?before ?during Killed) =>
      exact (Hrec sa num args before during true E)
  end.
Defined.

(** ** The running totals *)

Lemma count_events_snoc f t e :
  count_events f (t ++ [e]) = count_events f t + (if f e then 1 else 0).
Proof.
  unfold count_events. rewrite filter_app, length_app, Nat2Z.inj_add. f_equal.
  destruct (f e) eqn:He.
  - rewrite filter_cons_True by exact He. reflexivity.
  - rewrite filter_cons_False by (rewrite He; discriminate). reflexivity.
Qed.

Lemma int64_succ x : int64 (int64 x + 1) = int64 (x + 1).
Proof.
  unfold int64.
  replace ((x + 2 ^ 63) mod 2 ^ 64 - 2 ^ 63 + 1 + 2 ^ 63)
    with ((x + 2 ^ 63) mod 2 ^ 64 + 1) by lia.
  rewrite Zplus_mod_idemp_l. do 2 f_equal. lia.
Qed.

Lemma ulong_succ x : ulong (ulong x + 1) = ulong (x + 1).
Proof. unfold ulong. apply Zplus_mod_idemp_l. Qed.

Lemma counters_account_emit c0 w e :
  is_syscall e = false ->
  is_skip_on SYSCALL_CRASH e = false ->
  is_skip_on SYSCALL_ERRNO_ZERO e = false ->
  counters_account c0 w -> counters_account c0 (emit w e).
Proof.
  intros H1 H2 H3 (Hc & Hs & Hz). unfold counters_account.
  cbn [emit w_trace w_ctx]. rewrite !count_events_snoc, H1, H2, H3, !Z.add_0_r.
  auto.
Qed.

Lemma counters_account_leaf c0 env sa w :
  counters_account c0 w ->
  holds (counters_account c0) (counters_account c0) (syscall_leaf env sa w).
Proof.
  intros (Hc & Hs & Hz).
  destruct (syscall_leaf_cases env sa w)
    as [(h & _ & ->)
       | (_ & during & w' & Hduring & Htr & [(_ & -> & Hctx & _) | (ret & _ & -> & Hctx & _)])];
    cbn [holds]; unfold counters_account.
  - unfold count_skip.
    cbn [emit with_ctx w_trace w_ctx]. rewrite !count_events_snoc.
    cbn [is_syscall is_skip_on].
    destruct (h_type h =? SYSCALL_CRASH) eqn:H1.
    + apply Z.eqb_eq in H1. rewrite H1.
      change (SYSCALL_CRASH =? SYSCALL_ERRNO_ZERO) with false.
      cbn [set_skip_crashed ctx_counter ctx_skip_crashed ctx_skip_errno_zero].
      rewrite Hs, ulong_succ, !Z.add_0_r, Z.add_assoc. auto.
    + destruct (h_type h =? SYSCALL_ERRNO_ZERO) eqn:H2.
      * cbn [set_skip_errno_zero ctx_counter ctx_skip_crashed ctx_skip_errno_zero].
        rewrite Hz, ulong_succ, !Z.add_0_r, Z.add_assoc. auto.
      * rewrite !Z.add_0_r. auto.
  - rewrite Htr, Hctx, Hduring, !count_events_snoc.
    cbn [is_syscall is_skip_on set_type set_hash set_counter ctx_counter
           ctx_skip_crashed ctx_skip_errno_zero].
    rewrite Hc, int64_succ, !Z.add_0_r, Z.add_assoc. auto.
  - rewrite Htr, Hctx, Hduring, !count_events_snoc.
    cbn [is_syscall is_skip_on set_type set_hash set_counter ctx_counter
           ctx_skip_crashed ctx_skip_errno_zero].
    rewrite Hc, int64_succ, !Z.add_0_r, Z.add_assoc. auto.
Qed.

(** X6.  The running totals of the shared page account for every leaf the
    worker reached: [counter] has grown by the number of raw calls (as an
    [int64_t]), [skip_crashed] by the number of leaves that returned on a
    [SYSCALL_CRASH] node and [skip_errno_zero] by the number that returned
    on a [SYSCALL_ERRNO_ZERO] node (as [uint64_t]). *)
Theorem counters_account_for_every_leaf (P : platform) (g : globals)
    (env : environment) (syscall_args : list syscall_arg_t) (fuel : nat)
    (c : syscall_current_context_t) (tbl : gmap Z (list syscall_arg_hash_t)) :
  int64 (ctx_counter c) = ctx_counter c ->
  ulong (ctx_skip_crashed c) = ctx_skip_crashed c ->
  ulong (ctx_skip_errno_zero c) = ctx_skip_errno_zero c ->
  counters_account c (final_world (worker P g env syscall_args fuel (forked c tbl))).
Proof.
  intros Hc Hs Hz.
  assert (Hw : worker_holds (counters_account c) (counters_account c)
                 (worker P g env syscall_args fuel (forked c tbl))).
  { apply (worker_invariant P g env syscall_args
             (counters_account c) (counters_account c)
             (fun _ _ => counters_account c) (fun _ _ => counters_account c)).
    - intros w0 t Hw0. exact Hw0.
    - intros w0 r _ Hw0. apply counters_account_emit; [reflexivity .. | exact Hw0].
    - intros w0 Hw0. exact Hw0.
    - intros w0 j sa _ Hw0. exact Hw0.
    - intros j sa w0 t Hw0. exact Hw0.
    - intros j sa w0 Hw0. exact Hw0.
    - intros j sa w0 Hw0. exact Hw0.
    - intros j sa w0 ret Hw0 _.
      apply counters_account_emit; [reflexivity .. | exact Hw0].
    - intros j sa w0 t Hw0. exact Hw0.
    - intros j sa w0 k v Hw0. exact Hw0.
    - intros j sa w0 n a Hw0.
      apply counters_account_emit; [reflexivity .. | exact Hw0].
    - intros j sa w0. apply counters_account_leaf.
    - intros j sa w0 Hw0. exact Hw0.
    - unfold counters_account, count_events.
      cbn [forked w_trace w_ctx filter length Z.of_nat list_filter].
      rewrite !Z.add_0_r. auto. }
  destruct (worker P g env syscall_args fuel (forked c tbl)) as [w | w];
    cbn [worker_holds final_world] in *; [destruct Hw |]; assumption.
Qed.

(** The worker forked with the crash of [time(page_ptr)] on record, three
    passes over the seven pointer values: one leaf skipped on the crash
    record, twenty raw calls. *)
Lemma counters_account_for_every_leaf_witness :
  counters_account (zero_context 1) (final_world worker_after_crash)
  /\ ctx_counter (w_ctx (final_world worker_after_crash)) = 20
  /\ ctx_skip_crashed (w_ctx (final_world worker_after_crash)) = 1
  /\ ctx_skip_errno_zero (w_ctx (final_world worker_after_crash)) = 0.
Proof.
  split; [| repeat split; vm_compute; reflexivity].
  unfold worker_after_crash.
  apply counters_account_for_every_leaf; reflexivity.
Defined.

(** ** The hash table *)

(** X7.  A node that was added is the one a lookup for its argument words
    finds: it is put at the head of the bucket of its hash, in front of any
    older node with the same argument words, and its type is stored in eight
    bits.  The other buckets are untouched; when [calloc] fails the table is
    unchanged; after [hash_table_free] every bucket is empty. *)
Theorem hash_table_add_then_lookup (hash syscall_num type : Z) (args : list Z)
    (tbl : gmap Z (list syscall_arg_hash_t)) :
  chain_lookup (bucket (hash_table_add true hash syscall_num args type tbl) hash) args
  = Some {| h_hash := hash; h_syscall := syscall_num; h_args := args;
            h_type := type mod 256 |}
  /\ (forall i, i <> hash ->
        bucket (hash_table_add true hash syscall_num args type tbl) i = bucket tbl i)
  /\ hash_table_add false hash syscall_num args type tbl = tbl
  /\ (forall i,
        bucket (hash_table_free (hash_table_add true hash syscall_num args type tbl)) i
        = []).
Proof.
  split; [| split; [| split]].
  - rewrite bucket_add. cbn [andb]. rewrite bool_decide_eq_true_2 by reflexivity.
    cbn [chain_lookup h_args]. rewrite bool_decide_eq_true_2 by reflexivity.
    reflexivity.
  - intros i Hi. rewrite bucket_add. cbn [andb].
    rewrite bool_decide_eq_false_2 by congruence. reflexivity.
  - reflexivity.
  - intros i. unfold hash_table_free, bucket. rewrite lookup_empty. reflexivity.
Qed.

(** ** The shuffle *)

Lemma shuffle_steps_draws env sz (todo : list nat) reorder t :
  sz <> 0%nat ->
  snd (fold_left (shuffle_step env sz) todo (reorder, t)) = (t + length todo)%nat.
Proof.
  intros Hsz. revert reorder t.
  induction todo as [| i todo IH]; intros reorder t; cbn [fold_left length].
  - cbn [snd]. lia.
  - unfold shuffle_step at 2. destruct (Nat.eqb_spec sz 0) as [Hz | _]; [contradiction |].
    rewrite IH. lia.
Qed.

Lemma shuffle_rounds_draws env sz (rounds : list nat) reorder t :
  sz <> 0%nat ->
  snd (fold_left (fun st (_ : nat) => shuffle_round env sz st) rounds (reorder, t))
  = (t + length rounds * sz)%nat.
Proof.
  intros Hsz. revert reorder t.
  induction rounds as [| n rounds IH]; intros reorder t; cbn [fold_left length].
  - cbn [snd]. lia.
  - pose proof (shuffle_steps_draws env sz (seq 0 sz) reorder t Hsz) as Hround.
    fold (shuffle_round env sz (reorder, t)) in Hround.
    destruct (shuffle_round env sz (reorder, t)) as [reorder' t'].
    cbn [snd] in Hround. rewrite IH, Hround, length_seq. lia.
Qed.

(** X8.  One shuffle of an order array of [sz] entries draws exactly
    [5 * sz] numbers from [stress_mwc32]: five rounds of [sz] swaps, one draw
    per swap. *)
Theorem shuffle_draws (env : environment) (sz : nat) (reorder : list nat) (t : nat) :
  snd (shuffle env sz (reorder, t)) = (t + 5 * sz)%nat.
Proof.
  destruct (Nat.eq_dec sz 0) as [-> | Hsz].
  - cbn. lia.
  - unfold shuffle. rewrite shuffle_rounds_draws by exact Hsz.
    rewrite length_seq. reflexivity.
Qed.

(** ** The table of the supervisor *)

Lemma record_crash_crashes_only alloc_ok n c tbl :
  crashes_only tbl -> crashes_only (record_crash alloc_ok n c tbl).2.
Proof.
  intros Htbl. unfold record_crash.
  destruct (ctx_type c =? SYSCALL_CRASH); [| exact Htbl].
  cbn [snd]. intros i e. rewrite bucket_add.
  destruct (alloc_ok && bool_decide (ctx_hash c = i)) eqn:Hc; [| apply Htbl].
  apply andb_true_iff in Hc as [_ Hi]. apply bool_decide_eq_true in Hi.
  intros [-> | Hin]%elem_of_cons; [| apply Htbl, Hin].
  split; [reflexivity | exact Hi].
Qed.

Lemma stress_do_syscall_crashes_only P g syscall_args se s :
  crashes_only (s_table s) ->
  crashes_only (s_table (sup_state (stress_do_syscall P g syscall_args se s))).
Proof.
  intros Htbl. unfold stress_do_syscall.
  destruct (negb (sup_keep_stressing_flag se)); [exact Htbl |].
  destruct (sup_drop_capabilities se <? 0); [exact Htbl |].
  destruct (sup_fork se <? 0); [exact Htbl |].
  destruct (worker P g (sup_child se) syscall_args (sup_child_fuel se)
              (forked (s_ctx s) (s_table s))) as [w | w]; [| exact Htbl].
  pose proof (record_crash_crashes_only (sup_calloc se) (length syscall_args)
                (w_ctx w) (s_table s) Htbl) as Hrec.
  destruct (record_crash (sup_calloc se) (length syscall_args) (w_ctx w) (s_table s))
    as [c' tbl'].
  exact Hrec.
Qed.

(** X9.  Whatever the workers do and however the run goes, every node of
    the supervisor's table has the tag [SYSCALL_CRASH] and sits in the bucket
    named by its [hash] field: the zero-return records of the workers never
    reach the supervisor. *)
Theorem supervisor_table_holds_crashes_only (P : platform) (g : globals)
    (syscall_args : list syscall_arg_t) (script : list supervisor_env) :
  crashes_only
    (s_table (sup_state (stress_sysinval_child P g syscall_args script
                           (initial_supervisor syscall_args)))).
Proof.
  assert (Hgen : forall s, crashes_only (s_table s) ->
            crashes_only
              (s_table (sup_state (stress_sysinval_child P g syscall_args script s)))).
  { induction script as [| se script IH]; intros s Hs; [exact Hs |].
    cbn [stress_sysinval_child].
    pose proof (stress_do_syscall_crashes_only P g syscall_args se s Hs) as Hstep.
    destruct (stress_do_syscall P g syscall_args se s) as [s' | s' | s'];
      cbn [sup_state] in *; [apply IH, Hstep | exact Hstep | exact Hstep]. }
  apply Hgen. intros i e Hin. cbn in Hin. unfold bucket in Hin.
  rewrite lookup_empty in Hin. apply elem_of_nil in Hin. destruct Hin.
Qed.

(** ** The argument words beyond the arity *)

(** The scheme of [RunInvariant] with the permutation engine taken as a
    whole and the two results of [setitimer] kept apart: for invariants
    that depend on the argument position or on the timer. *)
Section EngineInvariant.

Variable P : platform.
Variable g : globals.
Variable env : environment.
Variable syscall_args : list syscall_arg_t.
Variables IA ID : world -> Prop.
Variables IPub IEng : nat -> syscall_arg_t -> world -> Prop.

Hypothesis IA_clock : forall w t, IA w -> IA (set_clock w t).
Hypothesis IA_pass : forall w r, IA w -> IA (emit w (EvPass r)).
Hypothesis IA_free :
  forall w, IA w -> IA (with_table w (hash_table_free (w_table w))).
Hypothesis IA_publish :
  forall w j sa, syscall_args !! j = Some sa -> IA w -> IPub j sa (publish w j sa).
Hypothesis IPub_clock : forall j sa w t, IPub j sa w -> IPub j sa (set_clock w t).
Hypothesis IPub_dead : forall j sa w, IPub j sa w -> ID w.
Hypothesis IPub_skip : forall j sa w, IPub j sa w -> IA w.
Hypothesis IPub_failed :
  forall j sa w ret,
    IPub j sa w -> ret < 0 -> IA (emit w (EvSetitimer j ret)).
Hypothesis IPub_armed :
  forall j sa w ret,
    IPub j sa w -> 0 <= ret -> IEng j sa (emit w (EvSetitimer j ret)).
Hypothesis IEng_clock : forall j sa w t, IEng j sa w -> IEng j sa (set_clock w t).
Hypothesis IEng_permute :
  forall j sa w, IEng j sa w -> holds IA ID (syscall_permute P g env 0 sa w).

Lemma visit_keeps j w :
  IA w -> holds IA ID (visit P g env syscall_args j w).
Proof.
  intros Hw. unfold visit.
  destruct (syscall_args !! j) as [sa |] eqn:Hsa; [| exact Hw].
  pose proof (IA_publish w j sa Hsa Hw) as Hpub.
  set (w1 := publish w j sa) in *.
  destruct (env_signal env (w_clock w1)).
  - apply (IPub_dead j sa), (IPub_clock j sa _ (S (w_clock w1))), Hpub.
  - change (w_ctx (tick w1)) with (w_ctx w1).
    destruct (MAX_CRASHES <=? nth j (ctx_crash_count (w_ctx w1)) 0).
    + apply (IPub_skip j sa), (IPub_clock j sa _ (S (w_clock w1))), Hpub.
    + destruct (Z.ltb_spec (env_setitimer env (w_clock (tick w1))) 0)
        as [Hneg | Hpos].
      * apply (IA_clock _ (S (S (w_clock w1)))
                 (IPub_failed j sa w1 _ Hpub Hneg)).
      * apply (IEng_permute j sa).
        apply (IEng_clock j sa _ (S (S (w_clock w1)))
                 (IPub_armed j sa w1 _ Hpub Hpos)).
Qed.

Lemma pass_loop_keeps todo reorder w :
  IA w -> holds IA ID (pass_loop P g env syscall_args todo reorder w).
Proof.
  revert w. induction todo as [| i todo IH]; intros w Hw; cbn [pass_loop].
  - destruct (env_keep_stressing env (w_clock w));
      apply (IA_clock w (S (w_clock w))), Hw.
  - destruct (env_keep_stressing env (w_clock w)).
    + apply (and_then_holds IA); [| exact IH].
      apply visit_keeps, (IA_clock w (S (w_clock w))), Hw.
    + apply (IA_clock w (S (w_clock w))), Hw.
Qed.

Lemma worker_loop_keeps fuel reorder w :
  IA w -> worker_holds IA ID (worker_loop P g env syscall_args fuel reorder w).
Proof.
  revert reorder w. induction fuel as [| fuel IH]; intros reorder w Hw.
  - exact Hw.
  - cbn [worker_loop].
    destruct (env_keep_stressing_flag env (w_clock w)).
    + destruct (shuffle env (N syscall_args) (reorder, w_clock (tick w)))
        as [reorder' t'].
      assert (Hstart : IA (emit (set_clock (tick w) t') (EvPass reorder'))).
      { apply IA_pass, IA_clock, (IA_clock w (S (w_clock w))), Hw. }
      pose proof (pass_loop_keeps (seq 0 (N syscall_args)) reorder' _ Hstart) as Hpass.
      destruct (pass_loop P g env syscall_args (seq 0 (N syscall_args)) reorder' _)
        as [w' | w'].
      * apply IH, IA_free, Hpass.
      * right. exact Hpass.
    + left. apply (IA_clock w (S (w_clock w))), Hw.
Qed.

Lemma worker_keeps fuel w :
  IA w -> worker_holds IA ID (worker P g env syscall_args fuel w).
Proof.
  intros Hw. unfold worker.
  destruct (env_setup_ok env); [| left; exact Hw].
  apply worker_loop_keeps. exact Hw.
Qed.

End EngineInvariant.

Lemma select_values_world P g env arg w :
  w_ctx (select_values P g env arg w).2 = w_ctx w
  /\ w_trace (select_values P g env arg w).2 = w_trace w.
Proof.
  unfold select_values.
  destruct (arg =? ARG_NONE); [split; reflexivity |].
  destruct (arg =? ARG_RND); [split; reflexivity |].
  destruct (find_arg_values arg (arg_values P g)); split; reflexivity.
Qed.

Lemma args_zero_from_store k c v :
  args_zero_from (S k) c ->
  args_zero_from (S k) (set_args c (store (ctx_args c) k v)).
Proof.
  intros Hc i Hi. cbn [set_args ctx_args]. unfold store.
  rewrite nth_lookup, list_lookup_insert_ne by lia. rewrite <- nth_lookup.
  apply Hc, Hi.
Qed.

Lemma args_zero_from_reset k c :
  args_zero_from (S k) c ->
  args_zero_from k (set_args c (store (ctx_args c) k 0)).
Proof.
  intros Hc i Hi. cbn [set_args ctx_args]. unfold store.
  destruct (decide (i = k)) as [-> | Hne].
  - rewrite nth_lookup.
    destruct (decide (k < length (ctx_args c))%nat) as [Hlt | Hge].
    + rewrite list_lookup_insert_eq by exact Hlt. reflexivity.
    + rewrite list_insert_ge by lia.
      rewrite lookup_ge_None_2 by lia. reflexivity.
  - rewrite nth_lookup, list_lookup_insert_ne by congruence. rewrite <- nth_lookup.
    apply Hc. lia.
Qed.

Lemma tails_zero_emit w e : tail_is_zero e -> tails_zero w -> tails_zero (emit w e).
Proof.
  intros He Hw. unfold tails_zero. cbn [emit w_trace].
  apply Forall_app. split; [exact Hw | apply Forall_singleton, He].
Qed.

Lemma leaf_tail_zero env sa w :
  tails_zero_from (Z.to_nat (sa_num_args sa)) w ->
  holds (tails_zero_from (Z.to_nat (sa_num_args sa))) tails_zero (syscall_leaf env sa w).
Proof.
  intros [Hargs Hw].
  assert (Hev : forall before during r,
            tail_is_zero (EvSyscall sa (sa_syscall sa) (ctx_args (w_ctx w))
                            before during r)).
  { intros before during r i Hi. apply Hargs, Hi. }
  destruct (syscall_leaf_cases env sa w)
    as [(h & _ & ->)
       | (_ & during & w' & Hduring & Htr & [(_ & -> & Hctx & _) | (ret & _ & -> & Hctx & _)])];
    cbn [holds].
  - destruct (count_skip_fields h (w_ctx w)) as (_ & _ & _ & Ha). split.
    + intros i Hi. cbn [emit with_ctx w_ctx]. rewrite Ha. apply Hargs, Hi.
    + apply (tails_zero_emit (with_ctx w (count_skip h (w_ctx w)))); [exact I | exact Hw].
  - unfold tails_zero. rewrite Htr. apply Forall_app.
    split; [exact Hw | apply Forall_singleton, Hev].
  - split.
    + intros i Hi. rewrite Hctx, Hduring. cbn. apply Hargs, Hi.
    + unfold tails_zero. rewrite Htr. apply Forall_app.
      split; [exact Hw | apply Forall_singleton, Hev].
Qed.

(** The engine from position [k] on, with [rem] positions left to fill. *)
Lemma permute_from_tail_zero P g env sa rem k w :
  (k + rem)%nat = Z.to_nat (sa_num_args sa) ->
  tails_zero_from k w ->
  holds (tails_zero_from k) tails_zero (permute_from P g env rem k sa w).
Proof.
  revert k w. induction rem as [| rem IH]; intros k w Hk Hw.
  - rewrite Nat.add_0_r in Hk. subst k. apply leaf_tail_zero, Hw.
  - cbn [permute_from].
    destruct (select_values_world P g env (arg_word (sa_args sa) k) w) as [Hc Ht].
    destruct (select_values P g env (arg_word (sa_args sa) k) w)
      as [[values num_values] w1].
    cbn [snd] in Hc, Ht.
    assert (Hw1 : tails_zero_from k w1).
    { destruct Hw as [Ha Hw]. split; [unfold args_zero_from; rewrite Hc; exact Ha |].
      unfold tails_zero. rewrite Ht. exact Hw. }
    assert (Hreset : forall w2, tails_zero_from (S k) w2 ->
              tails_zero_from k (set_arg w2 k 0)).
    { intros w2 [Ha Hw2]. split; [apply args_zero_from_reset, Ha | exact Hw2]. }
    assert (Hup : forall w2, tails_zero_from k w2 -> tails_zero_from (S k) w2).
    { intros w2 [Ha Hw2]. split; [| exact Hw2]. intros i Hi. apply Ha. lia. }
    destruct num_values as [| n].
    + cbn [holds]. apply Hreset.
      destruct (Hup _ Hw1) as [Ha Hw']. split; [exact Ha |].
      apply tails_zero_emit; [exact I | exact Hw'].
    + apply for_each_holds; [| exact Hw1].
      intros v w2 Hw2.
      apply (and_then_holds (tails_zero_from (S k))).
      * apply IH; [lia |]. destruct (Hup _ Hw2) as [Ha Hw']. split; [| exact Hw'].
        apply args_zero_from_store, Ha.
      * intros w3 Hw3. cbn [holds]. apply Hreset, Hw3.
Qed.

(** X10.  Every raw call of a worker passes zero in the argument words
    beyond the arity of its descriptor: the words are cleared when the
    descriptor is published, and the engine puts a zero back into each
    position when it has gone through its values. *)
Theorem unused_arguments_are_zero (P : platform) (g : globals) (env : environment)
    (syscall_args : list syscall_arg_t) (fuel : nat)
    (c : syscall_current_context_t) (tbl : gmap Z (list syscall_arg_hash_t)) :
  Forall tail_is_zero
    (w_trace (final_world (worker P g env syscall_args fuel (forked c tbl)))).
Proof.
  assert (Hw : worker_holds tails_zero tails_zero
                 (worker P g env syscall_args fuel (forked c tbl))).
  { apply (worker_keeps P g env syscall_args tails_zero tails_zero
             (fun _ _ => tails_zero_from 0) (fun _ _ => tails_zero_from 0)).
    - intros w0 t Hw0. exact Hw0.
    - intros w0 r Hw0. apply tails_zero_emit; [exact I | exact Hw0].
    - intros w0 Hw0. exact Hw0.
    - intros w0 j sa _ Hw0. split; [| exact Hw0].
      intros i _. unfold publish.
      cbn [with_ctx w_ctx set_descriptor set_args ctx_args]. rewrite nth_lookup.
      destruct (decide (i < 6)%nat) as [Hlt | Hge].
      + rewrite lookup_replicate_2 by exact Hlt. reflexivity.
      + rewrite lookup_ge_None_2 by (rewrite length_replicate; lia). reflexivity.
    - intros j sa w0 t Hw0. exact Hw0.
    - intros j sa w0 [_ Hw0]. exact Hw0.
    - intros j sa w0 [_ Hw0]. exact Hw0.
    - intros j sa w0 ret [_ Hw0] _. apply tails_zero_emit; [exact I | exact Hw0].
    - intros j sa w0 ret [Ha Hw0] _. split; [exact Ha |].
      apply tails_zero_emit; [exact I | exact Hw0].
    - intros j sa w0 t Hw0. exact Hw0.
    - intros j sa w0 Hw0. unfold syscall_permute.
      apply (holds_weaken (tails_zero_from 0)); [| intros w1 [_ Hw1]; exact Hw1].
      apply permute_from_tail_zero; [lia | exact Hw0].
    - apply Forall_nil_2. }
  destruct (worker P g env syscall_args fuel (forked c tbl)) as [w | w];
    cbn [worker_holds final_world] in *; [destruct Hw |]; assumption.
Qed.

(** ** Startup and shutdown *)

Lemma land_clears_low_bits x k :
  0 <= k < ULONG_BITS -> 0 <= x < ULONG_MOD ->
  Z.land x (ulong (Z.lnot (ulong (2 ^ k - 1)))) = x / 2 ^ k * 2 ^ k.
Proof.
  intros Hk Hx. unfold ULONG_MOD, ULONG_BITS in *.
  assert (Hp : 0 < 2 ^ k < 2 ^ 64).
  { split; [apply Z.pow_pos_nonneg; lia | apply Z.pow_lt_mono_r; lia]. }
  rewrite (ulong_small (2 ^ k - 1)) by (unfold ULONG_MOD, ULONG_BITS; lia).
  replace (2 ^ k - 1) with (Z.ones k) by (rewrite Z.ones_equiv; lia).
  unfold ulong, ULONG_MOD, ULONG_BITS.
  rewrite <- (Z.land_ones _ 64) by lia.
  rewrite Z.land_assoc, (Z.land_comm x), <- Z.land_assoc.
  rewrite (Z.land_ones x 64), (Z.mod_small x) by lia.
  rewrite Z.land_comm, <- Z.ldiff_land, Z.ldiff_ones_r by lia.
  rewrite Z.shiftl_mul_pow2, Z.shiftr_div_pow2 by lia. reflexivity.
Qed.

(** X14.  For a page size that is a power of two, the size of the mapping
    made for the shared page is a whole number of pages, it is larger than
    the structure, and it exceeds the structure by at most one page. *)
Theorem current_context_size_is_whole_pages (sizeof_context k : Z) :
  0 <= k < ULONG_BITS ->
  0 <= sizeof_context ->
  sizeof_context + 2 ^ k < ULONG_MOD ->
  current_context_size sizeof_context (2 ^ k)
  = (sizeof_context / 2 ^ k + 1) * 2 ^ k
  /\ sizeof_context < current_context_size sizeof_context (2 ^ k)
     <= sizeof_context + 2 ^ k.
Proof.
  intros Hk Hs Hsum.
  assert (Hp : 0 < 2 ^ k) by (apply Z.pow_pos_nonneg; lia).
  assert (Heq : current_context_size sizeof_context (2 ^ k)
                = (sizeof_context / 2 ^ k + 1) * 2 ^ k).
  { unfold current_context_size.
    rewrite (ulong_small (sizeof_context + 2 ^ k)) by lia.
    rewrite land_clears_low_bits by lia.
    rewrite <- (Z.mul_1_l (2 ^ k)) at 1. rewrite Z.div_add by lia. reflexivity. }
  split; [exact Heq |]. rewrite Heq.
  pose proof (Z.div_mod sizeof_context (2 ^ k) ltac:(lia)) as Hdm.
  pose proof (Z.mod_pos_bound sizeof_context (2 ^ k) Hp) as Hm.
  nia.
Qed.

(** The shared page of a build whose structure takes 0x2080 bytes, with
    pages of 4096 bytes: three pages. *)
Lemma current_context_size_is_whole_pages_witness :
  current_context_size 0x2080 (2 ^ 12) = (0x2080 / 2 ^ 12 + 1) * 2 ^ 12
  /\ 0x2080 < current_context_size 0x2080 (2 ^ 12) <= 0x2080 + 2 ^ 12.
Proof.
  apply current_context_size_is_whole_pages;
    unfold ULONG_MOD, ULONG_BITS; lia.
Defined.

Lemma bytes_left_app l1 l2 : bytes_left (l1 ++ l2) = bytes_left l1 + bytes_left l2.
Proof.
  unfold bytes_left. rewrite fold_left_app.
  generalize (fold_left
                (fun n e => match e with
                            | ResMmap _ size => n + size
                            | ResMunmap _ size => n - size
                            | _ => n
                            end) l1 0).
  induction l2 as [| e l2 IH]; intros n; cbn [fold_left]; [lia |].
  rewrite IH, (IH (match e with
                   | ResMmap _ size => 0 + size
                   | ResMunmap _ size => 0 - size
                   | _ => 0
                   end)).
  destruct e; lia.
Qed.

Lemma closed_fds_app l1 l2 : closed_fds (l1 ++ l2) = closed_fds l1 ++ closed_fds l2.
Proof. unfold closed_fds. apply flat_map_app. Qed.

(** X15.  When the three mappings succeed, [stress_sysinval] gives back
    every byte it mapped, with or without [mprotect], closes the socket
    exactly when [socket()] had returned a descriptor, frees the hash table
    last, and returns what [stress_oomable_child] returned. *)
Theorem stress_sysinval_releases_what_it_maps (have_mprotect : bool)
    (sizeof_context page_size sock m_ctx m_small m_page ret : Z) :
  0 <= page_size -> 2 * page_size < ULONG_MOD ->
  m_ctx <> MAP_FAILED -> m_small <> MAP_FAILED -> m_page <> MAP_FAILED ->
  bytes_left
    (stress_sysinval_resources have_mprotect sizeof_context page_size sock
       m_ctx m_small m_page ret).1 = 0
  /\ closed_fds
       (stress_sysinval_resources have_mprotect sizeof_context page_size sock
          m_ctx m_small m_page ret).1
     = (if sock >=? 0 then [sock] else [])
  /\ last (stress_sysinval_resources have_mprotect sizeof_context page_size sock
             m_ctx m_small m_page ret).1
     = Some ResHashTableFree
  /\ (stress_sysinval_resources have_mprotect sizeof_context page_size sock
        m_ctx m_small m_page ret).2
     = ChildStatus ret.
Proof.
  intros Hp Hp2 Hctx Hsmall Hpage. unfold stress_sysinval_resources.
  rewrite (proj2 (Z.eqb_neq _ _) Hctx), (proj2 (Z.eqb_neq _ _) Hsmall).
  assert (Hsz : ulong (Z.shiftl page_size 1) = 2 * page_size).
  { rewrite Z.shiftl_mul_pow2 by lia. change (2 ^ 1) with 2.
    rewrite (Z.mul_comm page_size). apply ulong_small. lia. }
  rewrite Hsz.
  assert (Hhalf : ulong (2 * page_size - page_size) = page_size)
    by (replace (2 * page_size - page_size) with page_size by lia;
        apply ulong_small; lia).
  destruct have_mprotect; rewrite ?Hhalf, (proj2 (Z.eqb_neq _ _) Hpage);
    cbn [fst snd]; destruct (sock >=? 0);
    rewrite ?last_snoc, ?bytes_left_app, ?closed_fds_app;
    (split; [cbn; lia | split; [reflexivity | split; reflexivity]]).
Qed.

Lemma stress_sysinval_releases_what_it_maps_witness :
  bytes_left
    (stress_sysinval_resources true 0x2080 demo_page_size 3 0x7f3a5e400000
       demo_small_ptr demo_page_ptr 0).1 = 0
  /\ closed_fds
       (stress_sysinval_resources true 0x2080 demo_page_size 3 0x7f3a5e400000
          demo_small_ptr demo_page_ptr 0).1
     = (if 3 >=? 0 then [3] else [])
  /\ last (stress_sysinval_resources true 0x2080 demo_page_size 3 0x7f3a5e400000
             demo_small_ptr demo_page_ptr 0).1
     = Some ResHashTableFree
  /\ (stress_sysinval_resources true 0x2080 demo_page_size 3 0x7f3a5e400000
        demo_small_ptr demo_page_ptr 0).2
     = ChildStatus 0.
Proof.
  apply stress_sysinval_releases_what_it_maps;
    unfold demo_page_size, demo_small_ptr, demo_page_ptr, MAP_FAILED, ulong,
      ULONG_MOD, ULONG_BITS; first [lia | discriminate].
Defined.

(** X16.  When the second or the third [mmap] fails, [stress_sysinval]
    returns [EXIT_NO_RESOURCE] after unmapping one page of the shared page
    only, whatever the size it was mapped with, and without closing the
    socket: the bytes left mapped are the size of that mapping less one
    page. *)
Theorem failed_start_unmaps_one_page (have_mprotect : bool)
    (sizeof_context page_size sock m_ctx m_small m_page ret : Z) :
  0 <= page_size -> 2 * page_size < ULONG_MOD ->
  m_ctx <> MAP_FAILED ->
  m_small = MAP_FAILED \/ m_page = MAP_FAILED ->
  bytes_left
    (stress_sysinval_resources have_mprotect sizeof_context page_size sock
       m_ctx m_small m_page ret).1
  = current_context_size sizeof_context page_size - page_size
  /\ closed_fds
       (stress_sysinval_resources have_mprotect sizeof_context page_size sock
          m_ctx m_small m_page ret).1 = []
  /\ (stress_sysinval_resources have_mprotect sizeof_context page_size sock
        m_ctx m_small m_page ret).2
     = NoResource.
Proof.
  intros Hp Hp2 Hctx Hfail. unfold stress_sysinval_resources.
  rewrite (proj2 (Z.eqb_neq _ _) Hctx).
  assert (Hsz : ulong (Z.shiftl page_size 1) = 2 * page_size).
  { rewrite Z.shiftl_mul_pow2 by lia. change (2 ^ 1) with 2.
    rewrite (Z.mul_comm page_size). apply ulong_small. lia. }
  rewrite Hsz.
  assert (Hhalf : ulong (2 * page_size - page_size) = page_size)
    by (replace (2 * page_size - page_size) with page_size by lia;
        apply ulong_small; lia).
  destruct (Z.eqb_spec m_small MAP_FAILED) as [Hs | Hs].
  - cbn [fst snd]. rewrite ?bytes_left_app.
    split; [cbn; lia | split; reflexivity].
  - destruct Hfail as [Hfail | Hfail]; [contradiction |].
    rewrite Hfail.
    destruct have_mprotect; rewrite ?Hhalf, Z.eqb_refl; cbn [fst snd];
      rewrite ?bytes_left_app; (split; [cbn; lia | split; reflexivity]).
Qed.

(** With a structure of 0x2080 bytes and pages of 4096 bytes, a failure of
    the second [mmap] leaves two of the three pages of the shared page
    mapped. *)
Lemma failed_start_unmaps_one_page_witness :
  bytes_left
    (stress_sysinval_resources true 0x2080 demo_page_size 3 0x7f3a5e400000
       MAP_FAILED demo_page_ptr 0).1
  = current_context_size 0x2080 demo_page_size - demo_page_size
  /\ closed_fds
       (stress_sysinval_resources true 0x2080 demo_page_size 3 0x7f3a5e400000
          MAP_FAILED demo_page_ptr 0).1 = []
  /\ (stress_sysinval_resources true 0x2080 demo_page_size 3 0x7f3a5e400000
        MAP_FAILED demo_page_ptr 0).2
     = NoResource.
Proof.
  apply failed_start_unmaps_one_page;
    unfold demo_page_size, MAP_FAILED, ulong, ULONG_MOD, ULONG_BITS;
    first [lia | discriminate | left; reflexivity].
Defined.

(** ** The type of the page when a worker ends *)






(** ** The timer *)

Lemma armed_after_snoc t e : armed_after (t ++ [e]) = timer_step (armed_after t) e.
Proof. unfold armed_after. rewrite fold_left_app. reflexivity. Qed.

Lemma under_timer_snoc t e :
  under_timer t ->
  (forall sa num args before during r,
      e = EvSyscall sa num args before during r ->
      armed_after t = Some (ctx_idx during)) ->
  under_timer (t ++ [e]).
Proof.
  intros Ht He t1 sa num args before during r t2 Heq.
  destruct t2 as [| x t2] using rev_ind.
  - apply app_inj_tail in Heq as [-> ->]. eapply He. reflexivity.
  - clear IHt2. rewrite app_comm_cons, app_assoc in Heq.
    apply app_inj_tail in Heq as [-> _]. eapply Ht. reflexivity.
Qed.

Lemma under_timer_emit w e :
  is_syscall e = false -> timer_kept w -> timer_kept (emit w e).
Proof.
  intros He Hw. unfold timer_kept. cbn [emit w_trace].
  apply under_timer_snoc; [exact Hw |].
  intros sa num args before during r ->. discriminate He.
Qed.

Lemma timer_armed_emit j sa w e :
  is_syscall e = false -> timer_step (Some j) e = Some j ->
  timer_armed j sa w -> timer_armed j sa (emit w e).
Proof.
  intros He Hstep (Hw & Harm & Hidx). split; [| split].
  - apply (under_timer_emit w e He Hw).
  - cbn [emit w_trace]. rewrite armed_after_snoc, Harm. exact Hstep.
  - exact Hidx.
Qed.

Lemma timer_armed_leaf env j sa w :
  timer_armed j sa w -> holds (timer_armed j sa) timer_kept (syscall_leaf env sa w).
Proof.
  intros (Hw & Harm & Hidx).
  assert (Hcall : forall during r,
            ctx_idx during = j ->
            under_timer
              (w_trace w
               ++ [EvSyscall sa (sa_syscall sa) (ctx_args (w_ctx w)) (w_ctx w) during r])).
  { intros during r Hd. apply under_timer_snoc; [exact Hw |].
    intros sa' num args before during' r' [= _ _ _ _ <- _]. rewrite Hd. exact Harm. }
  destruct (syscall_leaf_cases env sa w)
    as [(h & _ & ->)
       | (_ & during & w' & Hduring & Htr & [(_ & -> & Hctx & _) | (ret & _ & -> & Hctx & _)])];
    cbn [holds].
  - destruct (count_skip_fields h (w_ctx w)) as (Hi & _ & _ & _).
    apply (timer_armed_emit j sa (with_ctx w (count_skip h (w_ctx w))));
      [reflexivity | reflexivity |].
    split; [exact Hw | split; [exact Harm |]].
    cbn [with_ctx w_ctx]. rewrite Hi. exact Hidx.
  - unfold timer_kept. rewrite Htr. apply Hcall. rewrite Hduring. exact Hidx.
  - split; [| split].
    + rewrite Htr. apply Hcall. rewrite Hduring. exact Hidx.
    + rewrite Htr, armed_after_snoc, Harm. reflexivity.
    + rewrite Hctx, Hduring. exact Hidx.
Qed.

(** X18.  No raw call is made without the timer: for every raw call of a
    worker, the last [setitimer] before the call succeeded and was made for
    the descriptor the call belongs to. *)
Theorem every_call_is_under_the_timer (P : platform) (g : globals)
    (env : environment) (syscall_args : list syscall_arg_t) (fuel : nat)
    (c : syscall_current_context_t) (tbl : gmap Z (list syscall_arg_hash_t)) :
  under_timer (w_trace (final_world (worker P g env syscall_args fuel (forked c tbl)))).
Proof.
  assert (Hw : worker_holds timer_kept timer_kept
                 (worker P g env syscall_args fuel (forked c tbl))).
  { apply (worker_keeps P g env syscall_args timer_kept timer_kept
             (fun j _ w => timer_kept w /\ ctx_idx (w_ctx w) = j) timer_armed).
    - intros w0 t Hw0. exact Hw0.
    - intros w0 r Hw0. apply under_timer_emit; [reflexivity | exact Hw0].
    - intros w0 Hw0. exact Hw0.
    - intros w0 j sa _ Hw0. split; [exact Hw0 | reflexivity].
    - intros j sa w0 t Hw0. exact Hw0.
    - intros j sa w0 [Hw0 _]. exact Hw0.
    - intros j sa w0 [Hw0 _]. exact Hw0.
    - intros j sa w0 ret [Hw0 _] _. apply under_timer_emit; [reflexivity | exact Hw0].
    - intros j sa w0 ret [Hw0 Hidx] Hret. split; [| split; [| exact Hidx]].
      + apply (under_timer_emit w0); [reflexivity | exact Hw0].
      + cbn [emit w_trace]. rewrite armed_after_snoc. cbn [timer_step].
        destruct (Z.ltb_spec ret 0); [lia | reflexivity].
    - intros j sa w0 t Hw0. exact Hw0.
    - intros j sa w0 Hw0. unfold syscall_permute.
      apply (holds_weaken (timer_armed j sa)); [| intros w1 [Hw1 _]; exact Hw1].
      apply (permute_from_holds P g env timer_kept timer_armed).
      + intros j' sa' w1 t Hw1. exact Hw1.
      + intros j' sa' w1 i v Hw1. exact Hw1.
      + intros j' sa' w1 n a Hw1.
        apply timer_armed_emit; [reflexivity | reflexivity | exact Hw1].
      + intros j' sa' w1. apply timer_armed_leaf.
      + exact Hw0.
    - intros t1 sa num args before during r t2 Heq.
      destruct t1; discriminate Heq. }
  destruct (worker P g env syscall_args fuel (forked c tbl)) as [w | w];
    cbn [worker_holds final_world] in *; [destruct Hw |]; assumption.
Qed.

(** ** The table of value tables *)

(** X19.  No entry of [arg_values] is hidden by an earlier one: the scan for
    the mask of an entry stops at that entry.  In particular the entry for
    [ARG_PTR | ARG_STRUCT_SOCKADDR] comes before the entry for [ARG_PTR],
    whose mask it contains. *)
Theorem arg_values_entries_are_reachable (P : platform) (g : globals)
    (e : syscall_arg_values_t) :
  e ∈ arg_values P g -> find_arg_values (av_mask e) (arg_values P g) = Some e.
Proof.
  unfold arg_values. intros He.
  repeat (apply elem_of_cons in He as [-> | He]; [reflexivity |]).
  apply elem_of_nil in He. destruct He.
Qed.

Lemma arg_values_entries_are_reachable_witness :
  find_arg_values (av_mask (ARG_VALUE ARG_PTR (ptrs demo_globals)))
    (arg_values x86_64 demo_globals)
  = Some (ARG_VALUE ARG_PTR (ptrs demo_globals)).
Proof.
  apply arg_values_entries_are_reachable.
  unfold arg_values. do 22 apply list_elem_of_further. apply list_elem_of_here.
Defined.

(** ** The argument words are machine words *)

Lemma is_word_ulong z : is_word (ulong z).
Proof. apply ulong_range. Qed.

Lemma is_word_SHR_UL v s : is_word (SHR_UL v s).
Proof. apply ulong_range. Qed.

Ltac words_of_table :=
  repeat first
    [ apply Forall_nil_2
    | apply Forall_cons_2
    | apply is_word_ulong
    | apply is_word_SHR_UL
    | (unfold is_word, ULONG_MOD, ULONG_BITS; lia) ].

Lemma find_arg_values_elem arg tbl e :
  find_arg_values arg tbl = Some e -> e ∈ tbl.
Proof.
  induction tbl as [| x tbl IH]; cbn [find_arg_values]; [discriminate |].
  destruct (ARG_MASK arg (av_mask x)).
  - intros [= ->]. apply list_elem_of_here.
  - intros Hf. apply list_elem_of_further, IH, Hf.
Qed.

Lemma arg_values_words P g e :
  platform_words P -> globals_words g ->
  e ∈ arg_values P g -> Forall is_word (av_values e).
Proof.
  intros HP (Hsockfds & Hsockaddrs & Hptrs & Hfutex & Hnon_null) He.
  assert (Hpids : Forall is_word (pids P)).
  { unfold pids. apply Forall_map, Forall_forall. intros i _. apply HP. }
  assert (Hgids : Forall is_word (gids P)).
  { unfold gids. apply Forall_map, Forall_forall. intros i _. apply HP. }
  assert (Huids : Forall is_word (uids P)).
  { unfold uids. apply Forall_map, Forall_forall. intros i _. apply HP. }
  unfold arg_values in He.
  repeat (apply elem_of_cons in He as [-> | He];
          [cbn [ARG_VALUE av_values]; first [assumption | words_of_table] |]).
  apply elem_of_nil in He. destruct He.
Qed.

Lemma select_values_words P g env arg w :
  platform_words P -> globals_words g ->
  Forall is_word
    (candidate_values (select_values P g env arg w).1.1
       (select_values P g env arg w).1.2).
Proof.
  intros HP Hg. unfold candidate_values. apply Forall_map, Forall_forall.
  intros i _. apply arg_word_word. unfold select_values.
  destruct (arg =? ARG_NONE); [cbn [fst]; words_of_table |].
  destruct (arg =? ARG_RND); [cbn [fst]; words_of_table |].
  destruct (find_arg_values arg (arg_values P g)) as [e |] eqn:He;
    cbn [fst]; [| apply Forall_nil_2].
  apply (arg_values_words P g e HP Hg), find_arg_values_elem with arg, He.
Qed.

Lemma calls_with_words_emit w e :
  args_are_words e -> calls_with_words w -> calls_with_words (emit w e).
Proof.
  intros He Hw. unfold calls_with_words. cbn [emit w_trace].
  apply Forall_app. split; [exact Hw | apply Forall_singleton, He].
Qed.

Lemma page_with_words_set_arg w k v :
  is_word v -> page_with_words w -> page_with_words (set_arg w k v).
Proof.
  intros Hv [Ha Hw]. split; [| exact Hw].
  cbn [set_arg with_ctx w_ctx set_args ctx_args]. unfold store.
  apply Forall_insert; assumption.
Qed.

Lemma leaf_with_words env sa w :
  page_with_words w ->
  holds page_with_words calls_with_words (syscall_leaf env sa w).
Proof.
  intros [Ha Hw].
  destruct (syscall_leaf_cases env sa w)
    as [(h & _ & ->)
       | (_ & during & w' & Hduring & Htr & [(_ & -> & Hctx & _) | (ret & _ & -> & Hctx & _)])];
    cbn [holds].
  - destruct (count_skip_fields h (w_ctx w)) as (_ & _ & _ & Hargs). split.
    + cbn [emit with_ctx w_ctx]. rewrite Hargs. exact Ha.
    + apply (calls_with_words_emit (with_ctx w (count_skip h (w_ctx w))));
        [exact I | exact Hw].
  - unfold calls_with_words. rewrite Htr. apply Forall_app.
    split; [exact Hw | apply Forall_singleton, Ha].
  - split.
    + rewrite Hctx, Hduring. exact Ha.
    + unfold calls_with_words. rewrite Htr. apply Forall_app.
      split; [exact Hw | apply Forall_singleton, Ha].
Qed.

Lemma permute_from_with_words P g env sa rem k w :
  platform_words P -> globals_words g ->
  page_with_words w ->
  holds page_with_words calls_with_words (permute_from P g env rem k sa w).
Proof.
  intros HP Hg. revert k w. induction rem as [| rem IH]; intros k w Hw.
  - apply leaf_with_words, Hw.
  - cbn [permute_from].
    pose proof (select_values_words P g env (arg_word (sa_args sa) k) w HP Hg)
      as Hvals.
    destruct (select_values_world P g env (arg_word (sa_args sa) k) w) as [Hc Ht].
    destruct (select_values P g env (arg_word (sa_args sa) k) w)
      as [[values num_values] w1].
    cbn [fst snd] in Hvals, Hc, Ht.
    assert (Hw1 : page_with_words w1).
    { destruct Hw as [Ha Hw]. split; [rewrite Hc; exact Ha |].
      unfold calls_with_words. rewrite Ht. exact Hw. }
    assert (Hzero : is_word 0) by (unfold is_word, ULONG_MOD, ULONG_BITS; lia).
    destruct num_values as [| n].
    + cbn [holds]. apply page_with_words_set_arg; [exact Hzero |].
      destruct Hw1 as [Ha Hw1]. split; [exact Ha |].
      apply calls_with_words_emit; [exact I | exact Hw1].
    + revert Hvals Hw1. generalize (candidate_values values (S n)). clear Hc Ht.
      intros vals Hvals. revert w1.
      induction vals as [| v vals IHv]; intros w1 Hw1; cbn [for_each].
      * exact Hw1.
      * apply Forall_cons in Hvals as [Hv Hvals].
        apply (and_then_holds page_with_words); [| apply IHv, Hvals].
        apply (and_then_holds page_with_words).
        -- apply IH, page_with_words_set_arg; assumption.
        -- intros w3 Hw3. cbn [holds].
           apply page_with_words_set_arg; assumption.
Qed.

(** X20.  On a build whose fixed words and patched arrays are [unsigned
    long] values, every raw call of a worker is made with six argument words
    in the range of an [unsigned long]: the words the hash is computed from
    are machine words. *)
Theorem calls_pass_machine_words (P : platform) (g : globals) (env : environment)
    (syscall_args : list syscall_arg_t) (fuel : nat)
    (c : syscall_current_context_t) (tbl : gmap Z (list syscall_arg_hash_t)) :
  platform_words P -> globals_words g ->
  Forall args_are_words
    (w_trace (final_world (worker P g env syscall_args fuel (forked c tbl)))).
Proof.
  intros HP Hg.
  assert (Hw : worker_holds calls_with_words calls_with_words
                 (worker P g env syscall_args fuel (forked c tbl))).
  { apply (worker_keeps P g env syscall_args calls_with_words calls_with_words
             (fun _ _ => page_with_words) (fun _ _ => page_with_words)).
    - intros w0 t Hw0. exact Hw0.
    - intros w0 r Hw0. apply calls_with_words_emit; [exact I | exact Hw0].
    - intros w0 Hw0. exact Hw0.
    - intros w0 j sa _ Hw0. split; [| exact Hw0]. unfold publish.
      cbn [with_ctx w_ctx set_descriptor set_args ctx_args].
      apply Forall_replicate. unfold is_word, ULONG_MOD, ULONG_BITS. lia.
    - intros j sa w0 t Hw0. exact Hw0.
    - intros j sa w0 [_ Hw0]. exact Hw0.
    - intros j sa w0 [_ Hw0]. exact Hw0.
    - intros j sa w0 ret [_ Hw0] _. apply calls_with_words_emit; [exact I | exact Hw0].
    - intros j sa w0 ret [Ha Hw0] _. split; [exact Ha |].
      apply calls_with_words_emit; [exact I | exact Hw0].
    - intros j sa w0 t Hw0. exact Hw0.
    - intros j sa w0 Hw0. unfold syscall_permute.
      apply (holds_weaken page_with_words); [| intros w1 [_ Hw1]; exact Hw1].
      apply permute_from_with_words; assumption.
    - apply Forall_nil_2. }
  destruct (worker P g env syscall_args fuel (forked c tbl)) as [w | w];
    cbn [worker_holds final_world] in *; [destruct Hw |]; assumption.
Qed.

Lemma x86_64_words : platform_words x86_64.
Proof.
  intros i. cbn [x86_64 pids_word gids_word uids_word].
  destruct i as [| [| [| i]]]; cbn [nth];
    repeat split; unfold ULONG_MOD, ULONG_BITS; lia.
Qed.

Lemma demo_globals_words : globals_words demo_globals.
Proof.
  unfold globals_words.
  split; [| split; [| split; [| split]]];
    match goal with
    | |- Forall _ ?l =>
        let v := eval vm_compute in l in
        replace l with v by (vm_compute; reflexivity)
    end;
    words_of_table.
Qed.

Lemma calls_pass_machine_words_witness :
  Forall args_are_words (w_trace (final_world two_descriptor_worker)).
Proof.
  unfold two_descriptor_worker.
  apply calls_pass_machine_words; [exact x86_64_words | exact demo_globals_words].
Defined.
